(** * mcp-swagger: operation-to-tool mapping and request builder

    A shallow embedding of the class [SwaggerMCPServer] of the server:
    [mapSwaggerType], [generateToolName],
    [createToolFromOperation], [generateTools], [buildUrl],
    [getBaseUrlFromSwagger], [callApiTool], the two request handlers,
    [loadSwaggerDoc] and [initialize], and of [parseCallCommand] of
    the interactive client, together with the pieces of the
    JavaScript runtime they call (string methods,
    [encodeURIComponent], [Object.assign], [JSON.stringify] and the
    WHATWG [URL] class).

    Conventions of the model.
    - A JavaScript string is a [string]: a sequence of code units below
      256 (the Latin-1 range).  Strings with a lone surrogate, on
      which [encodeURIComponent] raises [URIError], are outside of
      it; no statement below says that the errors of [buildUrl] are
      only those of the model.
    - A JavaScript number is a [Z] (an integer-valued Number within the
      safe range); fractional numbers, NaN and the infinities are not
      modelled.
    - A plain object is the list of its own enumerable properties, in
      the order [Object.keys] reports them.  Its prototype is
      [Object.prototype]: a read [o[k]] that finds no own property
      finds what [Object.prototype] holds ([fetch]), and a write
      [o[k] = v] under [__proto__] goes to the setter it has
      ([write]).
    - The swagger document is read as typed: [paths] maps to path
      items that are objects, and [parameters] to arrays of
      parameter objects whose [name] and [in] are strings.  What a
      path item holds under a key is left open ([PathItemEntry]),
      [null] included.
    - A [throw] is the [Throw] case of [completion]. *)

From Stdlib Require Import String Ascii List ZArith NArith Bool Lia.
From Stdlib Require Import DecimalString DecimalN DecimalZ.
Import ListNotations.
Local Open Scope list_scope.
Local Open Scope string_scope.
Set Warnings "-register-all".

(* ================================================================= *)
(** ** JavaScript strings *)

Module JsString.

Definition code (c : ascii) : N := N_of_ascii c.

Definition between (lo hi : N) (c : ascii) : bool :=
  (lo <=? code c)%N && (code c <=? hi)%N.

Definition is_digit (c : ascii) : bool := between 48 57 c.
Definition is_upper (c : ascii) : bool := between 65 90 c.
Definition is_lower (c : ascii) : bool := between 97 122 c.
Definition is_alnum (c : ascii) : bool :=
  is_lower c || is_upper c || is_digit c.

Fixpoint map_chars (f : ascii -> ascii) (s : string) : string :=
  match s with
  | EmptyString => EmptyString
  | String c r => String (f c) (map_chars f r)
  end.

Fixpoint flat_map_chars (f : ascii -> string) (s : string) : string :=
  match s with
  | EmptyString => EmptyString
  | String c r => f c ++ flat_map_chars f r
  end.

Fixpoint forallb_chars (p : ascii -> bool) (s : string) : bool :=
  match s with
  | EmptyString => true
  | String c r => p c && forallb_chars p r
  end.

Fixpoint filter_chars (p : ascii -> bool) (s : string) : string :=
  match s with
  | EmptyString => EmptyString
  | String c r => if p c then String c (filter_chars p r) else filter_chars p r
  end.

(** [String.prototype.toLowerCase], exact on the Latin-1 range:
    A-Z and the accented capitals U+00C0-U+00DE (but not the
    multiplication sign U+00D7) move up by 32. *)
Definition lower_char (c : ascii) : ascii :=
  if is_upper c || (between 192 222 c && negb (code c =? 215)%N)
  then ascii_of_N (code c + 32) else c.
Definition toLowerCase : string -> string := map_chars lower_char.

(** [String.prototype.toUpperCase], exact on ASCII input (the server
    only passes it one of the five method names). *)
Definition upper_char (c : ascii) : ascii :=
  if is_lower c then ascii_of_N (code c - 32) else c.
Definition toUpperCase : string -> string := map_chars upper_char.

Definition startsWith (s pat : string) : bool := prefix pat s.

(** [endsWith]: compare the substring that ends at the end of [s]. *)
Definition endsWith (s pat : string) : bool :=
  (String.length pat <=? String.length s)%nat
  && (substring (String.length s - String.length pat) (String.length pat) s =? pat).

(** [s.slice(1, -1)]: from index [min 1 len] up to [max (len-1) 0]. *)
Definition slice_1_m1 (s : string) : string :=
  substring 1 (String.length s - 2) s.

(** [s.substring(1)]. *)
Definition substring_from_1 (s : string) : string :=
  match s with
  | EmptyString => EmptyString
  | String _ r => r
  end.

(** [s.split(sep)] for a one-character separator: always at least one
    part. *)
Fixpoint split (sep : ascii) (s : string) : list string :=
  match s with
  | EmptyString => [EmptyString]
  | String c r =>
      if Ascii.eqb c sep then EmptyString :: split sep r
      else match split sep r with
           | p :: ps => String c p :: ps
           | [] => [String c EmptyString]
           end
  end.

(** [parts.join(sep)]. *)
Definition join (sep : string) (parts : list string) : string :=
  String.concat sep parts.

(** [drop n s]: [s] without its first [n] code units. *)
Fixpoint drop (n : nat) (s : string) : string :=
  match n, s with
  | O, _ => s
  | S _, EmptyString => EmptyString
  | S k, String _ r => drop k r
  end.

(** Leftmost occurrence of [pat] in [s]: the text before it and the
    text after it ([indexOf] followed by the two substrings). *)
Fixpoint split_first (pat s : string) : option (string * string) :=
  if prefix pat s then Some (EmptyString, drop (String.length pat) s)
  else match s with
       | EmptyString => None
       | String c r =>
           match split_first pat r with
           | Some (pre, suf) => Some (String c pre, suf)
           | None => None
           end
       end.

(** [GetSubstitution] of ECMA-262 for a string pattern (no capture
    groups): [$$], [$&], [$`] and [$'] are expanded, every other
    character of the replacement template is copied. *)
Fixpoint GetSubstitution (matched pre suf templ : string) : string :=
  match templ with
  | EmptyString => EmptyString
  | String "$" (String "$" r) => String "$" (GetSubstitution matched pre suf r)
  | String "$" (String "&" r) => matched ++ GetSubstitution matched pre suf r
  | String "$" (String "`" r) => pre ++ GetSubstitution matched pre suf r
  | String "$" (String "'" r) => suf ++ GetSubstitution matched pre suf r
  | String c r => String c (GetSubstitution matched pre suf r)
  end.

(** [s.replace(pat, templ)] with a string pattern: only the leftmost
    occurrence is replaced. *)
Definition replace (s pat templ : string) : string :=
  match split_first pat s with
  | None => s
  | Some (pre, suf) => pre ++ GetSubstitution pat pre suf templ ++ suf
  end.

(** [s.replace(/[^a-zA-Z0-9]/g, '_')]. *)
Definition replace_non_alnum (s : string) : string :=
  map_chars (fun c => if is_alnum c then c else "_"%char) s.

Definition hex_digit (n : N) : ascii :=
  if (n <? 10)%N then ascii_of_N (48 + n) else ascii_of_N (55 + n).

(** One byte as a percent escape, upper-case hexadecimal. *)
Definition pct_byte (n : N) : string :=
  String "%" (String (hex_digit (n / 16)) (String (hex_digit (n mod 16)) EmptyString)).

(** UTF-8 percent-encoding of one code unit below 256. *)
Definition pct_utf8 (c : ascii) : string :=
  let n := code c in
  if (n <? 128)%N then pct_byte n
  else pct_byte (192 + n / 64) ++ pct_byte (128 + n mod 64).

(** The characters [encodeURIComponent] leaves alone:
    A-Z a-z 0-9 - _ . ! ~ * ' ( ) *)
Definition uri_unreserved (c : ascii) : bool :=
  is_alnum c
  || existsb (Ascii.eqb c)
       ["-"; "_"; "."; "!"; "~"; "*"; "'"; "("; ")"]%char.

(** [encodeURIComponent] on a string of code units below 256: each
    one is a character of its own, so the [URIError] of a lone
    surrogate has no place here. *)
Definition encodeURIComponent (s : string) : string :=
  flat_map_chars
    (fun c => if uri_unreserved c then String c EmptyString else pct_utf8 c) s.

(** Decimal text of a natural number and of an integer-valued
    Number. *)
Definition N_to_string (n : N) : string :=
  NilEmpty.string_of_uint (N.to_uint n).

Definition Z_to_string (z : Z) : string :=
  NilEmpty.string_of_int (Z.to_int z).

(** The number a string of decimal digits denotes. *)
Fixpoint digits_value (s : string) (acc : N) : N :=
  match s with
  | EmptyString => acc
  | String c r => digits_value r (10 * acc + (code c - 48))%N
  end.

(** JavaScript truthiness of an optional string: [undefined] and the
    empty string are falsy. *)
Definition truthy (o : option string) : option string :=
  match o with
  | Some EmptyString => None
  | other => other
  end.

(** [a || b] when [a] is an optional string. *)
Definition or_else (o : option string) (dflt : string) : string :=
  match truthy o with
  | Some s => s
  | None => dflt
  end.

End JsString.

(* ================================================================= *)
(** ** JavaScript values and plain objects *)

Module JsValue.
Import JsString.

(** The values an argument bag or a response payload is made of. *)
Inductive value : Type :=
| VUndefined
| VNull
| VBool (b : bool)
| VNum (n : Z)
| VStr (s : string)
| VArr (items : list value)
| VObj (props : list (string * value)).

(** A plain object with properties of type [A]: its own enumerable
    properties in enumeration order. *)
Definition object (A : Type) : Type := list (string * A).

Definition Object_keys {A} (o : object A) : list string := map fst o.

(** [o[k]]: [None] is [undefined]. *)
Fixpoint get {A} (o : object A) (k : string) : option A :=
  match o with
  | [] => None
  | (k', v) :: r => if k' =? k then Some v else get r k
  end.

Definition has_key {A} (o : object A) (k : string) : bool :=
  existsb (fun p => fst p =? k) o.

(** An array index is the canonical decimal text of an integer below
    2^32 - 1; such keys are enumerated first, in ascending order. *)
Definition array_index (k : string) : option N :=
  match k with
  | EmptyString => None
  | String c r =>
      if forallb_chars is_digit k
         && (negb (Ascii.eqb c "0") || (r =? EmptyString))
         && (String.length k <=? 10)%nat
         && (digits_value k 0 <? 4294967295)%N
      then Some (digits_value k 0) else None
  end.

Fixpoint update {A} (o : object A) (k : string) (v : A) : object A :=
  match o with
  | [] => []
  | (k', v') :: r => if k' =? k then (k', v) :: r else (k', v') :: update r k v
  end.

Fixpoint insert_index {A} (n : N) (k : string) (v : A) (o : object A) : object A :=
  match o with
  | [] => [(k, v)]
  | (k', v') :: r =>
      match array_index k' with
      | Some m => if (n <? m)%N then (k, v) :: o
                  else (k', v') :: insert_index n k v r
      | None => (k, v) :: o
      end
  end.

(** [CreateDataProperty(o, k, v)]: the own property [k] gets the
    value [v]; an existing property keeps its place, a new array
    index is put among the indices, any other new key goes last. *)
Definition define {A} (o : object A) (k : string) (v : A) : object A :=
  if has_key o k then update o k v
  else match array_index k with
       | Some n => insert_index n k v o
       | None => (o ++ [(k, v)])%list
       end.

(** [ToString]: what a template literal or [encodeURIComponent] makes
    of a value. *)
Fixpoint ToString (v : value) : string :=
  match v with
  | VUndefined => "undefined"
  | VNull => "null"
  | VBool true => "true"
  | VBool false => "false"
  | VNum n => Z_to_string n
  | VStr s => s
  | VArr items =>
      join ","
        (map (fun x => match x with
                       | VUndefined | VNull => EmptyString
                       | _ => ToString x
                       end) items)
  | VObj _ => "[object Object]"
  end.

(** [args[key]] as [buildUrl] reads it, for a key [Object.keys]
    reported, hence an own property (on any other key this is
    [undefined]; the program does no such read). *)
Definition read (o : object value) (k : string) : value :=
  match get o k with
  | Some v => v
  | None => VUndefined
  end.

Fixpoint indexed {A} (i : N) (l : list A) : object A :=
  match l with
  | [] => []
  | x :: r => (N_to_string i, x) :: indexed (i + 1) r
  end.

Fixpoint chars (s : string) : list value :=
  match s with
  | EmptyString => []
  | String c r => VStr (String c EmptyString) :: chars r
  end.

(** The own enumerable properties [Object.assign] copies from a
    source: none for [undefined], [null], numbers and booleans; the
    code units of a string and the elements of an array under their
    indices; the properties of an object. *)
Definition own_enumerable (v : value) : object value :=
  match v with
  | VUndefined | VNull | VBool _ | VNum _ => []
  | VStr s => indexed 0 (chars s)
  | VArr items => indexed 0 items
  | VObj props => props
  end.

(** The string-keyed properties of [Object.prototype]: every plain
    object (one made by an object literal or by [JSON.parse])
    inherits them. *)
Definition Object_prototype_names : list string :=
  ["constructor"; "__defineGetter__"; "__defineSetter__"; "hasOwnProperty";
   "__lookupGetter__"; "__lookupSetter__"; "isPrototypeOf"; "propertyIsEnumerable";
   "toString"; "valueOf"; "__proto__"; "toLocaleString"].

(** What [o[k]] evaluates to on a plain object, when it is not
    [undefined]: the value of an own property, or the built-in that
    [Object.prototype] holds under that name (a function; under
    [__proto__], [Object.prototype] itself). *)
Inductive fetched : Type :=
| Own (v : value)
| Inherited (name : string).

(** [o[k]] on a plain object [o] with the own properties given;
    [None] is [undefined].  An own property comes first, also when
    its value is [undefined]. *)
Definition fetch (o : object value) (k : string) : option fetched :=
  match get o k with
  | Some VUndefined => None
  | Some v => Some (Own v)
  | None =>
      if existsb (String.eqb k) Object_prototype_names
      then Some (Inherited k) else None
  end.

(** An object the program makes with [{}] and then writes to: its
    own properties, and whether a write to [__proto__] still reaches
    the setter [Object.prototype] has for it.  Such an object has
    an own property [__proto__] only once the setter is out of
    reach. *)
Record plain (A : Type) : Type := mkPlain {
  own : object A;
  setter : bool
}.
Arguments mkPlain {A} own setter.
Arguments own {A} p.
Arguments setter {A} p.

(** [{}]. *)
Definition empty_plain {A} : plain A := mkPlain [] true.

(** [o[k] = v] ([[Set]]).  Under the key [__proto__], as long as
    the setter is reached, no own property is made: the setter makes
    [v] the prototype of [o] when [v] is an object or [null], and
    does nothing otherwise.  [unhooks v] tells whether, with [v] as
    prototype, the setter is out of reach: [v] is [null], or an
    object with an own property [__proto__]; from then on
    [__proto__] is written like any other key.  Every other write
    makes or updates an own property (nothing inherited from a
    prototype taken from the arguments is read-only or has a
    setter). *)
Definition write {A} (unhooks : A -> bool) (o : plain A) (k : string) (v : A) : plain A :=
  if (k =? "__proto__") && setter o
  then mkPlain (own o) (negb (unhooks v))
  else mkPlain (define (own o) k v) (setter o).

Definition unhooks_setter (v : value) : bool :=
  match v with
  | VNull => true
  | VObj props => has_key props "__proto__"
  | _ => false
  end.

Definition fetched_unhooks (f : fetched) : bool :=
  match f with
  | Own v => unhooks_setter v
  | Inherited _ => false
  end.

(** [Object.assign(target, source)]: each own enumerable property
    of the source is written to the target with [[Set]]. *)
Definition Object_assign (target : plain value) (source : value) : plain value :=
  fold_left (fun t p => write unhooks_setter t (fst p) (snd p))
    (own_enumerable source) target.

Definition dquote : ascii := "034"%char.
Definition newline : string := String "010"%char EmptyString.

Definition lower_hex_digit (n : N) : ascii :=
  if (n <? 10)%N then ascii_of_N (48 + n) else ascii_of_N (87 + n).

(** [QuoteJSONString] on one code unit. *)
Definition json_escape (c : ascii) : string :=
  let n := code c in
  if (n =? 8)%N then "\b"
  else if (n =? 9)%N then "\t"
  else if (n =? 10)%N then "\n"
  else if (n =? 12)%N then "\f"
  else if (n =? 13)%N then "\r"
  else if (n =? 34)%N then String "\" (String dquote EmptyString)
  else if (n =? 92)%N then "\\"
  else if (n <? 32)%N
       then "\u00" ++ String (lower_hex_digit (n / 16))
                        (String (lower_hex_digit (n mod 16)) EmptyString)
  else String c EmptyString.

Definition json_quote (s : string) : string :=
  String dquote (flat_map_chars json_escape s) ++ String dquote EmptyString.

(** [JSON.stringify(v, null, 2)] at a given current indentation;
    [None] is [undefined]. *)
Fixpoint stringify_at (indent : string) (v : value) : option string :=
  match v with
  | VUndefined => None
  | VNull => Some "null"
  | VBool true => Some "true"
  | VBool false => Some "false"
  | VNum n => Some (Z_to_string n)
  | VStr s => Some (json_quote s)
  | VArr items =>
      let inner := indent ++ "  " in
      match items with
      | [] => Some "[]"
      | _ =>
          Some ("[" ++ newline ++ inner
                ++ join ("," ++ newline ++ inner)
                     (map (fun x => match stringify_at inner x with
                                    | Some t => t
                                    | None => "null"
                                    end) items)
                ++ newline ++ indent ++ "]")
      end
  | VObj props =>
      let inner := indent ++ "  " in
      let members :=
        flat_map (fun p => match stringify_at inner (snd p) with
                           | Some t => [json_quote (fst p) ++ ": " ++ t]
                           | None => []
                           end) props in
      match members with
      | [] => Some "{}"
      | _ =>
          Some ("{" ++ newline ++ inner
                ++ join ("," ++ newline ++ inner) members
                ++ newline ++ indent ++ "}")
      end
  end.

Definition JSON_stringify_2 (v : value) : option string :=
  stringify_at EmptyString v.

(** A value inside a template literal: [undefined] prints as such. *)
Definition template_text (o : option string) : string :=
  match o with
  | Some s => s
  | None => "undefined"
  end.

End JsValue.

(* ================================================================= *)
(** ** The WHATWG URL class

    The URL record, its [pathname] getter and setter and its serializer
    ([href], [toString]) follow the URL Standard.  The constructor
    [new URL(input, base)] is an interface of the platform
    ([Platform] below); [URL_basic] implements it on plain [http] and
    [https] URLs. *)

Module Whatwg.
Import JsString.

Inductive url_path : Type :=
| Opaque (s : string)
| Segments (segs : list string).

Record URL : Type := mkURL {
  scheme : string;
  username : string;
  password : string;
  host : option string;        (* serialized host, [None] is null *)
  port : option N;
  path : url_path;
  query : option string;
  fragment : option string
}.

Definition with_path (u : URL) (p : url_path) : URL :=
  mkURL (scheme u) (username u) (password u) (host u) (port u) p
        (query u) (fragment u).

Definition is_special (sch : string) : bool :=
  existsb (String.eqb sch) ["ftp"; "file"; "http"; "https"; "ws"; "wss"].

Definition one_of (cs : list ascii) (c : ascii) : bool :=
  existsb (Ascii.eqb c) cs.

(** Percent-encode sets. *)
Definition in_c0_control_set (c : ascii) : bool :=
  (code c <? 32)%N || (126 <? code c)%N.
Definition in_fragment_set (c : ascii) : bool :=
  in_c0_control_set c || one_of [" "; "034"; "<"; ">"; "`"]%char c.
Definition in_query_set (c : ascii) : bool :=
  in_c0_control_set c || one_of [" "; "034"; "#"; "<"; ">"]%char c.
Definition in_special_query_set (c : ascii) : bool :=
  in_query_set c || Ascii.eqb c "'".
Definition in_path_set (c : ascii) : bool :=
  in_query_set c || one_of ["?"; "^"; "`"; "{"; "}"]%char c.

Definition pct_encode (in_set : ascii -> bool) (c : ascii) : string :=
  if in_set c then pct_utf8 c else String c EmptyString.

Definition ascii_lower (s : string) : string :=
  map_chars (fun c => if is_upper c then ascii_of_N (code c + 32) else c) s.

Definition is_single_dot (buf : string) : bool :=
  existsb (String.eqb (ascii_lower buf)) ["."; "%2e"].
Definition is_double_dot (buf : string) : bool :=
  existsb (String.eqb (ascii_lower buf)) [".."; ".%2e"; "%2e."; "%2e%2e"].

Definition is_alpha (c : ascii) : bool := is_upper c || is_lower c.

Definition is_windows_drive_letter (s : string) : bool :=
  match s with
  | String a (String b EmptyString) => is_alpha a && one_of [":"; "|"]%char b
  | _ => false
  end.
Definition is_normalized_drive_letter (s : string) : bool :=
  match s with
  | String a (String b EmptyString) => is_alpha a && Ascii.eqb b ":"
  | _ => false
  end.

(** Shorten a URL's path. *)
Definition shorten (sch : string) (p : list string) : list string :=
  match p with
  | [d] => if (sch =? "file") && is_normalized_drive_letter d then p else []
  | _ => removelast p
  end.

Definition is_separator (sch : string) (c : ascii) : bool :=
  Ascii.eqb c "/" || (is_special sch && Ascii.eqb c "\").

(** Path state, at a separator ([at_sep]) or at the end of the
    input: what the buffer adds to the path. *)
Definition flush (sch : string) (at_sep : bool) (p : list string) (buf : string)
  : list string :=
  if is_double_dot buf then
    let p' := shorten sch p in
    if at_sep then p' else (p' ++ [EmptyString])%list
  else if is_single_dot buf then
    if at_sep then p else (p ++ [EmptyString])%list
  else
    let buf' :=
      match p, buf with
      | [], String a (String _ EmptyString) =>
          if (sch =? "file") && is_windows_drive_letter buf
          then String a ":" else buf
      | _, _ => buf
      end in
    (p ++ [buf'])%list.

(** Path state under a state override: [?] and [#] are ordinary
    characters and get percent-encoded. *)
Fixpoint path_state (sch : string) (input : string) (p : list string) (buf : string)
  : list string :=
  match input with
  | EmptyString => flush sch false p buf
  | String c r =>
      if is_separator sch c
      then path_state sch r (flush sch true p buf) EmptyString
      else path_state sch r p (buf ++ pct_encode in_path_set c)
  end.

Definition is_tab_or_newline (c : ascii) : bool :=
  one_of ["009"; "010"; "013"]%char c.

(** Path start state under a state override, on the input with tabs
    and newlines removed. *)
Definition path_start_state (sch : string) (host_is_null : bool) (input : string)
  : list string :=
  match input with
  | EmptyString =>
      if is_special sch then path_state sch EmptyString [] EmptyString
      else if host_is_null then [EmptyString] else []
  | String c r =>
      if is_special sch
      then if is_separator sch c then path_state sch r [] EmptyString
           else path_state sch input [] EmptyString
      else if Ascii.eqb c "/" then path_state sch r [] EmptyString
           else path_state sch input [] EmptyString
  end.

(** The [pathname] setter. *)
Definition set_pathname (u : URL) (v : string) : URL :=
  match path u with
  | Opaque _ => u
  | Segments _ =>
      let input := filter_chars (fun c => negb (is_tab_or_newline c)) v in
      let host_is_null := match host u with None => true | Some _ => false end in
      with_path u (Segments (path_start_state (scheme u) host_is_null input))
  end.

(** URL path serializer. *)
Fixpoint serialize_segments (segs : list string) : string :=
  match segs with
  | [] => EmptyString
  | s :: r => "/" ++ s ++ serialize_segments r
  end.

(** The [pathname] getter. *)
Definition pathname (u : URL) : string :=
  match path u with
  | Opaque s => s
  | Segments segs => serialize_segments segs
  end.

Definition serialize_authority (u : URL) : string :=
  match host u with
  | Some h =>
      "//"
      ++ (if (username u =? EmptyString) && (password u =? EmptyString)
          then EmptyString
          else username u
               ++ (if password u =? EmptyString then EmptyString
                   else ":" ++ password u)
               ++ "@")
      ++ h
      ++ match port u with
         | Some n => ":" ++ N_to_string n
         | None => EmptyString
         end
  | None =>
      match path u with
      | Segments (EmptyString :: _ :: _) => "/."
      | _ => EmptyString
      end
  end.

(** URL serializer: [href] and [toString()]. *)
Definition href (u : URL) : string :=
  scheme u ++ ":" ++ serialize_authority u ++ pathname u
  ++ match query u with Some q => "?" ++ q | None => EmptyString end
  ++ match fragment u with Some f => "#" ++ f | None => EmptyString end.

(** [break_at p s]: the longest prefix of [s] without a character
    satisfying [p], and the rest. *)
Fixpoint break_at (p : ascii -> bool) (s : string) : string * string :=
  match s with
  | EmptyString => (EmptyString, EmptyString)
  | String c r =>
      if p c then (EmptyString, s)
      else let '(a, b) := break_at p r in (String c a, b)
  end.

Definition default_port (sch : string) : option N :=
  if sch =? "http" then Some 80%N
  else if sch =? "https" then Some 443%N
  else None.

(** A host the basic parser accepts: letters, digits, [.] and [-],
    no punycode label, last label starting with a letter (so the host
    is a domain, not an IPv4 address). *)
Definition basic_label_ok (l : string) : bool :=
  negb (prefix "xn--" l).
Definition basic_host (h : string) : option string :=
  let h' := ascii_lower h in
  let labels := split "." h' in
  let last_label :=
    match rev labels with
    | EmptyString :: l :: _ => l
    | l :: _ => l
    | [] => EmptyString
    end in
  if negb (h' =? EmptyString)
     && forallb_chars (fun c => is_alnum c || one_of ["."; "-"]%char c) h'
     && forallb basic_label_ok labels
     && match last_label with String c _ => is_lower c | EmptyString => false end
  then Some h' else None.

Definition basic_port (sch p : string) : option (option N) :=
  if p =? EmptyString then Some None
  else if forallb_chars is_digit p && (String.length p <=? 5)%nat then
    let n := JsString.digits_value p 0 in
    if (65535 <? n)%N then None
    else if match default_port sch with
            | Some d => (d =? n)%N
            | None => false
            end
         then Some None else Some (Some n)
  else None.

(** [new URL(input)] on the plain fragment
    [http(s)://host(:port)(/path)(?query)(#fragment)] without
    credentials, whitespace or control characters.  Everything else
    is outside of this parser and answered [None]. *)
Definition URL_basic_absolute (input : string) : option URL :=
  if negb (forallb_chars (fun c => (32 <? code c)%N && (code c <? 127)%N) input)
  then None else
  match split_first "://" input with
  | None => None
  | Some (sch0, rest) =>
      let sch := ascii_lower sch0 in
      if negb ((sch =? "http") || (sch =? "https")) then None else
      let '(authority, after) := break_at (one_of ["/"; "\"; "?"; "#"]%char) rest in
      if negb (forallb_chars (fun c => negb (Ascii.eqb c "@")) authority) then None else
      let '(h, p) := break_at (Ascii.eqb ":") authority in
      match basic_host h, basic_port sch (substring_from_1 p) with
      | Some h', Some port' =>
          let '(path_text, after_path) := break_at (one_of ["?"; "#"]%char) after in
          let '(query_text, frag_text) := break_at (Ascii.eqb "#") after_path in
          Some (mkURL sch EmptyString EmptyString (Some h') port'
                  (Segments (path_state sch (substring_from_1 path_text) [] EmptyString))
                  (match query_text with
                   | String _ q => Some (flat_map_chars (pct_encode in_special_query_set) q)
                   | EmptyString => None
                   end)
                  (match frag_text with
                   | String _ f => Some (flat_map_chars (pct_encode in_fragment_set) f)
                   | EmptyString => None
                   end))
      | _, _ => None
      end
  end.

Definition URL_basic (input : string) (base : option string) : option URL :=
  match base with
  | None => URL_basic_absolute input
  | Some _ => None
  end.

End Whatwg.

(* ================================================================= *)
(** ** The server: [SwaggerMCPServer] *)

Module Server.
Import JsString JsValue Whatwg.

(** *** Exceptions *)

Record HttpResponse : Type := mkResponse {
  status : Z;
  data : value
}.

(** What a [catch (error)] clause looks at: [error.response] (set by
    the HTTP client when the server answered) and [error.message]. *)
Record Thrown : Type := mkThrown {
  response : option HttpResponse;
  message : string
}.

(** [new Error(msg)], [new TypeError(msg)]: no [response] property. *)
Definition Error (msg : string) : Thrown := mkThrown None msg.

Inductive completion (A : Type) : Type :=
| Normal (a : A)
| Throw (e : Thrown).
Arguments Normal {A} a.
Arguments Throw {A} e.

Definition bind {A B} (c : completion A) (k : A -> completion B) : completion B :=
  match c with
  | Normal a => k a
  | Throw e => Throw e
  end.

Definition try_catch {A} (body : completion A) (handler : Thrown -> completion A)
  : completion A :=
  match body with
  | Normal a => Normal a
  | Throw e => handler e
  end.

Notation "x <- c ;; k" := (bind c (fun x => k))
  (at level 61, c at next level, right associativity).

(** *** Data *)

Record ServerConfig : Type := mkConfig {
  swaggerUrl : option string;
  swaggerFile : option string;
  toolPrefix : option string;
  baseUrl : option string;
  ignoreSsl : bool;
  authHeader : option string
}.

(** A parameter object of the swagger document, with the properties
    the server reads: [name], [in], [type], [schema.type],
    [description], [required]. *)
Record SwaggerParameter : Type := mkParameter {
  param_name : string;
  param_in : string;
  param_type : option string;
  param_schema_type : option string;
  param_description : option string;
  param_required : bool
}.

Record Operation : Type := mkOperation {
  operationId : option string;
  summary : option string;
  op_description : option string;
  op_parameters : option (list SwaggerParameter)
}.

(** What a path item holds under one of its keys: an operation (under
    a method name), the parameters shared by its operations (under
    [parameters]), [null], or some other value that is not [null]
    (a string, a number, an object without the four properties). *)
Inductive PathItemEntry : Type :=
| OperationEntry (operation : Operation)
| ParametersEntry (parameters : list SwaggerParameter)
| NullEntry
| OtherEntry.

(** An entry other than [null] read as an operation: on anything
    but an operation object, [operationId], [summary],
    [description] and [parameters] are all undefined.  On [null]
    the first of these reads throws; [generateTools] below does not
    get as far as reading an operation off it. *)
Definition as_operation (entry : PathItemEntry) : Operation :=
  match entry with
  | OperationEntry operation => operation
  | ParametersEntry _ | NullEntry | OtherEntry => mkOperation None None None None
  end.

(** The [TypeError] of [operation.operationId] when [operation] is
    [null]. *)
Definition null_operation_error : Thrown :=
  Error "Cannot read properties of null (reading 'operationId')".

Record SwaggerDoc : Type := mkDoc {
  schemes : option (list string);
  doc_host : option string;
  basePath : option string;
  paths : option (object (object PathItemEntry))
}.

Record Property : Type := mkProperty {
  prop_type : string;
  prop_description : string
}.

Record InputSchema : Type := mkSchema {
  schema_type : string;
  properties : object Property;
  required : list string
}.

Record SwaggerTool : Type := mkTool {
  tool_name : string;
  tool_description : string;
  inputSchema : InputSchema;
  tool_method : string;
  tool_path : string;
  tool_parameters : list SwaggerParameter
}.

(** The fields of the server object the modelled methods read. *)
Record SwaggerMCPServer : Type := mkServer {
  config : ServerConfig;
  swaggerDoc : option SwaggerDoc;
  tools : list SwaggerTool
}.

(** The request handed to the HTTP client.  [params] is always set;
    [data] and [headers] only when there is a body.  [params] and
    [data] are given by their own enumerable properties, which is
    what [Object.keys] and [JSON.stringify] see of them. *)
Record RequestConfig : Type := mkRequest {
  rc_method : string;
  rc_url : string;
  rc_params : object fetched;
  rc_data : option (object value);
  rc_headers : option (object string)
}.

Record Content : Type := mkContent {
  content_type : string;
  text : option string          (* [None]: [JSON.stringify] gave undefined *)
}.

Record CallToolResult : Type := mkResult {
  content : list Content;
  isError : option bool         (* [None]: the property is absent *)
}.

(** *** Interfaces of the environment *)

(** [new URL(input)] and [new URL(input, base)]; [None] when the
    constructor throws its [TypeError]. *)
Class Platform : Type := {
  URL_new : string -> option string -> option URL
}.

(** [httpClient.request(config)], awaited: the response, or the
    rejection as a thrown error. *)
Class AxiosInstance : Type := {
  request : RequestConfig -> completion HttpResponse
}.

(** *** Methods *)

Definition mapSwaggerType (swaggerType : string) : string :=
  if swaggerType =? "integer" then "number"
  else if swaggerType =? "boolean" then "boolean"
  else if swaggerType =? "array" then "array"
  else if swaggerType =? "object" then "object"
  else "string".

Definition generateToolName (prefix method path : string) (operation : Operation)
  : string :=
  match truthy (operationId operation) with
  | Some id => prefix ++ id
  | None =>
      let pathParts :=
        map (fun part =>
               if startsWith part "{" && endsWith part "}"
               then "by_" ++ slice_1_m1 part
               else replace_non_alnum part)
            (filter (fun part => negb (part =? EmptyString)) (split "/" path)) in
      let methodName := toLowerCase method in
      prefix ++ methodName ++ "_" ++ join "_" pathParts
  end.

(** [param.type || param.schema?.type || 'string']. *)
Definition declaredType (param : SwaggerParameter) : string :=
  or_else (param_type param) (or_else (param_schema_type param) "string").

Definition createToolFromOperation (name method path : string) (operation : Operation)
  : SwaggerTool :=
  let parameters :=
    match op_parameters operation with
    | Some ps => ps
    | None => []
    end in
  let '(properties, required) :=
    fold_left
      (fun (acc : plain Property * list string) param =>
         let '(properties, required) := acc in
         (write (fun _ => false) properties (param_name param)
            (mkProperty
               (mapSwaggerType (declaredType param))
               (or_else (param_description param)
                  (param_name param ++ " parameter"))),
          if param_required param
          then (required ++ [param_name param])%list
          else required))
      parameters (empty_plain, []) in
  mkTool name
    (or_else (summary operation)
       (or_else (op_description operation) (toUpperCase method ++ " " ++ path)))
    (mkSchema "object" (own properties) required)
    (toUpperCase method)
    path
    parameters.

Definition http_methods : list string := ["get"; "post"; "put"; "delete"; "patch"].

(** [generateTools]: the new value of [this.tools].  Under a method
    key, [null] makes [generateToolName] throw at
    [operation.operationId]; the tools pushed before that are not
    reported. *)
Definition generateTools (this : SwaggerMCPServer) : completion (list SwaggerTool) :=
  match swaggerDoc this with
  | None => Throw (Error "No valid swagger document loaded")
  | Some doc =>
      match paths doc with
      | None => Throw (Error "No valid swagger document loaded")
      | Some ps =>
          let prefix :=
            match truthy (toolPrefix (config this)) with
            | Some p => p ++ "_"
            | None => EmptyString
            end in
          fold_left
            (fun (pushed : completion (list SwaggerTool)) entry =>
               let path := fst entry in
               fold_left
                 (fun (pushed : completion (list SwaggerTool)) item =>
                    tools <- pushed ;;
                    let method := fst item in
                    if existsb (String.eqb method) http_methods
                    then match snd item with
                         | NullEntry => Throw null_operation_error
                         | held =>
                             let operation := as_operation held in
                             Normal
                               (tools
                                ++ [createToolFromOperation
                                      (generateToolName prefix method path operation)
                                      method path operation])%list
                         end
                    else Normal tools)
                 (snd entry) pushed)
            ps (Normal (tools this))
      end
  end.

Definition getBaseUrlFromSwagger (this : SwaggerMCPServer) : completion string :=
  match swaggerDoc this with
  | None => Throw (Error "No swagger document loaded")
  | Some doc =>
      let schemes :=
        match schemes doc with
        | Some l => l
        | None => ["https"]
        end in
      let host := or_else (doc_host doc) "localhost" in
      let basePath := or_else (basePath doc) EmptyString in
      Normal (template_text (nth_error schemes 0) ++ "://" ++ host ++ basePath)
  end.

(** The first statement of [buildUrl]: the loop over
    [Object.keys(args)] that replaces path parameters. *)
Definition substitute (path : string) (args : object value) : string :=
  fold_left
    (fun url key =>
       replace url ("{" ++ key ++ "}") (encodeURIComponent (ToString (read args key))))
    (Object_keys args) path.

(** [this.config.baseUrl || this.getBaseUrlFromSwagger()]. *)
Definition configuredBaseUrl (this : SwaggerMCPServer) : completion string :=
  match truthy (baseUrl (config this)) with
  | Some b => Normal b
  | None => getBaseUrlFromSwagger this
  end.

Definition buildUrl `{Platform} (this : SwaggerMCPServer) (path : string)
    (args : object value) : completion string :=
  let url := substitute path args in
  baseUrl <- configuredBaseUrl this ;;
  if startsWith url "/" then
    match URL_new baseUrl None with
    | None => Throw (Error "Invalid URL")
    | Some baseUrlObj =>
        let basePath :=
          if endsWith (pathname baseUrlObj) "/" then pathname baseUrlObj
          else pathname baseUrlObj ++ "/" in
        let cleanPath := if startsWith url "/" then substring_from_1 url else url in
        Normal (href (set_pathname baseUrlObj (basePath ++ cleanPath)))
    end
  else
    match URL_new url (Some baseUrl) with
    | None => Throw (Error "Invalid URL")
    | Some u => Normal (href u)
    end.

(** The [forEach] over [tool.parameters] in [callApiTool]:
    [(queryParams, bodyData)].  [args] is a plain object, so
    [args[param.name]] also finds what [Object.prototype] holds; a
    built-in has no enumerable property for [Object.assign] to
    copy. *)
Definition collectParams (parameters : list SwaggerParameter) (args : object value)
  : plain fetched * plain value :=
  fold_left
    (fun (acc : plain fetched * plain value) param =>
       let '(queryParams, bodyData) := acc in
       match fetch args (param_name param) with
       | None => acc
       | Some v =>
           if param_in param =? "query"
           then (write fetched_unhooks queryParams (param_name param) v, bodyData)
           else if param_in param =? "body"
           then (queryParams,
                 match v with
                 | Own source => Object_assign bodyData source
                 | Inherited _ => bodyData
                 end)
           else acc
       end)
    parameters (empty_plain, empty_plain).

(** [requestConfig] as [callApiTool] has it when it calls the HTTP
    client. *)
Definition requestConfig (tool : SwaggerTool) (url : string) (args : object value)
  : RequestConfig :=
  let '(queryParams, bodyData) := collectParams (tool_parameters tool) args in
  if (0 <? List.length (Object_keys (own bodyData)))%nat
  then mkRequest (tool_method tool) url (own queryParams)
         (Some (own bodyData)) (Some [("Content-Type", "application/json")])
  else mkRequest (tool_method tool) url (own queryParams) None None.

Definition callApiTool `{Platform} `{AxiosInstance} (this : SwaggerMCPServer)
    (tool : SwaggerTool) (args : object value) : completion CallToolResult :=
  try_catch
    (url <- buildUrl this (tool_path tool) args ;;
     response <- request (requestConfig tool url args) ;;
     Normal (mkResult [mkContent "text" (JSON_stringify_2 (data response))] None))
    (fun error =>
       let errorMessage :=
         match response error with
         | Some r =>
             "HTTP " ++ Z_to_string (status r) ++ ": "
             ++ template_text (JSON_stringify_2 (data r))
         | None => message error
         end in
       Normal
         (mkResult
            [mkContent "text" (Some ("Error calling " ++ tool_name tool ++ ": " ++ errorMessage))]
            (Some true))).

(** An instance of [Platform] for plain http(s) base URLs. *)
Definition basic_platform : Platform := {| URL_new := URL_basic |}.

End Server.

(* ================================================================= *)
(** ** The specification's reading of name generation *)

Module Spec.
Import JsString.

(** [strip_closing_brace r]: [Some x] when [r] is [x] followed by a
    closing brace. *)
Fixpoint strip_closing_brace (r : string) : option string :=
  match r with
  | EmptyString => None
  | String c EmptyString => if Ascii.eqb c "}" then Some EmptyString else None
  | String c r' =>
      match strip_closing_brace r' with
      | Some x => Some (String c x)
      | None => None
      end
  end.

(** A segment is a brace-delimited placeholder when it reads
    [{x}]; [placeholder_name] gives [x]. *)
Definition placeholder_name (segment : string) : option string :=
  match segment with
  | String "{" r => strip_closing_brace r
  | _ => None
  end.

(** "if it is a brace-delimited placeholder {x}, replace with by_x;
    otherwise replace every character outside [A-Za-z0-9] with _". *)
Definition transform_segment (segment : string) : string :=
  match placeholder_name segment with
  | Some x => "by_" ++ x
  | None => map_chars (fun c => if is_alnum c then c else "_"%char) segment
  end.

(** "Split the path template on /, drop empty segments, transform
    each segment, join with _; final name = prefix +
    lowercase(method) + _ + joined segments". *)
Definition generateName (prefix method pathTemplate : string) : string :=
  prefix ++ toLowerCase method ++ "_"
  ++ join "_"
       (map transform_segment
          (filter (fun seg => negb (seg =? EmptyString)) (split "/" pathTemplate))).

End Spec.

(* ================================================================= *)
(** ** Path templates and their placeholders *)

Module Template.
Import JsString.

Definition is_brace (c : ascii) : bool := Ascii.eqb c "{" || Ascii.eqb c "}".

(** A string without any brace. *)
Definition brace_free (s : string) : bool :=
  forallb_chars (fun c => negb (is_brace c)) s.

(** Scanning a path template for placeholders: outside of a
    placeholder, or inside one with the name read so far. *)
Inductive scan_state : Type :=
| Outside
| Inside (name : string).

(** One pass over the template.  Braces must alternate: an opening
    brace inside a placeholder, or a closing brace outside of one,
    makes the template ill-formed ([None]). *)
Fixpoint scan (st : scan_state) (s : string) : option (scan_state * list string) :=
  match s with
  | EmptyString => Some (st, [])
  | String c r =>
      match st with
      | Outside =>
          if Ascii.eqb c "{" then scan (Inside EmptyString) r
          else if Ascii.eqb c "}" then None
          else scan Outside r
      | Inside name =>
          if Ascii.eqb c "}" then
            match scan Outside r with
            | Some (st', names) => Some (st', name :: names)
            | None => None
            end
          else if Ascii.eqb c "{" then None
          else scan (Inside (name ++ String c EmptyString)) r
      end
  end.

(** The placeholder names of a well-formed template, left to right
    and with repetitions; [None] for a template whose braces do not
    pair up. *)
Definition placeholders (template : string) : option (list string) :=
  match scan Outside template with
  | Some (Outside, names) => Some names
  | _ => None
  end.


End Template.

(* ================================================================= *)
(** ** Auxiliary notions used in the statements *)

Module Notions.
Import JsString JsValue Server.

Definition no_dollar (s : string) : bool :=
  forallb_chars (fun c => negb (Ascii.eqb c "$")) s.

(** The output alphabet of [encodeURIComponent]: unreserved
    characters and [%] (hexadecimal digits are unreserved). *)
Definition uri_output_char (c : ascii) : bool :=
  uri_unreserved c || Ascii.eqb c "%".

(** A sequence of own properties made or updated. *)
Definition define_all {A} (o : object A) (l : list (string * A)) : object A :=
  fold_left (fun t p => define t (fst p) (snd p)) l o.

(** A sequence of writes [o[fst p] = snd p]. *)
Definition write_all {A} (unhooks : A -> bool) (o : plain A) (l : list (string * A))
  : plain A :=
  fold_left (fun t p => write unhooks t (fst p) (snd p)) l o.

(** The schema property [createToolFromOperation] writes for a
    parameter. *)
Definition property_of (param : SwaggerParameter) : Property :=
  mkProperty (mapSwaggerType (declaredType param))
    (or_else (param_description param) (param_name param ++ " parameter")).

(** The supplied query parameters, in declaration order. *)
Definition query_entries (parameters : list SwaggerParameter) (args : object value)
  : list (string * fetched) :=
  flat_map
    (fun param =>
       match fetch args (param_name param) with
       | Some v => if param_in param =? "query" then [(param_name param, v)] else []
       | None => []
       end) parameters.

(** The supplied values of the body-located parameters, in
    declaration order. *)
Definition body_values (parameters : list SwaggerParameter) (args : object value)
  : list value :=
  flat_map
    (fun param =>
       match fetch args (param_name param) with
       | Some (Own v) =>
           if param_in param =? "query" then []
           else if param_in param =? "body" then [v] else []
       | _ => []
       end) parameters.

(** What the [catch] clause of [callApiTool] reports. *)
Definition error_detail (error : Thrown) : string :=
  match response error with
  | Some r =>
      "HTTP " ++ Z_to_string (status r) ++ ": "
      ++ template_text (JSON_stringify_2 (data r))
  | None => message error
  end.

Definition error_result (tool : SwaggerTool) (error : Thrown) : CallToolResult :=
  mkResult
    [mkContent "text"
       (Some ("Error calling " ++ tool_name tool ++ ": " ++ error_detail error))]
    (Some true).

Definition success_result (payload : value) : CallToolResult :=
  mkResult [mkContent "text" (JSON_stringify_2 payload)] None.

(** One turn of the loop of [buildUrl] over [Object.keys(args)]. *)
Definition substitute_key (args : object value) (url key : string) : string :=
  replace url ("{" ++ key ++ "}") (encodeURIComponent (ToString (read args key))).

(** [basePath] in [buildUrl]: the base URL's pathname, closed by a
    slash. *)
Definition closed_base_path (u : Whatwg.URL) : string :=
  if endsWith (Whatwg.pathname u) "/" then Whatwg.pathname u
  else Whatwg.pathname u ++ "/".

(** A path segment as the URL parser leaves it: no separator, every
    character outside the path percent-encode set, not a dot
    segment, and (in a [file] URL) no drive letter written with a
    bar. *)
Definition normal_segment (sch : string) (seg : string) : bool :=
  forallb_chars
    (fun c => negb (Whatwg.is_separator sch c) && negb (Whatwg.in_path_set c)) seg
  && negb (Whatwg.is_single_dot seg)
  && negb (Whatwg.is_double_dot seg)
  && negb ((sch =? "file") && Whatwg.is_windows_drive_letter seg
           && negb (Whatwg.is_normalized_drive_letter seg)).

(** What the path state writes for a segment the parser takes as it
    is: not a dot segment once percent-encoded, and (in a [file]
    URL) not a drive letter. *)
Definition kept_segment (sch : string) (buf : string) : bool :=
  negb (Whatwg.is_single_dot buf)
  && negb (Whatwg.is_double_dot buf)
  && negb ((sch =? "file") && Whatwg.is_windows_drive_letter buf).

(** The first step of the URL parser on any input: tabs and newlines
    are removed. *)
Definition strip_tabs_newlines (input : string) : string :=
  filter_chars (fun c => negb (Whatwg.is_tab_or_newline c)) input.

(** Input of the path state in which no segment is a dot segment (or,
    in a [file] URL, a drive letter).  [buf] is the encoded text of
    the segment being read. *)
Fixpoint plain_from (sch : string) (input buf : string) : bool :=
  match input with
  | EmptyString => kept_segment sch buf
  | String c r =>
      if Whatwg.is_separator sch c
      then kept_segment sch buf && plain_from sch r EmptyString
      else plain_from sch r (buf ++ Whatwg.pct_encode Whatwg.in_path_set c)
  end.

(** A request path (without its leading slash) that the [pathname]
    setter only has to percent-encode: none of its segments is a dot
    segment. *)
Definition plain_path (sch : string) (rest : string) : bool :=
  plain_from sch (strip_tabs_newlines rest) EmptyString.

(** Percent-encoding of path text, every separator written as a
    slash. *)
Definition encode_segments (sch : string) (input : string) : string :=
  flat_map_chars
    (fun c => if Whatwg.is_separator sch c then "/"
              else Whatwg.pct_encode Whatwg.in_path_set c)
    input.

(** What the [pathname] setter makes of a plain request path. *)
Definition encode_path_text (sch : string) (rest : string) : string :=
  encode_segments sch (strip_tabs_newlines rest).

(** Path segments written one after the other, each closed by a
    slash. *)
Fixpoint closed_segments (segs : list string) : string :=
  match segs with
  | [] => EmptyString
  | seg :: rest => seg ++ "/" ++ closed_segments rest
  end.


(** An HTTP client that settles every request the same way. *)
Definition constant_client (outcome : completion HttpResponse) : AxiosInstance :=
  {| request := fun _ => outcome |}.

End Notions.

(* ================================================================= *)
(** ** The request handlers, start-up and the interactive client *)

Module Handlers.
Import JsString JsValue Whatwg Server.

(** One entry of the answer to a list request. *)
Record ListedTool : Type := mkListed {
  listed_name : string;
  listed_description : string;
  listed_inputSchema : InputSchema
}.

(** The handler [setupHandlers] registers for [ListToolsRequestSchema]:
    the [tools] property of its answer. *)
Definition listTools (this : SwaggerMCPServer) : list ListedTool :=
  map (fun tool => mkListed (tool_name tool) (tool_description tool) (inputSchema tool))
      (tools this).

(** The handler [setupHandlers] registers for [CallToolRequestSchema],
    on [request.params.name] and [request.params.arguments] ([None]
    when the request has no arguments). *)
Definition handleCallTool `{Platform} `{AxiosInstance} (this : SwaggerMCPServer)
    (name : string) (args : option (object value)) : completion CallToolResult :=
  match find (fun t => tool_name t =? name) (tools this) with
  | None => Throw (Error ("Tool " ++ name ++ " not found"))
  | Some tool =>
      callApiTool this tool (match args with Some a => a | None => [] end)
  end.

(** What [loadSwaggerDoc] calls: [httpClient.get(url)] (the [data] of
    its response), [swaggerParser.parse(file)] and
    [swaggerParser.dereference(doc)], each awaited. *)
Class DocumentSource : Type := {
  RawDocument : Type;
  http_get : string -> completion RawDocument;
  parser_parse : string -> completion RawDocument;
  parser_dereference : RawDocument -> completion SwaggerDoc
}.

(** [loadSwaggerDoc]: the server with [this.swaggerDoc] set.  The
    messages written to the console are left out. *)
Definition loadSwaggerDoc `{DocumentSource} (this : SwaggerMCPServer)
  : completion SwaggerMCPServer :=
  try_catch
    (swaggerDoc <-
       match truthy (swaggerUrl (config this)) with
       | Some url => http_get url
       | None =>
           match truthy (swaggerFile (config this)) with
           | Some file => parser_parse file
           | None => Throw (Error "Either swaggerUrl or swaggerFile must be provided")
           end
       end ;;
     doc <- parser_dereference swaggerDoc ;;
     Normal (mkServer (config this) (Some doc) (tools this)))
    (fun error =>
       Throw (Error ("Failed to load swagger document: " ++ message error))).

(** [initialize]: [loadSwaggerDoc], then [generateTools]. *)
Definition initialize `{DocumentSource} (this : SwaggerMCPServer)
  : completion SwaggerMCPServer :=
  loaded <- loadSwaggerDoc this ;;
  generated <- generateTools loaded ;;
  Normal (mkServer (config loaded) (swaggerDoc loaded) generated).

End Handlers.

Module Interactive.
Import JsString.

(** White space and line terminators below 256, as
    [String.prototype.trim] removes them: tab, line feed, vertical
    tab, form feed, carriage return, space and no-break space. *)
Definition is_whitespace (c : ascii) : bool :=
  existsb (N.eqb (code c)) [9; 10; 11; 12; 13; 32; 160]%N.

Fixpoint trimStart (s : string) : string :=
  match s with
  | EmptyString => EmptyString
  | String c r => if is_whitespace c then trimStart r else s
  end.

Fixpoint trimEnd (s : string) : string :=
  match s with
  | EmptyString => EmptyString
  | String c r =>
      match trimEnd r with
      | EmptyString => if is_whitespace c then EmptyString else String c EmptyString
      | kept => String c kept
      end
  end.

Definition trim (s : string) : string := trimEnd (trimStart s).

(** The local variables of [parseCallCommand]. *)
Record ParseState : Type := mkParse {
  parts : list string;
  current : string;
  inQuotes : bool;
  inJson : bool;
  braceCount : Z
}.

Definition initial : ParseState := mkParse [] EmptyString false false 0.

(** The body of the [for] loop of [parseCallCommand], for one
    character. *)
Definition step (st : ParseState) (char : ascii) : ParseState :=
  let add := current st ++ String char EmptyString in
  if Ascii.eqb char "034" && negb (inJson st) then
    mkParse (parts st) (current st) (negb (inQuotes st)) (inJson st) (braceCount st)
  else if Ascii.eqb char "{" && negb (inQuotes st) then
    mkParse (parts st) add (inQuotes st) true 1
  else if Ascii.eqb char "}" && inJson st && negb (inQuotes st) then
    let count := (braceCount st - 1)%Z in
    mkParse (parts st) add (inQuotes st)
      (if (count =? 0)%Z then false else inJson st) count
  else if Ascii.eqb char "{" && inJson st && negb (inQuotes st) then
    mkParse (parts st) add (inQuotes st) (inJson st) (braceCount st + 1)%Z
  else if Ascii.eqb char " " && negb (inQuotes st) && negb (inJson st) then
    if negb (trim (current st) =? EmptyString)
    then mkParse (parts st ++ [trim (current st)])%list EmptyString
           (inQuotes st) (inJson st) (braceCount st)
    else st
  else
    mkParse (parts st) add (inQuotes st) (inJson st) (braceCount st).

Fixpoint run (st : ParseState) (input : string) : ParseState :=
  match input with
  | EmptyString => st
  | String char rest => run (step st char) rest
  end.

(** [parts] when the loop and the [if] after it are done. *)
Definition finish (st : ParseState) : list string :=
  if negb (trim (current st) =? EmptyString)
  then (parts st ++ [trim (current st)])%list
  else parts st.

Record CallCommand : Type := mkCall {
  toolName : string;
  args : list string
}.

Definition parseCallCommand (input : string) : CallCommand :=
  let parts := finish (run initial input) in
  mkCall (match truthy (nth_error parts 0) with Some name => name | None => EmptyString end)
         (tl parts).

End Interactive.

(* ================================================================= *)
(** ** Further notions used in the statements *)

Module Pieces.
Import JsString JsValue Server Template.

(** A well-formed path template, piece by piece: a character that is
    not a brace, or a placeholder. *)
Inductive piece : Type :=
| Text (c : ascii)
| Hole (name : string).

Definition render_piece (p : piece) : string :=
  match p with
  | Text c => String c EmptyString
  | Hole name => "{" ++ name ++ "}"
  end.

Fixpoint render (ps : list piece) : string :=
  match ps with
  | [] => EmptyString
  | p :: rest => render_piece p ++ render rest
  end.

Definition wf_piece (p : piece) : bool :=
  match p with
  | Text c => negb (is_brace c)
  | Hole name => brace_free name
  end.

Definition holes (ps : list piece) : list string :=
  flat_map (fun p => match p with Hole name => [name] | Text _ => [] end) ps.

Fixpoint text_pieces (s : string) : list piece :=
  match s with
  | EmptyString => []
  | String c r => Text c :: text_pieces r
  end.

(** The template with the placeholder [key] replaced by [text]. *)
Definition fill_key (key text : string) (ps : list piece) : list piece :=
  flat_map
    (fun p => match p with
              | Hole name => if name =? key then text_pieces text else [p]
              | Text _ => [p]
              end) ps.

(** What stands for a piece once the placeholders named by [keys]
    are replaced by the percent-encoded values of the argument
    bag. *)
Definition instantiate_piece (keys : list string) (args : object value) (p : piece)
  : string :=
  match p with
  | Text c => String c EmptyString
  | Hole name =>
      if existsb (String.eqb name) keys
      then encodeURIComponent (ToString (read args name))
      else "{" ++ name ++ "}"
  end.

Fixpoint instantiate_with (keys : list string) (args : object value) (ps : list piece)
  : string :=
  match ps with
  | [] => EmptyString
  | p :: rest => instantiate_piece keys args p ++ instantiate_with keys args rest
  end.





(** The first placeholder [key] of a template: the pieces before it
    and after it. *)
Fixpoint split_at_hole (key : string) (ps : list piece)
  : option (list piece * list piece) :=
  match ps with
  | [] => None
  | Hole name :: rest =>
      if name =? key then Some ([], rest)
      else match split_at_hole key rest with
           | Some (before, after) => Some (Hole name :: before, after)
           | None => None
           end
  | Text c :: rest =>
      match split_at_hole key rest with
      | Some (before, after) => Some (Text c :: before, after)
      | None => None
      end
  end.

(** Text without an opening brace. *)
Definition no_opening (s : string) : bool :=
  forallb_chars (fun c => negb (Ascii.eqb c "{")) s.

(** An occurrence found after the text [w]. *)
Definition prepend (w : string) (r : option (string * string)) : option (string * string) :=
  match r with
  | Some (pre, suf) => Some (w ++ pre, suf)
  | None => None
  end.


(** A parameter [callApiTool] can send: located in the query or in
    the body. *)
Definition sent_location (param : SwaggerParameter) : bool :=
  (param_in param =? "query") || (param_in param =? "body").

Definition with_parameters (tool : SwaggerTool) (ps : list SwaggerParameter)
  : SwaggerTool :=
  mkTool (tool_name tool) (tool_description tool) (inputSchema tool)
         (tool_method tool) (tool_path tool) ps.

(** The body of the inner [forEach] of [generateTools], on the
    tools pushed so far, and the inner [forEach] as a whole. *)
Definition push_operation (prefix path : string)
    (pushed : completion (list SwaggerTool)) (item : string * PathItemEntry)
  : completion (list SwaggerTool) :=
  tools <- pushed ;;
  if existsb (String.eqb (fst item)) http_methods
  then match snd item with
       | NullEntry => Throw null_operation_error
       | held =>
           Normal
             (tools
              ++ [createToolFromOperation
                    (generateToolName prefix (fst item) path (as_operation held))
                    (fst item) path (as_operation held)])%list
       end
  else Normal tools.

Definition push_path_item (prefix : string)
    (pushed : completion (list SwaggerTool)) (entry : string * object PathItemEntry)
  : completion (list SwaggerTool) :=
  fold_left (push_operation prefix (fst entry)) (snd entry) pushed.

(** An entry that makes [generateTools] throw: [null] under a
    method name. *)
Definition null_operation (item : string * PathItemEntry) : bool :=
  existsb (String.eqb (fst item)) http_methods
  && match snd item with NullEntry => true | _ => false end.

Definition has_null_operation (ps : object (object PathItemEntry)) : bool :=
  existsb (fun entry => existsb null_operation (snd entry)) ps.

(** The tools made from the entries of a document: one for each
    entry under a method name, [null] apart. *)
Definition generated (prefix : string) (ps : object (object PathItemEntry))
  : list SwaggerTool :=
  flat_map
    (fun entry =>
       flat_map
         (fun item =>
            if existsb (String.eqb (fst item)) http_methods
            then match snd item with
                 | NullEntry => []
                 | held =>
                     [createToolFromOperation
                        (generateToolName prefix (fst item) (fst entry) (as_operation held))
                        (fst item) (fst entry) (as_operation held)]
                 end
            else [])
         (snd entry))
    ps.

(** [this.swaggerDoc.paths], when there is a document and it has
    paths. *)
Definition loaded_paths (this : SwaggerMCPServer)
  : option (object (object PathItemEntry)) :=
  match swaggerDoc this with
  | Some doc => paths doc
  | None => None
  end.

(** [prefix] in [generateTools]. *)
Definition tool_prefix (this : SwaggerMCPServer) : string :=
  match truthy (toolPrefix (config this)) with
  | Some p => p ++ "_"
  | None => EmptyString
  end.

(** The number of entries of a path item under one of the five
    method names. *)
Definition method_entries (ps : object (object PathItemEntry)) : nat :=
  list_sum
    (map (fun entry =>
            List.length
              (filter (fun item => existsb (String.eqb (fst item)) http_methods)
                 (snd entry)))
       ps).

Definition name_char (c : ascii) : bool := is_alnum c || Ascii.eqb c "_".

(** The field [k] of the last of the values [vs] that has such a
    field, on top of [found]. *)
Definition last_field_from (found : option value) (vs : list value) (k : string)
  : option value :=
  fold_left
    (fun found v =>
       match get (own_enumerable v) k with
       | Some x => Some x
       | None => found
       end) vs found.

Definition last_field : list value -> string -> option value := last_field_from None.

End Pieces.

Module Words.
Import JsString Interactive.

(** An empty string, or one that starts with a character that is not
    white space. *)
Definition starts_black (s : string) : bool :=
  match s with
  | EmptyString => true
  | String c _ => negb (is_whitespace c)
  end.

(** A word: not empty, no white space at either end. *)
Definition trimmed (part : string) : Prop := part <> EmptyString /\ trim part = part.

(** The brace counter agrees with the JSON flag. *)
Definition counted (st : ParseState) : Prop :=
  braceCount st = (if inJson st then 1 else 0)%Z.

Definition is_quote (c : ascii) : bool := Ascii.eqb c "034".

(** Input without double quotes and opening braces. *)
Definition plain_input (input : string) : bool :=
  forallb_chars (fun c => negb (is_quote c) && negb (Ascii.eqb c "{")) input.

Definition quote_free (s : string) : bool :=
  forallb_chars (fun c => negb (is_quote c)) s.

(** The pieces between single spaces, trimmed, the empty ones left
    out; [pending] is put in front of the first piece. *)
Definition words_after (pending : string) (pieces : list string) : list string :=
  filter (fun word => negb (word =? EmptyString))
    (map trim
       match pieces with
       | first :: others => (pending ++ first) :: others
       | [] => [pending]
       end).

Definition words (input : string) : list string :=
  words_after EmptyString (split " " input).

End Words.

(* ================================================================= *)
(** * Facts *)

(** ** Strings *)

Module StringFacts.
Import JsString Notions.

Lemma append_nil_r (s : string) : s ++ EmptyString = s.
Proof. induction s as [|c s IH]; simpl; [reflexivity | now rewrite IH]. Qed.

Lemma append_assoc (a b c : string) : (a ++ b) ++ c = a ++ (b ++ c).
Proof. induction a as [|x a IH]; simpl; [reflexivity | now rewrite IH]. Qed.

Lemma length_append (a b : string) :
  String.length (a ++ b) = String.length a + String.length b.
Proof. induction a as [|x a IH]; simpl; [reflexivity | now rewrite IH]. Qed.


Lemma prefix_append (p s : string) : prefix p (p ++ s) = true.
Proof.
  induction p as [|c p IH]; simpl.
  - now destruct s.
  - destruct (ascii_dec c c) as [_|N]; [exact IH | now elim N].
Qed.

Lemma prefix_single (a c : ascii) (s : string) :
  prefix (String a EmptyString) (String c s) = Ascii.eqb a c.
Proof.
  cbn [prefix]. destruct (ascii_dec a c) as [->|N].
  - rewrite Ascii.eqb_refl. now destruct s.
  - symmetry. now apply Ascii.eqb_neq.
Qed.


Lemma drop_append (p s : string) : drop (String.length p) (p ++ s) = s.
Proof. induction p as [|c p IH]; simpl; [now destruct s | exact IH]. Qed.

Lemma split_first_eq (pat s : string) :
  split_first pat s =
  if prefix pat s then Some (EmptyString, drop (String.length pat) s)
  else match s with
       | EmptyString => None
       | String c r =>
           match split_first pat r with
           | Some (pre, suf) => Some (String c pre, suf)
           | None => None
           end
       end.
Proof. destruct s; reflexivity. Qed.



(** A replacement template without [$] is inserted as it is. *)
Lemma GetSubstitution_plain (matched pre suf templ : string) :
  no_dollar templ = true -> GetSubstitution matched pre suf templ = templ.
Proof.
  induction templ as [|c r IH]; simpl; [reflexivity|].
  intros H. apply andb_true_iff in H as [Hc Hr].
  destruct (Ascii.eqb_spec c "$") as [->|Nc]; [discriminate|].
  assert (E : GetSubstitution matched pre suf (String c r)
              = String c (GetSubstitution matched pre suf r)).
  { simpl. destruct c as [[] [] [] [] [] [] [] []]; try reflexivity. now elim Nc. }
  simpl in E. rewrite E. now rewrite IH.
Qed.

Lemma replace_plain (s pat templ pre suf : string) :
  no_dollar templ = true ->
  split_first pat s = Some (pre, suf) ->
  replace s pat templ = pre ++ templ ++ suf.
Proof.
  intros D E. unfold replace. rewrite E. now rewrite GetSubstitution_plain.
Qed.

Lemma replace_absent (s pat templ : string) :
  split_first pat s = None -> replace s pat templ = s.
Proof. intros E. unfold replace. now rewrite E. Qed.

Lemma forallb_chars_append (p : ascii -> bool) (a b : string) :
  forallb_chars p (a ++ b) = forallb_chars p a && forallb_chars p b.
Proof.
  induction a as [|c a IH]; simpl; [reflexivity|].
  now rewrite IH, andb_assoc.
Qed.

Lemma forallb_chars_flat_map (p : ascii -> bool) (f : ascii -> string) (s : string) :
  (forall c, forallb_chars p (f c) = true) ->
  forallb_chars p (flat_map_chars f s) = true.
Proof.
  intros H; induction s as [|c s IH]; simpl; [reflexivity|].
  now rewrite forallb_chars_append, H, IH.
Qed.

Lemma forallb_chars_impl (p q : ascii -> bool) (s : string) :
  (forall c, p c = true -> q c = true) ->
  forallb_chars p s = true -> forallb_chars q s = true.
Proof.
  intros H; induction s as [|c s IH]; simpl; [reflexivity|].
  intros E. apply andb_true_iff in E as [E1 E2].
  now rewrite (H _ E1), IH.
Qed.

Lemma encodeURIComponent_alphabet (s : string) :
  forallb_chars uri_output_char (encodeURIComponent s) = true.
Proof.
  apply forallb_chars_flat_map. intros c.
  destruct c as [[] [] [] [] [] [] [] []]; reflexivity.
Qed.

Lemma uri_output_char_plain (c : ascii) :
  uri_output_char c = true ->
  negb (Ascii.eqb c "$") && negb (Ascii.eqb c "{") && negb (Ascii.eqb c "}") = true.
Proof. destruct c as [[] [] [] [] [] [] [] []]; vm_compute; congruence. Qed.

Lemma encodeURIComponent_no_dollar (s : string) :
  no_dollar (encodeURIComponent s) = true.
Proof.
  eapply forallb_chars_impl; [|apply encodeURIComponent_alphabet].
  intros c H. apply uri_output_char_plain in H.
  apply andb_true_iff in H as [H _]. now apply andb_true_iff in H as [H _].
Qed.

End StringFacts.

(** ** Tool names *)

Module NameFacts.
Import JsString Server.

Lemma string_eqb_single (c d : ascii) :
  (String c EmptyString =? String d EmptyString) = Ascii.eqb c d.
Proof. simpl. now destruct (Ascii.eqb c d). Qed.

Lemma strip_closing_brace_substring (r : string) (c : ascii) :
  Spec.strip_closing_brace (String c r) =
  if substring (String.length r) 1 (String c r) =? "}"
  then Some (substring 0 (String.length r) (String c r)) else None.
Proof.
  revert c; induction r as [|d r IH]; intros c.
  - cbn [Spec.strip_closing_brace String.length substring].
    now rewrite string_eqb_single.
  - change (Spec.strip_closing_brace (String c (String d r)))
      with (match Spec.strip_closing_brace (String d r) with
            | Some x => Some (String c x)
            | None => None
            end).
    rewrite IH.
    change (substring (String.length (String d r)) 1 (String c (String d r)))
      with (substring (String.length r) 1 (String d r)).
    change (substring 0 (String.length (String d r)) (String c (String d r)))
      with (String c (substring 0 (String.length r) (String d r))).
    now destruct (_ =? _).
Qed.

(** The test and the slice of the source select the same segments,
    with the same name, as the specification's "is a brace-delimited
    placeholder". *)
Lemma transform_segment_agrees (part : string) :
  Spec.transform_segment part =
  if startsWith part "{" && endsWith part "}"
  then "by_" ++ slice_1_m1 part
  else replace_non_alnum part.
Proof.
  unfold Spec.transform_segment, Spec.placeholder_name, startsWith.
  destruct part as [|c r]; [reflexivity|].
  destruct (Ascii.eqb_spec c "{") as [->|N].
  - destruct r as [|d r]; [reflexivity|].
    rewrite strip_closing_brace_substring.
    unfold endsWith, slice_1_m1.
    change (prefix "{" (String "{" (String d r))) with true.
    change (String.length "}" <=? String.length (String "{" (String d r)))%nat with true.
    change (substring (String.length (String "{" (String d r)) - String.length "}")
              (String.length "}") (String "{" (String d r)))
      with (substring (String.length r) 1 (String d r)).
    change (substring 1 (String.length (String "{" (String d r)) - 2)
              (String "{" (String d r)))
      with (substring 0 (String.length r - 0) (String d r)).
    rewrite Nat.sub_0_r.
    now destruct (_ =? _).
  - rewrite StringFacts.prefix_single.
    replace (Ascii.eqb "{" c) with false
      by (symmetry; apply Ascii.eqb_neq; congruence).
    cbn [andb].
    destruct c as [[] [] [] [] [] [] [] []]; try reflexivity. now elim N.
Qed.

Lemma map_transform_segment (parts : list string) :
  map (fun part =>
         if startsWith part "{" && endsWith part "}"
         then "by_" ++ slice_1_m1 part
         else replace_non_alnum part) parts
  = map Spec.transform_segment parts.
Proof.
  apply map_ext. intros part. now rewrite transform_segment_agrees.
Qed.

End NameFacts.

Module NameClaims.
Import JsString Server NameFacts.

(** C1.  For an operation without an operationId (absent, or empty,
    which the truthiness test of the source treats alike) the tool
    name is the one the specification describes: split the path on
    [/], drop the empty segments, turn a segment [{x}] into [by_x]
    and replace every character outside [A-Za-z0-9] by [_] in the
    other segments, join with [_], and put
    [prefix + lowercase(method) + "_"] in front. *)
Theorem generateToolName_from_path (prefix method path : string) (operation : Operation) :
  truthy (operationId operation) = None ->
  generateToolName prefix method path operation
  = Spec.generateName prefix method path.
Proof.
  intros H. unfold generateToolName, Spec.generateName.
  rewrite H. now rewrite map_transform_segment.
Qed.

Lemma generateToolName_from_path_witness :
  truthy (operationId (mkOperation None None None None)) = None
  /\ generateToolName "infra_" "get" "/v1/hosts/{name}" (mkOperation None None None None)
     = "infra_get_v1_hosts_by_name".
Proof.
  split; [reflexivity|].
  exact (eq_trans
           (generateToolName_from_path "infra_" "get" "/v1/hosts/{name}"
              (mkOperation None None None None) eq_refl)
           eq_refl).
Defined.

(** Scenario 1, whatever else the operation declares. *)
Example scenario_1 (s d : option string) (ps : option (list SwaggerParameter)) :
  generateToolName "infra_" "get" "/v1/hosts/{name}" (mkOperation None s d ps)
  = "infra_get_v1_hosts_by_name".
Proof. reflexivity. Qed.

(** A segment counts as a placeholder when it starts with an opening
    and ends with a closing brace, whatever stands in between. *)
Example two_placeholders_in_one_segment :
  generateToolName "api_" "get" "/range/{from}-{to}" (mkOperation None None None None)
  = "api_get_range_by_from}-{to".
Proof. reflexivity. Qed.

(** A path without any non-empty segment gives
    [prefix + method + "_"]. *)
Example root_path_name :
  generateToolName "infra_" "get" "/" (mkOperation None None None None) = "infra_get_".
Proof. reflexivity. Qed.

(** C2.  For an operation that declares an operationId (one that
    passes the truthiness test of the source: a non-empty string) the
    tool name is [prefix ++ operationId], whatever the method and the
    path. *)
Theorem generateToolName_operationId
    (prefix method path : string) (operation : Operation) (id : string) :
  truthy (operationId operation) = Some id ->
  generateToolName prefix method path operation = prefix ++ id.
Proof.
  intros H. unfold generateToolName. now rewrite H.
Qed.

Lemma generateToolName_operationId_witness :
  truthy (operationId (mkOperation (Some "findPets") None None None)) = Some "findPets"
  /\ generateToolName "petstore_" "delete" "/store/{orderId}"
       (mkOperation (Some "findPets") None None None)
     = "petstore_findPets".
Proof.
  split; [reflexivity|].
  exact (generateToolName_operationId "petstore_" "delete" "/store/{orderId}"
           (mkOperation (Some "findPets") None None None) "findPets" eq_refl).
Defined.

(** Scenario 2, for every method and path. *)
Example scenario_2 (method path : string) (s d : option string)
    (ps : option (list SwaggerParameter)) :
  generateToolName "petstore_" method path (mkOperation (Some "findPets") s d ps)
  = "petstore_findPets".
Proof. reflexivity. Qed.

(** An empty operationId is falsy: the name comes from the method
    and the path. *)
Example empty_operationId :
  generateToolName "petstore_" "get" "/pets" (mkOperation (Some EmptyString) None None None)
  = "petstore_get_pets".
Proof. reflexivity. Qed.

End NameClaims.

(** ** The type mapper *)

Module TypeClaims.
Import JsString Server.

Lemma mapSwaggerType_default (t : string) :
  ~ In t ["integer"; "boolean"; "array"; "object"] -> mapSwaggerType t = "string".
Proof.
  intros N. unfold mapSwaggerType.
  repeat match goal with
         | |- context [String.eqb t ?k] =>
             destruct (String.eqb_spec t k) as [->|_];
             [exfalso; apply N; simpl; tauto|]
         end.
  reflexivity.
Qed.

Lemma mapSwaggerType_range (t : string) :
  In (mapSwaggerType t) ["number"; "boolean"; "array"; "object"; "string"].
Proof.
  unfold mapSwaggerType.
  repeat match goal with
         | |- context [String.eqb t ?k] => destruct (String.eqb t k)
         end; simpl; tauto.
Qed.

(** C7.  [mapSwaggerType] is defined on every string and always
    answers one of the five schema types: [integer] gives [number];
    [boolean], [array] and [object] are kept; every other declared
    type gives [string], and so does a parameter that declares no
    type at all. *)
Theorem mapSwaggerType_table :
  mapSwaggerType "integer" = "number"
  /\ mapSwaggerType "boolean" = "boolean"
  /\ mapSwaggerType "array" = "array"
  /\ mapSwaggerType "object" = "object"
  /\ mapSwaggerType "string" = "string"
  /\ (forall t, In (mapSwaggerType t) ["number"; "boolean"; "array"; "object"; "string"])
  /\ (forall t, ~ In t ["integer"; "boolean"; "array"; "object"] ->
                mapSwaggerType t = "string")
  /\ (forall param, truthy (param_type param) = None ->
                    truthy (param_schema_type param) = None ->
                    mapSwaggerType (declaredType param) = "string").
Proof.
  repeat split; try reflexivity.
  - apply mapSwaggerType_range.
  - apply mapSwaggerType_default.
  - intros param H1 H2. unfold declaredType, or_else. now rewrite H1, H2.
Qed.

Lemma mapSwaggerType_table_witness :
  ~ In "file" ["integer"; "boolean"; "array"; "object"]
  /\ mapSwaggerType "file" = "string"
  /\ mapSwaggerType
       (declaredType (mkParameter "q" "query" None None None false)) = "string".
Proof.
  assert (N : ~ In "file" ["integer"; "boolean"; "array"; "object"]).
  { simpl. intros [H|[H|[H|[H|[]]]]]; discriminate. }
  split; [exact N|]. split.
  - exact (proj1 (proj2 (proj2 (proj2 (proj2 (proj2 (proj2 mapSwaggerType_table))))))
             "file" N).
  - exact (proj2 (proj2 (proj2 (proj2 (proj2 (proj2 (proj2 mapSwaggerType_table))))))
             (mkParameter "q" "query" None None None false) eq_refl eq_refl).
Defined.

End TypeClaims.

(** ** Plain objects *)

Module ObjectFacts.
Import JsString JsValue Notions.

Section Properties.
Context {A : Type}.
Implicit Types (o : object A) (k : string) (v : A).

Lemma has_key_get o k : has_key o k = false <-> get o k = None.
Proof.
  induction o as [|[k' v'] o IH]; simpl; [tauto|].
  destruct (k' =? k); simpl; [split; discriminate | exact IH].
Qed.

Lemma get_update_same o k v : has_key o k = true -> get (update o k v) k = Some v.
Proof.
  induction o as [|[k' v'] o IH]; simpl; [discriminate|].
  destruct (k' =? k) eqn:E; simpl; rewrite E; auto.
Qed.

Lemma get_update_other o k k' v : k' <> k -> get (update o k v) k' = get o k'.
Proof.
  intros N. induction o as [|[k0 v0] o IH]; simpl; [reflexivity|].
  destruct (String.eqb_spec k0 k) as [->|N0]; simpl.
  - apply String.eqb_neq in N. rewrite String.eqb_sym in N. now rewrite N.
  - now rewrite IH.
Qed.

Lemma get_insert_index_same n o k v :
  has_key o k = false -> get (insert_index n k v o) k = Some v.
Proof.
  induction o as [|[k0 v0] o IH]; simpl.
  - now rewrite String.eqb_refl.
  - destruct (k0 =? k) eqn:E; simpl; [discriminate|]. intros H.
    destruct (array_index k0) as [m|]; [destruct (n <? m)%N|]; simpl;
      rewrite ?String.eqb_refl, ?E; auto.
Qed.

Lemma get_insert_index_other n o k k' v :
  k' <> k -> get (insert_index n k v o) k' = get o k'.
Proof.
  intros N. apply String.eqb_neq in N. rewrite String.eqb_sym in N.
  induction o as [|[k0 v0] o IH]; simpl.
  - now rewrite N.
  - destruct (array_index k0) as [m|]; [destruct (n <? m)%N|]; simpl;
      rewrite ?N, ?IH; reflexivity.
Qed.

Lemma get_app o o' k :
  get (o ++ o')%list k = match get o k with Some v => Some v | None => get o' k end.
Proof.
  induction o as [|[k0 v0] o IH]; simpl; [reflexivity|].
  now destruct (k0 =? k).
Qed.

(** Reading back what was just written. *)
Lemma get_define_same o k v : get (define o k v) k = Some v.
Proof.
  unfold define. destruct (has_key o k) eqn:H.
  - now apply get_update_same.
  - destruct (array_index k).
    + now apply get_insert_index_same.
    + rewrite get_app. apply has_key_get in H. rewrite H. simpl.
      now rewrite String.eqb_refl.
Qed.

(** Writing one property leaves the others alone. *)
Lemma get_define_other o k k' v : k' <> k -> get (define o k v) k' = get o k'.
Proof.
  intros N. unfold define. destruct (has_key o k).
  - now apply get_update_other.
  - destruct (array_index k).
    + now apply get_insert_index_other.
    + rewrite get_app. simpl.
      apply String.eqb_neq in N. rewrite String.eqb_sym in N. rewrite N.
      now destruct (get o k').
Qed.

Lemma define_nonempty o k v : define o k v <> [].
Proof.
  intros E. assert (H := get_define_same o k v). rewrite E in H. discriminate.
Qed.

Lemma get_define_all_other l o k :
  ~ In k (map fst l) -> get (define_all o l) k = get o k.
Proof.
  unfold define_all.
  revert o; induction l as [|[k0 v0] l IH]; intros o N; simpl; [reflexivity|].
  rewrite IH.
  - apply get_define_other. intros ->. apply N. now left.
  - intros H. apply N. now right.
Qed.

Lemma get_define_all l o k v :
  NoDup (map fst l) -> In (k, v) l -> get (define_all o l) k = Some v.
Proof.
  revert o; induction l as [|[k0 v0] l IH]; intros o D H; [destruct H|].
  simpl in D. inversion D as [|? ? Hn Hd]; subst.
  destruct H as [E|H].
  - inversion E; subst.
    change (get (define_all (define o k v) l) k = Some v).
    rewrite get_define_all_other by assumption. apply get_define_same.
  - change (get (define_all (define o k0 v0) l) k = Some v). apply IH; assumption.
Qed.

Lemma define_all_nil_iff l o : define_all o l = [] <-> o = [] /\ l = [].
Proof.
  unfold define_all.
  revert o; induction l as [|[k0 v0] l IH]; intros o; simpl.
  - tauto.
  - rewrite IH. split.
    + intros [E _]. now apply define_nonempty in E.
    + intros [_ E]. discriminate.
Qed.

End Properties.

Section Writes.
Context {A : Type}.
Implicit Types (o : object A) (k : string) (v : A).

Lemma define_all_app o (l l' : list (string * A)) :
  define_all o (l ++ l')%list = define_all (define_all o l) l'.
Proof. unfold define_all. apply fold_left_app. Qed.

(** The last write to a key is the one that is read back. *)
Lemma get_define_all_last (l : list (string * A)) o k :
  get (define_all o l) k
  = match get (rev l) k with Some v => Some v | None => get o k end.
Proof.
  revert o. induction l as [|[k' v'] l IH]; intros o; [reflexivity|].
  change (define_all o ((k', v') :: l)) with (define_all (define o k' v') l).
  rewrite IH. cbn [rev]. rewrite get_app.
  destruct (get (rev l) k); [reflexivity|].
  cbn [get]. destruct (k' =? k) eqn:E.
  - apply String.eqb_eq in E. subst. apply get_define_same.
  - apply String.eqb_neq in E. apply get_define_other. congruence.
Qed.

Lemma get_not_In o k : ~ In k (map fst o) -> get o k = None.
Proof.
  induction o as [|[k' v'] o IH]; intros N; [reflexivity|].
  cbn [get]. destruct (k' =? k) eqn:E.
  - apply String.eqb_eq in E. exfalso. apply N. now left.
  - apply IH. intros I. apply N. now right.
Qed.

Lemma get_rev o k : NoDup (map fst o) -> get (rev o) k = get o k.
Proof.
  induction o as [|[k' v'] o IH]; intros D; [reflexivity|].
  inversion D as [|? ? N D']; subst.
  cbn [rev get]. rewrite get_app, (IH D'). cbn [get].
  destruct (k' =? k) eqn:E.
  - apply String.eqb_eq in E. subst. now rewrite (get_not_In o k N).
  - now destruct (get o k).
Qed.

Lemma has_key_In o k : has_key o k = true <-> In k (map fst o).
Proof.
  unfold has_key. rewrite existsb_exists, in_map_iff. split.
  - intros [p [I E]]. apply String.eqb_eq in E. now exists p.
  - intros [p [E I]]. exists p. split; [assumption|]. now apply String.eqb_eq.
Qed.

Lemma keys_update o k v : map fst (update o k v) = map fst o.
Proof.
  induction o as [|[k' v'] o IH]; [reflexivity|].
  cbn [update]. destruct (k' =? k) eqn:E; cbn [map fst].
  - reflexivity.
  - now rewrite IH.
Qed.

Lemma keys_insert_index n o k v k0 :
  In k0 (map fst (insert_index n k v o)) <-> k0 = k \/ In k0 (map fst o).
Proof.
  induction o as [|[k' v'] o IH]; cbn [insert_index map fst In].
  - intuition congruence.
  - destruct (array_index k') as [m|]; [destruct (n <? m)%N|]; cbn [map fst In];
      rewrite ?IH; intuition congruence.
Qed.

Lemma NoDup_insert_index n o k v :
  ~ In k (map fst o) -> NoDup (map fst o) -> NoDup (map fst (insert_index n k v o)).
Proof.
  induction o as [|[k' v'] o IH]; intros N D; cbn [insert_index].
  - cbn. constructor; [intros [] | constructor].
  - inversion D as [|? ? N' D']; subst.
    assert (NoDup (map fst ((k, v) :: (k', v') :: o))) as Front
      by (cbn [map fst]; constructor; assumption).
    destruct (array_index k') as [m|]; [destruct (n <? m)%N|]; try exact Front.
    cbn [map fst]. constructor.
    + rewrite keys_insert_index. intros [-> | I]; [apply N; now left | contradiction].
    + apply IH; [|assumption]. intros I. apply N. now right.
Qed.

Lemma keys_define o k v k0 :
  In k0 (map fst (define o k v)) <-> k0 = k \/ In k0 (map fst o).
Proof.
  unfold define. destruct (has_key o k) eqn:H.
  - rewrite keys_update. apply has_key_In in H. split; [tauto|].
    intros [-> | I]; assumption.
  - destruct (array_index k) as [n|].
    + apply keys_insert_index.
    + rewrite map_app, in_app_iff. cbn. intuition congruence.
Qed.

Lemma NoDup_define o k v : NoDup (map fst o) -> NoDup (map fst (define o k v)).
Proof.
  intros D. unfold define. destruct (has_key o k) eqn:H.
  - now rewrite keys_update.
  - assert (~ In k (map fst o)) as N.
    { intros I. apply has_key_In in I. congruence. }
    destruct (array_index k) as [n|].
    + now apply NoDup_insert_index.
    + rewrite map_app. cbn [map fst]. apply NoDup_app.
      * assumption.
      * constructor; [intros [] | constructor].
      * intros x I [<- | []]. contradiction.
Qed.

Lemma keys_define_all (l : list (string * A)) o k0 :
  In k0 (map fst (define_all o l)) <-> In k0 (map fst l) \/ In k0 (map fst o).
Proof.
  revert o. induction l as [|[k v] l IH]; intros o.
  - cbn. tauto.
  - change (define_all o ((k, v) :: l)) with (define_all (define o k v) l).
    rewrite IH, keys_define. cbn [map fst In]. intuition congruence.
Qed.

Lemma NoDup_define_all (l : list (string * A)) o :
  NoDup (map fst o) -> NoDup (map fst (define_all o l)).
Proof.
  revert o. induction l as [|[k v] l IH]; intros o D; [assumption|].
  change (define_all o ((k, v) :: l)) with (define_all (define o k v) l).
  apply IH. now apply NoDup_define.
Qed.

End Writes.

Section Write.
Context {A : Type} (unhooks : A -> bool).
Implicit Types (o : plain A) (k : string) (v : A).

Lemma get_define (t : object A) k k' v :
  get (define t k v) k' = if k =? k' then Some v else get t k'.
Proof.
  destruct (k =? k') eqn:E.
  - apply String.eqb_eq in E. subst. apply get_define_same.
  - apply String.eqb_neq in E. apply get_define_other. congruence.
Qed.

(** Under every key but [__proto__] a write makes or updates an own
    property. *)
Lemma write_plain o k v :
  k <> "__proto__" -> write unhooks o k v = mkPlain (define (own o) k v) (setter o).
Proof.
  intros N. unfold write. apply String.eqb_neq in N. now rewrite N.
Qed.

(** What a write does to the properties other than [__proto__]. *)
Lemma get_write o k k' v :
  k' <> "__proto__" ->
  get (own (write unhooks o k v)) k' = if k =? k' then Some v else get (own o) k'.
Proof.
  intros N. unfold write.
  destruct ((k =? "__proto__") && setter o) eqn:E; cbn [own].
  - apply andb_true_iff in E. destruct E as [E _]. apply String.eqb_eq in E. subst k.
    destruct ("__proto__" =? k') eqn:E'; [|reflexivity].
    apply String.eqb_eq in E'. congruence.
  - apply get_define.
Qed.

Lemma get_define_all_cong (l : list (string * A)) (t t' : object A) k :
  get t k = get t' k -> get (define_all t l) k = get (define_all t' l) k.
Proof.
  revert t t'. induction l as [|[a v] l IH]; intros t t' E; [exact E|].
  change (define_all ?x ((a, v) :: l)) with (define_all (define x a v) l).
  apply IH. rewrite !get_define. now rewrite E.
Qed.

Lemma get_write_all (l : list (string * A)) o k :
  k <> "__proto__" ->
  get (own (write_all unhooks o l)) k = get (define_all (own o) l) k.
Proof.
  intros N. revert o. induction l as [|[a v] l IH]; intros o; [reflexivity|].
  change (write_all unhooks o ((a, v) :: l))
    with (write_all unhooks (write unhooks o a v) l).
  change (define_all (own o) ((a, v) :: l)) with (define_all (define (own o) a v) l).
  rewrite IH. apply get_define_all_cong. rewrite get_write by assumption.
  now rewrite get_define.
Qed.

Lemma write_all_plain (l : list (string * A)) o :
  ~ In "__proto__" (map fst l) ->
  write_all unhooks o l = mkPlain (define_all (own o) l) (setter o).
Proof.
  revert o. induction l as [|[a v] l IH]; intros o N.
  - now destruct o.
  - change (write_all unhooks o ((a, v) :: l))
      with (write_all unhooks (write unhooks o a v) l).
    rewrite write_plain by (intros ->; apply N; now left).
    rewrite IH by (intros I; apply N; now right). reflexivity.
Qed.

Lemma write_all_app (l l' : list (string * A)) o :
  write_all unhooks o (l ++ l')%list = write_all unhooks (write_all unhooks o l) l'.
Proof. unfold write_all. apply fold_left_app. Qed.

(** A sequence of writes with nothing to write leaves the object as
    it is; one that writes a key other than [__proto__] leaves an
    object with a property. *)
Lemma write_all_has (l : list (string * A)) o k :
  k <> "__proto__" -> In k (map fst l) -> own (write_all unhooks o l) <> [].
Proof.
  intros N I E.
  assert (get (own (write_all unhooks o l)) k = None) as G by now rewrite E.
  rewrite get_write_all in G by assumption.
  apply has_key_get in G.
  assert (In k (map fst (define_all (own o) l))) as K
    by (apply keys_define_all; now left).
  apply has_key_In in K. congruence.
Qed.

End Write.

(** While the setter is reached and no written value unhooks it, a
    write to [__proto__] leaves no trace among the own
    properties. *)
Lemma write_all_kept {A} (l : list (string * A)) (o : plain A) :
  setter o = true ->
  write_all (fun _ => false) o l
  = mkPlain
      (define_all (own o) (filter (fun p => negb (fst p =? "__proto__")) l)) true.
Proof.
  revert o. induction l as [|[a v] l IH]; intros o S.
  - destruct o as [t st]. cbn in S. now subst.
  - change (write_all (fun _ => false) o ((a, v) :: l))
      with (write_all (fun _ => false) (write (fun _ => false) o a v) l).
    cbn [filter fst]. unfold write at 1. rewrite S, andb_true_r.
    destruct (a =? "__proto__"); cbn [negb].
    + rewrite IH by reflexivity. reflexivity.
    + rewrite IH by reflexivity. reflexivity.
Qed.

(** [Object.assign] is a sequence of writes. *)
Lemma Object_assign_write_all (target : plain value) (source : value) :
  Object_assign target source
  = write_all unhooks_setter target (own_enumerable source).
Proof. reflexivity. Qed.

Lemma Object_assign_nothing (target : plain value) (source : value) :
  own_enumerable source = [] -> Object_assign target source = target.
Proof. intros E. rewrite Object_assign_write_all, E. reflexivity. Qed.

Lemma merged_write_all (vs : list value) (target : plain value) :
  fold_left Object_assign vs target
  = write_all unhooks_setter target (flat_map own_enumerable vs).
Proof.
  revert target. induction vs as [|v vs IH]; intros target; [reflexivity|].
  cbn [fold_left flat_map]. rewrite IH, write_all_app. reflexivity.
Qed.

Lemma N_to_string_inj (n m : N) : N_to_string n = N_to_string m -> n = m.
Proof.
  unfold N_to_string. intros E.
  apply DecimalN.Unsigned.to_uint_inj.
  assert (H : NilEmpty.uint_of_string (NilEmpty.string_of_uint (N.to_uint n))
              = NilEmpty.uint_of_string (NilEmpty.string_of_uint (N.to_uint m)))
    by now rewrite E.
  rewrite !NilEmpty.usu in H. now inversion H.
Qed.

Section Indexed.
Context {A : Type}.

Lemma indexed_keys_ge (l : list A) (i : N) (k : string) :
  In k (map fst (indexed i l)) -> exists m, k = N_to_string m /\ (i <= m)%N.
Proof.
  revert i; induction l as [|x l IH]; intros i; simpl; [tauto|].
  intros [<-|H].
  - exists i. split; [reflexivity | lia].
  - apply IH in H as (m & -> & Hm). exists m. split; [reflexivity | lia].
Qed.

Lemma indexed_NoDup (l : list A) (i : N) : NoDup (map fst (indexed i l)).
Proof.
  revert i; induction l as [|x l IH]; intros i; simpl; constructor.
  - intros H. apply indexed_keys_ge in H as (m & E & Hm).
    apply N_to_string_inj in E. lia.
  - apply IH.
Qed.

Lemma indexed_In (l : list A) (i : N) (j : nat) (x : A) :
  nth_error l j = Some x -> In (N_to_string (i + N.of_nat j), x) (indexed i l).
Proof.
  revert i j; induction l as [|y l IH]; intros i j; destruct j; simpl;
    try discriminate.
  - intros E; inversion E; subst. left. f_equal. f_equal. lia.
  - intros E. right.
    replace (i + N.pos (Pos.of_succ_nat j))%N with ((i + 1) + N.of_nat j)%N by lia.
    now apply IH.
Qed.
End Indexed.

Lemma chars_nth (s : string) (j : nat) (c : ascii) :
  String.get j s = Some c -> nth_error (chars s) j = Some (VStr (String c EmptyString)).
Proof.
  revert j; induction s as [|d s IH]; intros j; destruct j; simpl; try discriminate.
  - intros E; now inversion E.
  - apply IH.
Qed.

End ObjectFacts.

(** ** The input schema *)

Module SchemaClaims.
Import JsString JsValue Server Notions ObjectFacts.

(** The loop of [createToolFromOperation] computes the properties
    and the required list independently of each other. *)
Lemma schema_loop (params : list SwaggerParameter)
    (props : plain Property) (req : list string) :
  fold_left
    (fun (acc : plain Property * list string) param =>
       let '(properties, required) := acc in
       (write (fun _ => false) properties (param_name param)
          (mkProperty (mapSwaggerType (declaredType param))
             (or_else (param_description param) (param_name param ++ " parameter"))),
        if param_required param
        then (required ++ [param_name param])%list
        else required))
    params (props, req)
  = (write_all (fun _ => false) props
       (map (fun param => (param_name param, property_of param)) params),
     (req ++ map param_name (filter param_required params))%list).
Proof.
  revert props req. induction params as [|p ps IH]; intros props req; simpl.
  - now rewrite app_nil_r.
  - rewrite IH. f_equal. destruct (param_required p); simpl.
    + now rewrite <- app_assoc.
    + reflexivity.
Qed.

(** The properties of the schema are the writes under the names
    other than [__proto__]: written to an object made with [{}],
    [__proto__] sets the prototype and makes no property. *)
Lemma createTool_inputSchema (name method path : string) (operation : Operation) :
  inputSchema (createToolFromOperation name method path operation)
  = let params := match op_parameters operation with Some ps => ps | None => [] end in
    mkSchema "object"
      (define_all []
         (filter (fun p => negb (fst p =? "__proto__"))
            (map (fun param => (param_name param, property_of param)) params)))
      (map param_name (filter param_required params)).
Proof.
  unfold createToolFromOperation. rewrite schema_loop.
  rewrite write_all_kept by reflexivity. reflexivity.
Qed.




(** Scenario 3. *)
Example scenario_3 :
  inputSchema
    (createToolFromOperation "t" "get" "/pets"
       (mkOperation None None None
          (Some [mkParameter "limit" "query" (Some "integer") None None true])))
  = mkSchema "object" [("limit", mkProperty "number" "limit parameter")] ["limit"].
Proof. reflexivity. Qed.


(** A parameter named [__proto__] gets no property: the write sets
    the prototype of the properties object.  Its name still goes
    into the required list. *)
Example proto_parameter :
  inputSchema
    (createToolFromOperation "t" "get" "/pets"
       (mkOperation None None None
          (Some [mkParameter "__proto__" "query" (Some "integer") None None true;
                 mkParameter "x" "query" None None None false])))
  = mkSchema "object" [("x", mkProperty "string" "x parameter")] ["__proto__"].
Proof. reflexivity. Qed.

End SchemaClaims.

(** ** The request *)

Module RequestClaims.
Import JsString JsValue Server Notions ObjectFacts.

Lemma collect_loop (params : list SwaggerParameter) (args : object value)
    (q : plain fetched) (b : plain value) :
  fold_left
    (fun (acc : plain fetched * plain value) param =>
       let '(queryParams, bodyData) := acc in
       match fetch args (param_name param) with
       | None => acc
       | Some v =>
           if param_in param =? "query"
           then (write fetched_unhooks queryParams (param_name param) v, bodyData)
           else if param_in param =? "body"
           then (queryParams,
                 match v with
                 | Own source => Object_assign bodyData source
                 | Inherited _ => bodyData
                 end)
           else acc
       end)
    params (q, b)
  = (write_all fetched_unhooks q (query_entries params args),
     fold_left Object_assign (body_values params args) b).
Proof.
  revert q b; induction params as [|param params IH]; intros q b; [reflexivity|].
  cbn [fold_left]. unfold query_entries, body_values. cbn [flat_map].
  fold (query_entries params args). fold (body_values params args).
  destruct (fetch args (param_name param)) as [[v|inherited]|]; [| |apply IH].
  - destruct (param_in param =? "query").
    + rewrite IH. reflexivity.
    + destruct (param_in param =? "body"); rewrite IH; reflexivity.
  - destruct (param_in param =? "query").
    + rewrite IH. reflexivity.
    + destruct (param_in param =? "body"); rewrite IH; reflexivity.
Qed.

(** [queryParams] and [bodyData] in terms of the supplied values. *)
Lemma collectParams_eq (params : list SwaggerParameter) (args : object value) :
  collectParams params args
  = (write_all fetched_unhooks empty_plain (query_entries params args),
     fold_left Object_assign (body_values params args) empty_plain).
Proof. apply collect_loop. Qed.

Lemma merged_nothing (vs : list value) (b : plain value) :
  Forall (fun v => own_enumerable v = []) vs -> fold_left Object_assign vs b = b.
Proof.
  induction 1 as [|v vs E F IH]; [reflexivity|].
  cbn [fold_left]. now rewrite (Object_assign_nothing _ _ E).
Qed.

Lemma merged_fields_inv (vs : list value) (b : plain value) :
  own (fold_left Object_assign vs b) <> own b ->
  Exists (fun v => own_enumerable v <> []) vs.
Proof.
  revert b. induction vs as [|v vs IH]; intros b N; [now elim N|].
  destruct (own_enumerable v) eqn:E.
  - right. apply (IH b). cbn [fold_left] in N.
    now rewrite (Object_assign_nothing _ _ E) in N.
  - left. rewrite E. discriminate.
Qed.

Lemma merged_has_field (vs : list value) (b : plain value) :
  Exists (fun v => exists k, In k (Object_keys (own_enumerable v)) /\ k <> "__proto__") vs ->
  own (fold_left Object_assign vs b) <> [].
Proof.
  intros X. apply Exists_exists in X. destruct X as [v [I [k [K N]]]].
  rewrite merged_write_all. apply (write_all_has _ _ _ k N).
  unfold Object_keys in K. apply in_map_iff in K. destruct K as [p [<- K]].
  apply in_map. apply in_flat_map. now exists v.
Qed.

Lemma requestConfig_fields (tool : SwaggerTool) (url : string) (args : object value) :
  let rc := requestConfig tool url args in
  let queryParams :=
    write_all fetched_unhooks empty_plain (query_entries (tool_parameters tool) args) in
  let bodyData :=
    fold_left Object_assign (body_values (tool_parameters tool) args) empty_plain in
  rc_method rc = tool_method tool
  /\ rc_url rc = url
  /\ rc_params rc = own queryParams
  /\ match own bodyData with
     | [] => rc_data rc = None /\ rc_headers rc = None
     | _ :: _ =>
         rc_data rc = Some (own bodyData)
         /\ rc_headers rc = Some [("Content-Type", "application/json")]
     end.
Proof.
  intros rc queryParams bodyData. subst rc. unfold requestConfig.
  rewrite collectParams_eq. fold queryParams. fold bodyData.
  destruct (own bodyData); cbn; auto.
Qed.

(** C8.  The request built for a call carries the tool's method, the
    resolved URL and, always, the collected query mapping.  When the
    object merged from the supplied body parameters has a field it is
    the request's [data] and the headers are
    [Content-Type: application/json]; when it has none, the request
    has neither [data] nor [headers].  The merged object has a field
    only if some supplied body value has an own enumerable property,
    and it has one if some supplied body value has such a property
    under a key other than [__proto__].  Scenario 6: a body value
    [{name: "Fluffy"}] and no query parameter give a JSON body and
    an empty query mapping. *)
Theorem requestConfig_body_and_query :
  (forall (tool : SwaggerTool) (url : string) (args : object value),
     let rc := requestConfig tool url args in
     let queryParams :=
       write_all fetched_unhooks empty_plain (query_entries (tool_parameters tool) args) in
     let bodyData :=
       fold_left Object_assign (body_values (tool_parameters tool) args) empty_plain in
     collectParams (tool_parameters tool) args = (queryParams, bodyData)
     /\ rc_method rc = tool_method tool
     /\ rc_url rc = url
     /\ rc_params rc = own queryParams
     /\ match own bodyData with
        | [] => rc_data rc = None /\ rc_headers rc = None
        | _ :: _ =>
            rc_data rc = Some (own bodyData)
            /\ rc_headers rc = Some [("Content-Type", "application/json")]
        end
     /\ (own bodyData <> [] ->
         Exists (fun v => own_enumerable v <> [])
           (body_values (tool_parameters tool) args))
     /\ (Exists (fun v => exists k, In k (Object_keys (own_enumerable v))
                                    /\ k <> "__proto__")
           (body_values (tool_parameters tool) args) ->
         own bodyData <> []))
  /\ requestConfig
       (createToolFromOperation "addPet" "post" "/pet"
          (mkOperation None None None
             (Some [mkParameter "body" "body" None (Some "object") None true])))
       "https://petstore.swagger.io/v2/pet"
       [("body", VObj [("name", VStr "Fluffy")])]
     = mkRequest "POST" "https://petstore.swagger.io/v2/pet" []
         (Some [("name", VStr "Fluffy")])
         (Some [("Content-Type", "application/json")]).
Proof.
  split; [|reflexivity].
  intros tool url args rc queryParams bodyData.
  split; [apply collectParams_eq|].
  destruct (requestConfig_fields tool url args) as (M & U & Q & B).
  repeat (split; [assumption|]).
  split.
  - intros N. now apply (merged_fields_inv _ empty_plain).
  - apply merged_has_field.
Qed.

Lemma requestConfig_body_and_query_witness :
  let tool :=
    createToolFromOperation "addPet" "post" "/pet"
      (mkOperation None None None
         (Some [mkParameter "body" "body" None (Some "object") None true])) in
  let args := [("body", VObj [("name", VStr "Fluffy")])] in
  Exists (fun v => exists k, In k (Object_keys (own_enumerable v)) /\ k <> "__proto__")
    (body_values (tool_parameters tool) args)
  /\ own (fold_left Object_assign (body_values (tool_parameters tool) args) empty_plain)
     <> [].
Proof.
  intros tool args.
  assert (Exists (fun v => exists k, In k (Object_keys (own_enumerable v))
                                     /\ k <> "__proto__")
            (body_values (tool_parameters tool) args)) as X.
  { left. exists "name". split; [now left | discriminate]. }
  split; [exact X|].
  destruct requestConfig_body_and_query as [T _].
  exact (proj2 (proj2 (proj2 (proj2 (proj2 (proj2 (T tool "u" args)))))) X).
Defined.

(** A body value whose only field is [__proto__] makes no body:
    [Object.assign] writes the field with [[Set]], which sets the
    prototype of the merged object. *)
Example proto_body :
  requestConfig
    (createToolFromOperation "addPet" "post" "/pet"
       (mkOperation None None None
          (Some [mkParameter "body" "body" None (Some "object") None true])))
    "u" [("body", VObj [("__proto__", VObj [("name", VStr "Fluffy")])])]
  = mkRequest "POST" "u" [] None None.
Proof. reflexivity. Qed.

Lemma number_has_no_fields (target : plain value) (n : Z) :
  Object_assign target (VNum n) = target.
Proof. reflexivity. Qed.

Lemma boolean_has_no_fields (target : plain value) (b : bool) :
  Object_assign target (VBool b) = target.
Proof. reflexivity. Qed.

Lemma get_define_all_inv {A} (l : list (string * A)) (o : object A) (k : string) (v : A) :
  get (define_all o l) k = Some v -> In (k, v) l \/ get o k = Some v.
Proof.
  unfold define_all.
  revert o; induction l as [|[k0 v0] l IH]; intros o; simpl; [auto|].
  intros H. apply IH in H as [H|H]; [auto|].
  destruct (String.eqb_spec k k0) as [->|N].
  - rewrite get_define_same in H. inversion H; subst. auto.
  - rewrite get_define_other in H by assumption. auto.
Qed.

Lemma indexed_chars_inv (s : string) (i : N) (k : string) (v : value) :
  In (k, v) (indexed i (chars s)) ->
  exists j c, k = N_to_string (i + N.of_nat j)
              /\ String.get j s = Some c /\ v = VStr (String c EmptyString).
Proof.
  revert i; induction s as [|d s IH]; intros i; simpl; [tauto|].
  intros [E|H].
  - inversion E; subst. exists 0%nat, d. repeat split. f_equal. lia.
  - apply IH in H as (j & c & -> & G & ->). exists (S j), c. repeat split; auto.
    f_equal. lia.
Qed.

Lemma N_to_string_not_proto (m : N) : N_to_string m <> "__proto__".
Proof.
  unfold N_to_string. intros E.
  assert (NilEmpty.uint_of_string (NilEmpty.string_of_uint (N.to_uint m))
          = NilEmpty.uint_of_string "__proto__") as H by now rewrite E.
  rewrite NilEmpty.usu in H. discriminate.
Qed.

Lemma indexed_no_proto {A} (l : list A) (i : N) :
  ~ In "__proto__" (map fst (indexed i l)).
Proof.
  intros I. apply indexed_keys_ge in I. destruct I as [m [E _]].
  symmetry in E. now apply N_to_string_not_proto in E.
Qed.

(** A string merged into an object: one own property per
    character. *)
Lemma Object_assign_string (target : plain value) (s : string) :
  Object_assign target (VStr s)
  = mkPlain (define_all (own target) (indexed 0 (chars s))) (setter target).
Proof.
  rewrite Object_assign_write_all. apply write_all_plain. apply indexed_no_proto.
Qed.

Lemma query_entries_app (a b : list SwaggerParameter) (args : object value) :
  query_entries (a ++ b) args = (query_entries a args ++ query_entries b args)%list.
Proof. apply flat_map_app. Qed.

Lemma body_values_app (a b : list SwaggerParameter) (args : object value) :
  body_values (a ++ b) args = (body_values a args ++ body_values b args)%list.
Proof. apply flat_map_app. Qed.

Lemma fetch_own (args : object value) (k : string) (v : value) :
  get args k = Some v -> v <> VUndefined -> fetch args k = Some (Own v).
Proof.
  intros G N. unfold fetch. rewrite G. destruct v; congruence.
Qed.

(** What one supplied body parameter adds to the two lists. *)
Lemma body_parameter_entries (p : SwaggerParameter) (args : object value) (v : value) :
  param_in p = "body" ->
  fetch args (param_name p) = Some (Own v) ->
  query_entries [p] args = [] /\ body_values [p] args = [v].
Proof.
  intros B F. unfold query_entries, body_values. cbn [flat_map].
  rewrite F, B. split; reflexivity.
Qed.

Lemma no_body_values (l : list SwaggerParameter) (args : object value) :
  (forall q, In q l -> param_in q = "body" -> fetch args (param_name q) = None) ->
  body_values l args = [].
Proof.
  induction l as [|q l IH]; intros H; [reflexivity|].
  unfold body_values. cbn [flat_map]. fold (body_values l args).
  rewrite IH by (intros q' I; apply H; now right).
  destruct (fetch args (param_name q)) as [[v|inherited]|] eqn:F; try reflexivity.
  destruct (param_in q =? "query"); [reflexivity|].
  destruct (param_in q =? "body") eqn:B; [|reflexivity].
  apply String.eqb_eq in B. rewrite (H q (or_introl eq_refl) B) in F. discriminate.
Qed.

Lemma requestConfig_parameters (tool : SwaggerTool) (ps : list SwaggerParameter)
    (url : string) (args : object value) :
  collectParams (tool_parameters tool) args = collectParams ps args ->
  requestConfig tool url args = requestConfig (Pieces.with_parameters tool ps) url args.
Proof.
  intros C. unfold requestConfig, Pieces.with_parameters.
  cbn [tool_parameters tool_method]. now rewrite C.
Qed.

(** C10.  [Object.assign] copies own enumerable properties, not the
    value.  A number or a boolean supplied for a body parameter adds
    nothing: the request is the one built without that parameter,
    and a request whose supplied body values are all numbers or
    booleans has no body and no content-type header.  A string is
    not the body either: supplied for the last supplied body
    parameter, a string that is not empty gives a body that holds
    each of its characters under its index; supplied for the only
    supplied body parameter, the body holds nothing else (so an
    empty string gives no body). *)
Theorem body_merge_of_primitives :
  (forall (target : plain value) (n : Z), Object_assign target (VNum n) = target)
  /\ (forall (target : plain value) (b : bool), Object_assign target (VBool b) = target)
  /\ (forall (tool : SwaggerTool) (url : string) (args : object value)
             (before after : list SwaggerParameter) (p : SwaggerParameter) (v : value),
        tool_parameters tool = (before ++ p :: after)%list ->
        param_in p = "body" ->
        get args (param_name p) = Some v ->
        (exists n, v = VNum n) \/ (exists b, v = VBool b) ->
        requestConfig tool url args
        = requestConfig (Pieces.with_parameters tool (before ++ after)%list) url args)
  /\ (forall (tool : SwaggerTool) (url : string) (args : object value),
        Forall (fun v => (exists n, v = VNum n) \/ (exists b, v = VBool b))
          (body_values (tool_parameters tool) args) ->
        rc_data (requestConfig tool url args) = None
        /\ rc_headers (requestConfig tool url args) = None)
  /\ (forall (tool : SwaggerTool) (url : string) (args : object value)
             (before after : list SwaggerParameter) (p : SwaggerParameter)
             (c0 : ascii) (s0 : string),
        tool_parameters tool = (before ++ p :: after)%list ->
        param_in p = "body" ->
        get args (param_name p) = Some (VStr (String c0 s0)) ->
        (forall q, In q after -> param_in q = "body" ->
                   fetch args (param_name q) = None) ->
        exists body,
          rc_data (requestConfig tool url args) = Some body
          /\ rc_headers (requestConfig tool url args)
             = Some [("Content-Type", "application/json")]
          /\ (forall j c, String.get j (String c0 s0) = Some c ->
                get body (N_to_string (N.of_nat j))
                = Some (VStr (String c EmptyString))))
  /\ (forall (tool : SwaggerTool) (url : string) (args : object value)
             (before after : list SwaggerParameter) (p : SwaggerParameter) (s : string),
        tool_parameters tool = (before ++ p :: after)%list ->
        param_in p = "body" ->
        get args (param_name p) = Some (VStr s) ->
        (forall q, In q (before ++ after)%list -> param_in q = "body" ->
                   fetch args (param_name q) = None) ->
        match s with
        | EmptyString =>
            rc_data (requestConfig tool url args) = None
            /\ rc_headers (requestConfig tool url args) = None
        | String _ _ =>
            exists body,
              rc_data (requestConfig tool url args) = Some body
              /\ rc_headers (requestConfig tool url args)
                 = Some [("Content-Type", "application/json")]
              /\ (forall j c, String.get j s = Some c ->
                    get body (N_to_string (N.of_nat j))
                    = Some (VStr (String c EmptyString)))
              /\ (forall k v, get body k = Some v ->
                    exists j c, k = N_to_string (N.of_nat j)
                                /\ String.get j s = Some c
                                /\ v = VStr (String c EmptyString))
        end).
Proof.
  split; [reflexivity|]. split; [reflexivity|]. split; [|split; [|split]].
  - intros tool url args before after p v T B G V.
    apply requestConfig_parameters. rewrite T, !collectParams_eq.
    assert (fetch args (param_name p) = Some (Own v)) as F.
    { apply fetch_own; [assumption|]. destruct V as [[n ->]|[b ->]]; discriminate. }
    destruct (body_parameter_entries p args v B F) as [Q Bv].
    change (before ++ p :: after)%list with (before ++ [p] ++ after)%list.
    rewrite !query_entries_app, !body_values_app, Q, Bv. cbn [app].
    f_equal. rewrite !fold_left_app. cbn [fold_left].
    destruct V as [[n ->]|[b ->]]; reflexivity.
  - intros tool url args F.
    destruct (requestConfig_fields tool url args) as (_ & _ & _ & B).
    rewrite merged_nothing in B.
    + exact B.
    + eapply Forall_impl; [|exact F].
      intros v [[n ->]|[b ->]]; reflexivity.
  - intros tool url args before after p c0 s0 T B G U.
    destruct (requestConfig_fields tool url args) as (_ & _ & _ & D).
    assert (fetch args (param_name p) = Some (Own (VStr (String c0 s0)))) as F
      by (apply fetch_own; [assumption | discriminate]).
    assert (body_values (tool_parameters tool) args
            = (body_values before args ++ [VStr (String c0 s0)])%list) as Bv.
    { rewrite T. change (before ++ p :: after)%list with (before ++ [p] ++ after)%list.
      rewrite !body_values_app, (no_body_values after) by exact U.
      destruct (body_parameter_entries p args _ B F) as [_ ->]. reflexivity. }
    rewrite Bv, fold_left_app in D. cbn [fold_left] in D.
    rewrite Object_assign_string in D. cbn [own] in D.
    set (merged := fold_left Object_assign (body_values before args) empty_plain) in D.
    destruct (define_all (own merged) (indexed 0 (chars (String c0 s0))))
      as [|x b] eqn:E.
    { apply define_all_nil_iff in E. destruct E as [_ E]. discriminate. }
    destruct D as [D H]. exists (x :: b). split; [exact D|]. split; [exact H|].
    intros j c Gj. rewrite <- E. apply get_define_all.
    + apply indexed_NoDup.
    + apply (indexed_In (chars (String c0 s0)) 0 j). now apply chars_nth.
  - intros tool url args before after p s T B G U.
    destruct (requestConfig_fields tool url args) as (_ & _ & _ & D).
    assert (fetch args (param_name p) = Some (Own (VStr s))) as F
      by (apply fetch_own; [assumption | discriminate]).
    assert (body_values (tool_parameters tool) args = [VStr s]) as Bv.
    { rewrite T. change (before ++ p :: after)%list with (before ++ [p] ++ after)%list.
      rewrite !body_values_app.
      rewrite (no_body_values before), (no_body_values after).
      - now destruct (body_parameter_entries p args _ B F) as [_ ->].
      - intros q I. apply U. apply in_or_app. now right.
      - intros q I. apply U. apply in_or_app. now left. }
    rewrite Bv in D. cbn [fold_left] in D.
    rewrite Object_assign_string in D. cbn [own empty_plain] in D.
    destruct s as [|c0 s0]; [exact D|].
    destruct (define_all [] (indexed 0 (chars (String c0 s0)))) as [|x b] eqn:E.
    { apply define_all_nil_iff in E. destruct E as [_ E]. discriminate. }
    destruct D as [D H]. exists (x :: b). rewrite <- E.
    split; [now rewrite E|]. split; [exact H|]. split.
    + intros j c Gj. apply get_define_all.
      * apply indexed_NoDup.
      * apply (indexed_In (chars (String c0 s0)) 0 j). now apply chars_nth.
    + intros k v Gk. apply get_define_all_inv in Gk as [Gk|Gk]; [|discriminate].
      now apply (indexed_chars_inv _ 0).
Qed.

Lemma body_merge_of_primitives_witness :
  let body := mkParameter "body" "body" None (Some "object") None true in
  let tool :=
    createToolFromOperation "addPet" "post" "/pet"
      (mkOperation None None None (Some [body])) in
  tool_parameters tool = ([] ++ body :: [])%list
  /\ param_in body = "body"
  /\ get [("body", VNum 5)] (param_name body) = Some (VNum 5)
  /\ requestConfig tool "u" [("body", VNum 5)]
     = requestConfig (Pieces.with_parameters tool ([] ++ [])%list) "u" [("body", VNum 5)]
  /\ Forall (fun v => (exists n, v = VNum n) \/ (exists b, v = VBool b))
       (body_values (tool_parameters tool) [("body", VNum 5)])
  /\ rc_data (requestConfig tool "u" [("body", VNum 5)]) = None
  /\ rc_headers (requestConfig tool "u" [("body", VNum 5)]) = None
  /\ get [("body", VStr "ab")] (param_name body) = Some (VStr "ab")
  /\ exists data,
       rc_data (requestConfig tool "u" [("body", VStr "ab")]) = Some data
       /\ rc_headers (requestConfig tool "u" [("body", VStr "ab")])
          = Some [("Content-Type", "application/json")]
       /\ (forall j c, String.get j "ab" = Some c ->
             get data (N_to_string (N.of_nat j)) = Some (VStr (String c EmptyString)))
       /\ (forall k v, get data k = Some v ->
             exists j c, k = N_to_string (N.of_nat j)
                         /\ String.get j "ab" = Some c
                         /\ v = VStr (String c EmptyString)).
Proof.
  intros body tool.
  assert (F : Forall (fun v => (exists n, v = VNum n) \/ (exists b, v = VBool b))
                (body_values (tool_parameters tool) [("body", VNum 5)])).
  { constructor; [left; now exists 5%Z | constructor]. }
  destruct body_merge_of_primitives as (_ & _ & N & P & _ & S).
  split; [reflexivity|]. split; [reflexivity|]. split; [reflexivity|].
  split.
  { apply (N tool "u" [("body", VNum 5)] [] [] body (VNum 5));
      [reflexivity | reflexivity | reflexivity | left; now exists 5%Z]. }
  split; [exact F|].
  destruct (P tool "u" [("body", VNum 5)] F) as [D H].
  split; [exact D|]. split; [exact H|]. split; [reflexivity|].
  apply (S tool "u" [("body", VStr "ab")] [] [] body "ab");
    [reflexivity | reflexivity | reflexivity | intros q []].
Defined.

(** A string supplied for a body parameter is spread into one field
    per character. *)
Example string_body :
  requestConfig
    (createToolFromOperation "addPet" "post" "/pet"
       (mkOperation None None None
          (Some [mkParameter "body" "body" None (Some "object") None true])))
    "u" [("body", VStr "ab")]
  = mkRequest "POST" "u" []
      (Some [("0", VStr "a"); ("1", VStr "b")])
      (Some [("Content-Type", "application/json")]).
Proof. reflexivity. Qed.

(** [args[param.name]] looks through the prototype: for the
    arguments [{}] a query parameter named [constructor] is sent,
    with the function every object inherits under that name. *)
Example inherited_query_parameter :
  requestConfig
    (createToolFromOperation "find" "get" "/pets"
       (mkOperation None None None
          (Some [mkParameter "constructor" "query" None None None false;
                 mkParameter "limit" "query" None None None false])))
    "u" []
  = mkRequest "GET" "u" [("constructor", Inherited "constructor")] None None.
Proof. reflexivity. Qed.

End RequestClaims.

(** ** The invocation proxy *)

Module ProxyClaims.
Import JsString JsValue Whatwg Server Notions.

(** C4.  [callApiTool] always completes normally.  When the URL is
    built and the HTTP client answers, the result is the response
    payload, pretty-printed, as text content without error flag.
    When the HTTP exchange fails (or the URL cannot be built) the
    result is the text ["Error calling <tool name>: <detail>"]
    flagged [isError = true], where the detail is
    ["HTTP <status>: <payload>"] if the failure carries a response
    and the failure's message otherwise. *)
Theorem callApiTool_never_throws `{Platform} `{AxiosInstance}
    (this : SwaggerMCPServer) (tool : SwaggerTool) (args : object value) :
  (exists result, callApiTool this tool args = Normal result)
  /\ (forall url resp,
        buildUrl this (tool_path tool) args = Normal url ->
        request (requestConfig tool url args) = Normal resp ->
        callApiTool this tool args = Normal (success_result (data resp)))
  /\ (forall url error,
        buildUrl this (tool_path tool) args = Normal url ->
        request (requestConfig tool url args) = Throw error ->
        callApiTool this tool args = Normal (error_result tool error))
  /\ (forall error,
        buildUrl this (tool_path tool) args = Throw error ->
        callApiTool this tool args = Normal (error_result tool error)).
Proof.
  unfold callApiTool.
  destruct (buildUrl this (tool_path tool) args) as [url|e] eqn:B; cbn.
  - destruct (request (requestConfig tool url args)) as [resp|e] eqn:R; cbn.
    + split; [eauto|]. split; [|split].
      * intros url' resp' E. inversion E; subst. rewrite R.
        intros E'. now inversion E'.
      * intros url' e E. inversion E; subst. rewrite R. discriminate.
      * discriminate.
    + split; [eauto|]. split; [|split].
      * intros url' resp' E. inversion E; subst. rewrite R. discriminate.
      * intros url' e' E. inversion E; subst. rewrite R.
        intros E'. now inversion E'.
      * discriminate.
  - split; [eauto|]. split; [|split]; try discriminate.
    intros e' E. now inversion E.
Qed.

Lemma callApiTool_never_throws_witness :
  let this :=
    mkServer (mkConfig None None None (Some "https://api.example.com/api") false None)
      None [] in
  let tool := createToolFromOperation "getX" "get" "/v1/x" (mkOperation None None None None) in
  let failure := mkThrown (Some (mkResponse 404 (VStr "gone"))) "Request failed" in
  let client := constant_client (Throw failure) in
  @buildUrl basic_platform this (tool_path tool) [] = Normal "https://api.example.com/api/v1/x"
  /\ @request client (requestConfig tool "https://api.example.com/api/v1/x" [])
     = Throw failure
  /\ @callApiTool basic_platform client this tool []
     = Normal (error_result tool failure).
Proof.
  intros this tool failure client.
  split; [reflexivity|]. split; [reflexivity|].
  exact (proj1 (proj2 (proj2 (@callApiTool_never_throws basic_platform client this tool [])))
           "https://api.example.com/api/v1/x" failure eq_refl eq_refl).
Defined.

(** The three outcomes on one tool. *)
Example proxy_success :
  @callApiTool basic_platform
    (constant_client (Normal (mkResponse 200 (VObj [("ok", VBool true)]))))
    (mkServer (mkConfig None None None (Some "https://api.example.com/api") false None)
       None [])
    (createToolFromOperation "getX" "get" "/v1/x" (mkOperation None None None None)) []
  = Normal
      (mkResult
         [mkContent "text"
            (Some ("{" ++ newline ++ "  " ++ String dquote "ok" ++ String dquote ": true"
                   ++ newline ++ "}"))]
         None).
Proof. reflexivity. Qed.

Example proxy_http_error :
  @callApiTool basic_platform
    (constant_client (Throw (mkThrown (Some (mkResponse 404 (VNum 0))) "Request failed")))
    (mkServer (mkConfig None None None (Some "https://api.example.com/api") false None)
       None [])
    (createToolFromOperation "getX" "get" "/v1/x" (mkOperation None None None None)) []
  = Normal
      (mkResult [mkContent "text" (Some "Error calling getX: HTTP 404: 0")] (Some true)).
Proof. reflexivity. Qed.

Example proxy_no_document :
  @callApiTool basic_platform
    (constant_client (Normal (mkResponse 200 VNull)))
    (mkServer (mkConfig None None None None false None) None [])
    (createToolFromOperation "getX" "get" "/v1/x" (mkOperation None None None None)) []
  = Normal
      (mkResult
         [mkContent "text" (Some "Error calling getX: No swagger document loaded")]
         (Some true)).
Proof. reflexivity. Qed.

End ProxyClaims.

(** ** Path templates *)

Module TemplateFacts.
Import JsString JsValue Server Notions Template StringFacts.


Lemma brace_free_cons (c : ascii) (s : string) :
  brace_free (String c s) = true ->
  Ascii.eqb c "{" = false /\ Ascii.eqb c "}" = false /\ brace_free s = true.
Proof.
  unfold brace_free, is_brace. cbn [forallb_chars]. intros H.
  apply andb_true_iff in H as [H1 H2].
  apply negb_true_iff, orb_false_iff in H1. tauto.
Qed.

Lemma brace_free_append (a b : string) :
  brace_free (a ++ b) = brace_free a && brace_free b.
Proof. apply forallb_chars_append. Qed.









Lemma placeholders_scan (s : string) (names : list string) :
  placeholders s = Some names <-> scan Outside s = Some (Outside, names).
Proof.
  unfold placeholders.
  destruct (scan Outside s) as [[[|n] ns]|]; split; intros E;
    try discriminate; now inversion E.
Qed.




Lemma encodeURIComponent_brace_free (s : string) :
  brace_free (encodeURIComponent s) = true.
Proof.
  eapply forallb_chars_impl; [|apply encodeURIComponent_alphabet].
  intros c H. apply uri_output_char_plain in H.
  apply andb_true_iff in H as [H H3]. apply andb_true_iff in H as [_ H2].
  unfold is_brace. apply negb_true_iff in H2, H3. now rewrite H2, H3.
Qed.

End TemplateFacts.

(** ** The URL class *)

Module UrlFacts.
Import JsString Whatwg Notions Template StringFacts TemplateFacts.

Local Abbreviation all_brace_free := (Forall (fun seg => brace_free seg = true)).


Lemma removelast_In {A} (l : list A) (x : A) : In x (removelast l) -> In x l.
Proof.
  induction l as [|y l IH]; [tauto|].
  destruct l as [|z l]; [intros []|].
  intros [->|H]; [now left | right; now apply IH].
Qed.

Lemma shorten_In (sch : string) (p : list string) (x : string) :
  In x (shorten sch p) -> In x p.
Proof.
  unfold shorten. destruct p as [|d [|e p]].
  - tauto.
  - destruct (_ && _); [tauto | intros []].
  - apply removelast_In.
Qed.










End UrlFacts.

(** ** Path substitution *)

Module SubstituteFacts.
Import JsString JsValue Whatwg Server Notions Template.
Import StringFacts TemplateFacts UrlFacts.

Lemma substitute_fold (path : string) (args : object value) :
  substitute path args = fold_left (substitute_key args) (Object_keys args) path.
Proof. reflexivity. Qed.









End SubstituteFacts.

(** ** Joining the base URL and the request path *)

Module ComposeFacts.
Import JsString JsValue Whatwg Server Notions StringFacts.

Local Abbreviation all_normal sch := (Forall (fun seg => normal_segment sch seg = true)).

Lemma filter_chars_id (p : ascii -> bool) (s : string) :
  forallb_chars p s = true -> filter_chars p s = s.
Proof.
  induction s as [|c s IH]; [reflexivity|]. cbn [forallb_chars filter_chars].
  intros H. apply andb_true_iff in H as [H1 H2]. now rewrite H1, IH.
Qed.

Lemma serialize_segments_app (p q : list string) :
  serialize_segments (p ++ q) = serialize_segments p ++ serialize_segments q.
Proof.
  induction p as [|s p IH]; [reflexivity|].
  cbn [serialize_segments app]. now rewrite IH, !append_assoc.
Qed.

Lemma serialize_segments_snoc (p : list string) (seg : string) :
  serialize_segments (p ++ [seg]) = serialize_segments p ++ "/" ++ seg.
Proof.
  rewrite serialize_segments_app. cbn [serialize_segments].
  now rewrite append_nil_r.
Qed.

Lemma serialize_closed (segs : list string) :
  serialize_segments segs ++ "/" = "/" ++ closed_segments segs.
Proof.
  induction segs as [|s segs IH]; [reflexivity|].
  cbn [serialize_segments closed_segments].
  rewrite !append_assoc, IH. reflexivity.
Qed.

Lemma flush_kept (sch : string) (at_sep : bool) (p : list string) (buf : string) :
  kept_segment sch buf = true -> flush sch at_sep p buf = (p ++ [buf])%list.
Proof.
  unfold kept_segment, flush. intros H.
  apply andb_true_iff in H as [H H3]. apply andb_true_iff in H as [H1 H2].
  apply negb_true_iff in H1, H2, H3. rewrite H1, H2.
  destruct p as [|x p]; [|reflexivity].
  destruct buf as [|a [|b [|c buf]]]; try reflexivity.
  now rewrite H3.
Qed.

Lemma flush_normal (sch : string) (p : list string) (seg : string) :
  normal_segment sch seg = true -> flush sch true p seg = (p ++ [seg])%list.
Proof.
  unfold normal_segment, flush. intros H.
  apply andb_true_iff in H as [H H4]. apply andb_true_iff in H as [H H3].
  apply andb_true_iff in H as [_ H2].
  apply negb_true_iff in H2, H3, H4. rewrite H2, H3.
  destruct p as [|x p]; [|reflexivity].
  destruct seg as [|a [|b [|c seg]]]; try reflexivity.
  destruct ((sch =? "file") && is_windows_drive_letter (String a (String b EmptyString))) eqn:W;
    [|reflexivity].
  cbn [andb] in H4. apply negb_false_iff in H4.
  unfold is_normalized_drive_letter in H4. apply andb_true_iff in H4 as [_ H4].
  apply Ascii.eqb_eq in H4. now subst b.
Qed.

(** Input the path state only percent-encodes. *)
Lemma plain_serialize (sch rest : string) (p : list string) (buf : string) :
  plain_from sch rest buf = true ->
  serialize_segments (path_state sch rest p buf)
  = serialize_segments p ++ "/" ++ buf ++ encode_segments sch rest.
Proof.
  revert p buf; induction rest as [|c r IH]; intros p buf; cbn [plain_from path_state].
  - intros K. rewrite (flush_kept _ _ _ _ K), serialize_segments_snoc.
    cbn. now rewrite append_nil_r.
  - unfold encode_segments. cbn [flat_map_chars]. fold (encode_segments sch r).
    destruct (is_separator sch c) eqn:S; intros H.
    + apply andb_true_iff in H as [H1 H2].
      rewrite (flush_kept _ _ _ _ H1), (IH _ _ H2), serialize_segments_snoc.
      cbn [append]. now rewrite !append_assoc.
    + rewrite (IH _ _ H). now rewrite !append_assoc.
Qed.

Lemma filter_chars_append (p : ascii -> bool) (a b : string) :
  filter_chars p (a ++ b) = filter_chars p a ++ filter_chars p b.
Proof.
  induction a as [|c a IH]; [reflexivity|]. cbn [append filter_chars].
  rewrite IH. now destruct (p c).
Qed.

Lemma path_set_has_tab_newline (c : ascii) :
  in_path_set c = false -> is_tab_or_newline c = false.
Proof. destruct c as [[] [] [] [] [] [] [] []]; vm_compute; congruence. Qed.

Lemma path_state_normal_chars (sch s r : string) (p : list string) (buf : string) :
  forallb_chars (fun c => negb (is_separator sch c) && negb (in_path_set c)) s = true ->
  path_state sch (s ++ r) p buf = path_state sch r p (buf ++ s).
Proof.
  revert buf; induction s as [|c s IH]; intros buf.
  - intros _. cbn [append]. now rewrite append_nil_r.
  - cbn [forallb_chars append path_state]. intros H.
    apply andb_true_iff in H as [H H'].
    apply andb_true_iff in H as [H1 H2]. apply negb_true_iff in H1, H2.
    rewrite H1. unfold pct_encode. rewrite H2, (IH _ H').
    now rewrite append_assoc.
Qed.

Lemma normal_segment_chars (sch seg : string) :
  normal_segment sch seg = true ->
  forallb_chars (fun c => negb (is_separator sch c) && negb (in_path_set c)) seg = true.
Proof.
  unfold normal_segment. intros H.
  apply andb_true_iff in H as [H _]. apply andb_true_iff in H as [H _].
  now apply andb_true_iff in H as [H _].
Qed.

Lemma is_separator_slash (sch : string) : is_separator sch "/" = true.
Proof. reflexivity. Qed.

(** The path state reads normal segments back as they are. *)
Lemma path_state_closed (sch : string) (segs : list string) (r : string) (p : list string) :
  all_normal sch segs ->
  path_state sch (closed_segments segs ++ r) p EmptyString
  = path_state sch r (p ++ segs) EmptyString.
Proof.
  intros F; revert p; induction F as [|seg segs N _ IH]; intros p.
  - cbn. now rewrite app_nil_r.
  - cbn [closed_segments]. rewrite !append_assoc.
    rewrite path_state_normal_chars by now apply normal_segment_chars.
    cbn [append path_state]. rewrite is_separator_slash.
    rewrite (flush_normal _ _ _ N), IH, <- app_assoc. reflexivity.
Qed.

Lemma substring_last (a : string) (c : ascii) :
  substring (String.length a) 1 (a ++ String c EmptyString) = String c EmptyString.
Proof. induction a as [|x a IH]; [reflexivity | exact IH]. Qed.

Lemma endsWith_snoc (a : string) (c : ascii) :
  endsWith (a ++ String c EmptyString) "/" = Ascii.eqb c "/".
Proof.
  unfold endsWith. rewrite length_append. cbn [String.length].
  rewrite Nat.add_sub, substring_last.
  replace (1 <=? String.length a + 1)%nat with true
    by (symmetry; apply Nat.leb_le; lia).
  cbn. now destruct (Ascii.eqb c "/").
Qed.

Lemma string_snoc_cases (s : string) :
  s = EmptyString \/ exists a c, s = a ++ String c EmptyString.
Proof.
  induction s as [|x s IH]; [now left|]. right.
  destruct IH as [->|(a & c & ->)].
  - exists EmptyString, x. reflexivity.
  - exists (String x a), c. reflexivity.
Qed.

Lemma list_snoc_cases {A} (l : list A) :
  l = [] \/ exists init x, l = (init ++ [x])%list.
Proof.
  induction l as [|x init _] using rev_ind; [now left | right; eauto].
Qed.

(** [basePath] of [buildUrl] is the base URL's segments, each
    closed by a slash, except for a last empty segment. *)
Lemma closed_base_path_shape (u : URL) (segs : list string) :
  path u = Segments segs ->
  all_normal (scheme u) segs ->
  exists base,
    all_normal (scheme u) base
    /\ closed_base_path u = "/" ++ closed_segments base.
Proof.
  intros E F. unfold closed_base_path, pathname. rewrite E.
  destruct (list_snoc_cases segs) as [->|(init & seg & ->)].
  - exists []. split; [constructor | reflexivity].
  - apply Forall_app in F as [Fi Fs]. inversion Fs as [|? ? N _]; subst.
    rewrite serialize_segments_snoc.
    destruct (string_snoc_cases seg) as [->|(a & c & ->)].
    + exists init. split; [exact Fi|].
      change ("/" ++ EmptyString) with (String "/" EmptyString).
      rewrite endsWith_snoc. cbn [Ascii.eqb Bool.eqb]. cbv iota.
      change (String "/" EmptyString) with ("/" ++ EmptyString) at 1.
      apply serialize_closed.
    + exists (init ++ [(a ++ String c EmptyString)%string])%list. split.
      * apply Forall_app. split; [exact Fi | now constructor].
      * rewrite <- (serialize_segments_snoc init (a ++ String c EmptyString)).
        assert (S : Ascii.eqb c "/" = false).
        { apply normal_segment_chars in N. rewrite forallb_chars_append in N.
          apply andb_true_iff in N as [_ N]. cbn [forallb_chars] in N.
          rewrite andb_true_r in N. apply andb_true_iff in N as [N _].
          apply negb_true_iff in N. unfold is_separator in N.
          now apply orb_false_iff in N as [N _]. }
        rewrite serialize_segments_snoc at 1.
        replace (serialize_segments init ++ "/" ++ a ++ String c EmptyString)
          with ((serialize_segments init ++ "/" ++ a) ++ String c EmptyString)
          by now rewrite !append_assoc.
        rewrite endsWith_snoc, S. apply serialize_closed.
Qed.

Lemma closed_segments_no_tab (sch : string) (base : list string) :
  all_normal sch base ->
  strip_tabs_newlines (closed_segments base) = closed_segments base.
Proof.
  intros Fb. apply filter_chars_id.
  induction Fb as [|seg base N _ IH]; [reflexivity|].
  cbn [closed_segments]. rewrite !forallb_chars_append, IH.
  cbn [forallb_chars]. change (negb (is_tab_or_newline "/")) with true.
  rewrite !andb_true_r. apply normal_segment_chars in N.
  eapply forallb_chars_impl; [|exact N].
  intros c H. apply andb_true_iff in H as [_ H]. apply negb_true_iff in H.
  now rewrite (path_set_has_tab_newline c H).
Qed.

(** The [pathname] setter, given [basePath + cleanPath] for a request
    path without dot segments, yields exactly that text,
    percent-encoded. *)
Lemma set_pathname_appends (u : URL) (segs : list string) (rest : string) :
  path u = Segments segs ->
  all_normal (scheme u) segs ->
  plain_path (scheme u) rest = true ->
  pathname (set_pathname u (closed_base_path u ++ rest))
  = closed_base_path u ++ encode_path_text (scheme u) rest.
Proof.
  intros E F P.
  destruct (closed_base_path_shape u segs E F) as (base & Fb & C).
  unfold set_pathname. rewrite E. unfold pathname. cbn [with_path path].
  fold (strip_tabs_newlines (closed_base_path u ++ rest)).
  unfold strip_tabs_newlines at 1. rewrite filter_chars_append.
  fold (strip_tabs_newlines (closed_base_path u)). fold (strip_tabs_newlines rest).
  rewrite C at 1.
  replace (strip_tabs_newlines ("/" ++ closed_segments base))
    with ("/" ++ closed_segments base)
    by (change (strip_tabs_newlines ("/" ++ closed_segments base))
          with ("/" ++ strip_tabs_newlines (closed_segments base));
        now rewrite (closed_segments_no_tab (scheme u) base Fb)).
  assert (S : path_start_state (scheme u)
                match host u with Some _ => false | None => true end
                (("/" ++ closed_segments base) ++ strip_tabs_newlines rest)
              = path_state (scheme u) (closed_segments base ++ strip_tabs_newlines rest)
                  [] EmptyString).
  { unfold path_start_state. cbn [append]. rewrite is_separator_slash.
    cbn [Ascii.eqb Bool.eqb]. now destruct (is_special (scheme u)). }
  rewrite S, (path_state_closed _ _ _ _ Fb). cbn [app].
  unfold plain_path in P. rewrite (plain_serialize _ _ _ _ P). cbn [append].
  change (String "/" (encode_segments (scheme u) (strip_tabs_newlines rest)))
    with ("/" ++ encode_path_text (scheme u) rest).
  rewrite <- append_assoc, serialize_closed, <- C. reflexivity.
Qed.

(** *** The basic parser leaves normal paths *)

Local Abbreviation clean_text sch :=
  (forallb_chars (fun c => negb (is_separator sch c) && negb (in_path_set c))).

Lemma pct_encode_path_clean (sch : string) (c : ascii) :
  is_separator sch c = false ->
  clean_text sch (pct_encode in_path_set c) = true.
Proof.
  unfold is_separator.
  destruct (is_special sch); destruct c as [[] [] [] [] [] [] [] []];
    vm_compute; congruence.
Qed.

Lemma normal_segment_empty (sch : string) : normal_segment sch EmptyString = true.
Proof. unfold normal_segment. now destruct (sch =? "file"). Qed.

Lemma flush_normal_segments (sch : string) (at_sep : bool) (p : list string)
    (buf : string) :
  (sch =? "file") = false ->
  all_normal sch p ->
  clean_text sch buf = true ->
  all_normal sch (flush sch at_sep p buf).
Proof.
  intros NF Hp Hb. unfold flush.
  assert (Hs : all_normal sch (shorten sch p)).
  { apply Forall_forall. intros x Hx. apply UrlFacts.shorten_In in Hx.
    revert x Hx. now apply Forall_forall. }
  assert (He : all_normal sch [EmptyString])
    by (constructor; [apply normal_segment_empty | constructor]).
  destruct (is_double_dot buf) eqn:D2.
  { destruct at_sep; [exact Hs | apply Forall_app; now split]. }
  destruct (is_single_dot buf) eqn:D1.
  { destruct at_sep; [exact Hp | apply Forall_app; now split]. }
  rewrite NF. cbn [andb].
  apply Forall_app. split; [exact Hp|].
  constructor; [|constructor].
  assert (N : normal_segment sch buf = true)
    by (unfold normal_segment; now rewrite Hb, D1, D2, NF).
  destruct p as [|x p]; [|exact N].
  destruct buf as [|a [|b [|c buf]]]; exact N.
Qed.

Lemma path_state_normal_segments (sch input : string) (p : list string) (buf : string) :
  (sch =? "file") = false ->
  all_normal sch p ->
  clean_text sch buf = true ->
  all_normal sch (path_state sch input p buf).
Proof.
  intros NF. revert p buf; induction input as [|c r IH]; intros p buf Hp Hb;
    cbn [path_state].
  - now apply flush_normal_segments.
  - destruct (is_separator sch c) eqn:S.
    + apply IH; [now apply flush_normal_segments | reflexivity].
    + apply IH; [exact Hp|].
      now rewrite forallb_chars_append, Hb, pct_encode_path_clean.
Qed.

(** Every URL the basic parser accepts has a path of normal
    segments. *)
Lemma URL_basic_normal (input : string) (u : URL) :
  URL_basic input None = Some u ->
  exists segs, path u = Segments segs /\ all_normal (scheme u) segs.
Proof.
  unfold URL_basic, URL_basic_absolute.
  destruct (negb _); [discriminate|].
  destruct (split_first "://" input) as [[sch0 rest]|]; [|discriminate].
  destruct (String.eqb_spec (ascii_lower sch0) "http") as [E1|N1];
    [|destruct (String.eqb_spec (ascii_lower sch0) "https") as [E2|N2]];
    cbn [orb negb]; try discriminate.
  all: destruct (break_at _ rest) as [authority after];
    destruct (negb _); [discriminate|];
    destruct (break_at _ authority) as [h p];
    destruct (basic_host h) as [h'|]; [|discriminate];
    destruct (basic_port _ _) as [port'|]; [|discriminate];
    destruct (break_at _ after) as [path_text after_path];
    destruct (break_at _ after_path) as [query_text frag_text];
    intros E; inversion E; subst u; cbn [path scheme];
    eexists; split; [reflexivity|];
    apply path_state_normal_segments;
    [ first [rewrite E1 | rewrite E2]; reflexivity | constructor | reflexivity ].
Qed.

(** [buildUrl] on a substituted path that starts with a slash. *)
Lemma buildUrl_absolute `{Platform} (this : SwaggerMCPServer) (path : string)
    (args : object value) (base : string) (u : URL) (rest : string) :
  configuredBaseUrl this = Normal base ->
  URL_new base None = Some u ->
  substitute path args = String "/" rest ->
  buildUrl this path args
  = Normal (href (set_pathname u (closed_base_path u ++ rest))).
Proof.
  intros B U S. unfold buildUrl. rewrite B, S. cbn [bind].
  unfold startsWith. rewrite prefix_single. cbn [Ascii.eqb Bool.eqb]. cbv iota.
  rewrite U. reflexivity.
Qed.

Lemma set_pathname_components (u : URL) (v : string) :
  scheme (set_pathname u v) = scheme u
  /\ username (set_pathname u v) = username u
  /\ password (set_pathname u v) = password u
  /\ host (set_pathname u v) = host u
  /\ port (set_pathname u v) = port u
  /\ query (set_pathname u v) = query u
  /\ fragment (set_pathname u v) = fragment u.
Proof. unfold set_pathname. destruct (path u); repeat split. Qed.

End ComposeFacts.

(** ** The resolved URL *)

Module UrlClaims.
Import JsString JsValue Whatwg Server Notions Template.
Import StringFacts TemplateFacts UrlFacts SubstituteFacts ComposeFacts.

(** C3, as amended.  Let the base URL be parsed into [u], with a
    path of normal segments (as the URL parser leaves them), and let
    the substituted path be a slash followed by [rest], where no
    segment of [rest] is a dot segment.  Then the resolved URL is [u]
    with its path replaced, and the new path is the base URL's path,
    closed by one slash, followed by the percent-encoded [rest]: the
    request path is appended to the base path, which is kept. *)
Theorem buildUrl_appends_to_base_path `{Platform} (this : SwaggerMCPServer)
    (path : string) (args : object value) (base : string) (u : URL)
    (segs : list string) (rest : string) :
  configuredBaseUrl this = Normal base ->
  URL_new base None = Some u ->
  Whatwg.path u = Segments segs ->
  Forall (fun seg => normal_segment (scheme u) seg = true) segs ->
  substitute path args = String "/" rest ->
  plain_path (scheme u) rest = true ->
  exists resolved,
    buildUrl this path args = Normal (href resolved)
    /\ pathname resolved = closed_base_path u ++ encode_path_text (scheme u) rest
    /\ scheme resolved = scheme u
    /\ username resolved = username u
    /\ password resolved = password u
    /\ host resolved = host u
    /\ port resolved = port u
    /\ query resolved = query u
    /\ fragment resolved = fragment u.
Proof.
  intros B U E F S P.
  exists (set_pathname u (closed_base_path u ++ rest)).
  split; [now apply (buildUrl_absolute this path args base u rest)|].
  split; [now apply (set_pathname_appends u segs rest)|].
  apply set_pathname_components.
Qed.

Lemma buildUrl_appends_to_base_path_witness :
  let this :=
    mkServer (mkConfig None None None (Some "https://api.example.com/api") false None)
      None [] in
  let u :=
    mkURL "https" EmptyString EmptyString (Some "api.example.com") None
      (Segments ["api"]) None None in
  configuredBaseUrl this = Normal "https://api.example.com/api"
  /\ @URL_new basic_platform "https://api.example.com/api" None = Some u
  /\ Whatwg.path u = Segments ["api"]
  /\ Forall (fun seg => normal_segment (scheme u) seg = true) ["api"]
  /\ substitute "/v1/x" [] = String "/" "v1/x"
  /\ plain_path (scheme u) "v1/x" = true
  /\ (exists resolved,
        @buildUrl basic_platform this "/v1/x" [] = Normal (href resolved)
        /\ pathname resolved = "/api/v1/x"
        /\ scheme resolved = scheme u
        /\ username resolved = username u
        /\ password resolved = password u
        /\ host resolved = host u
        /\ port resolved = port u
        /\ query resolved = query u
        /\ fragment resolved = fragment u)
  /\ @buildUrl basic_platform this "/v1/x" [] = Normal "https://api.example.com/api/v1/x".
Proof.
  intros this u.
  assert (F : Forall (fun seg => normal_segment (scheme u) seg = true) ["api"])
    by (constructor; [reflexivity | constructor]).
  split; [reflexivity|]. split; [reflexivity|]. split; [reflexivity|].
  split; [exact F|]. split; [reflexivity|]. split; [reflexivity|].
  split; [|reflexivity].
  exact (@buildUrl_appends_to_base_path basic_platform this "/v1/x" []
           "https://api.example.com/api" u ["api"] "v1/x"
           eq_refl eq_refl eq_refl F eq_refl eq_refl).
Defined.

(** With the basic parser the condition on the base URL holds by
    itself: every http(s) base URL it accepts keeps its path when a
    request path without dot segments is appended. *)
Lemma buildUrl_basic_appends (this : SwaggerMCPServer) (path : string)
    (args : object value) (base : string) (u : URL) (rest : string) :
  configuredBaseUrl this = Normal base ->
  URL_basic base None = Some u ->
  substitute path args = String "/" rest ->
  plain_path (scheme u) rest = true ->
  @buildUrl basic_platform this path args
  = Normal (href (set_pathname u (closed_base_path u ++ rest)))
  /\ pathname (set_pathname u (closed_base_path u ++ rest))
     = closed_base_path u ++ encode_path_text (scheme u) rest.
Proof.
  intros B U S P.
  destruct (URL_basic_normal base u U) as (segs & E & F).
  split.
  - now apply (@buildUrl_absolute basic_platform this path args base u rest).
  - now apply (set_pathname_appends u segs rest).
Qed.

(** Scenario 4. *)
Example scenario_4 :
  @buildUrl basic_platform
    (mkServer (mkConfig None None None (Some "https://api.example.com/api") false None)
       None [])
    "/v1/x" []
  = Normal "https://api.example.com/api/v1/x".
Proof. reflexivity. Qed.

(** A substituted path that starts with a slash and whose only
    segment is a double dot: the [pathname] setter resolves the dot
    segment against the base path, and the base path [/api] is gone
    from the resolved URL. *)
Lemma buildUrl_dot_segment_drops_base_path :
  let this :=
    mkServer (mkConfig None None None (Some "https://api.example.com/api") false None)
      None [] in
  let args := [("name", VStr "..")] in
  substitute "/{name}" args = "/.."
  /\ startsWith (substitute "/{name}" args) "/" = true
  /\ @buildUrl basic_platform this "/{name}" args = Normal "https://api.example.com/"
  /\ ~ (exists appended, "https://api.example.com/"
                         = "https://api.example.com/api" ++ appended).
Proof.
  cbv zeta. split; [reflexivity|]. split; [reflexivity|]. split; [reflexivity|].
  intros (appended & E). discriminate.
Qed.




(** The same with a declared and supplied parameter whose
    placeholder stands twice in the template. *)
Example substitute_repeated_placeholder :
  let tool :=
    createToolFromOperation "t" "get" "/a/{id}/b/{id}"
      (mkOperation None None None
         (Some [mkParameter "id" "path" (Some "integer") None None true])) in
  required (inputSchema tool) = ["id"]
  /\ substitute (tool_path tool) [("id", VNum 7)] = "/a/7/b/{id}".
Proof. split; reflexivity. Qed.

End UrlClaims.

(** ** Repeated placeholders *)

Module RepeatClaims.
Import JsString JsValue Whatwg Server Notions Template.
Import StringFacts TemplateFacts UrlFacts SubstituteFacts ComposeFacts.







End RepeatClaims.

(* ================================================================= *)
(** * Further facts *)

(** ** Tool generation *)

Module GenerateFacts.
Import JsString JsValue Server Notions Pieces StringFacts.

Lemma generateTools_fold (this : SwaggerMCPServer) :
  generateTools this
  = match loaded_paths this with
    | None => Throw (Error "No valid swagger document loaded")
    | Some ps => fold_left (push_path_item (tool_prefix this)) ps (Normal (tools this))
    end.
Proof.
  unfold generateTools, loaded_paths.
  destruct (swaggerDoc this) as [doc|]; [|reflexivity].
  destruct (paths doc); reflexivity.
Qed.

Lemma push_operations_thrown (prefix path : string) (items : object PathItemEntry)
    (e : Thrown) :
  fold_left (push_operation prefix path) items (Throw e) = Throw e.
Proof. induction items as [|item items IH]; [reflexivity | exact IH]. Qed.

Lemma push_operations (prefix path : string) (items : object PathItemEntry)
    (ts : list SwaggerTool) :
  fold_left (push_operation prefix path) items (Normal ts)
  = if existsb null_operation items then Throw null_operation_error
    else Normal (ts ++ generated prefix [(path, items)])%list.
Proof.
  unfold generated. cbn [flat_map fst snd]. rewrite app_nil_r.
  revert ts. induction items as [|[method held] items IH]; intros ts.
  - cbn. now rewrite app_nil_r.
  - cbn [fold_left existsb flat_map]. unfold push_operation at 2, null_operation at 1.
    cbn [bind fst snd].
    destruct (existsb (String.eqb method) http_methods); cbn [andb orb].
    + destruct held; cbn [orb];
        try (rewrite IH; destruct (existsb null_operation items);
             [reflexivity | now rewrite <- app_assoc]).
      apply push_operations_thrown.
    + apply IH.
Qed.

Lemma push_path_items_thrown (prefix : string) (ps : object (object PathItemEntry))
    (e : Thrown) :
  fold_left (push_path_item prefix) ps (Throw e) = Throw e.
Proof.
  induction ps as [|entry ps IH]; [reflexivity|].
  cbn [fold_left]. unfold push_path_item at 2.
  now rewrite push_operations_thrown.
Qed.

Lemma generated_cons (prefix : string) (entry : string * object PathItemEntry)
    (ps : object (object PathItemEntry)) :
  generated prefix (entry :: ps)
  = (generated prefix [(fst entry, snd entry)] ++ generated prefix ps)%list.
Proof.
  unfold generated. cbn [flat_map fst snd]. now rewrite app_nil_r.
Qed.

Lemma has_null_operation_cons (entry : string * object PathItemEntry)
    (ps : object (object PathItemEntry)) :
  has_null_operation (entry :: ps)
  = existsb null_operation (snd entry) || has_null_operation ps.
Proof. reflexivity. Qed.

Lemma push_path_items (prefix : string) (ps : object (object PathItemEntry))
    (ts : list SwaggerTool) :
  fold_left (push_path_item prefix) ps (Normal ts)
  = if has_null_operation ps then Throw null_operation_error
    else Normal (ts ++ generated prefix ps)%list.
Proof.
  revert ts. induction ps as [|entry ps IH]; intros ts.
  - cbn. now rewrite app_nil_r.
  - cbn [fold_left]. unfold push_path_item at 2.
    rewrite push_operations, has_null_operation_cons.
    destruct (existsb null_operation (snd entry)); cbn [orb].
    + apply push_path_items_thrown.
    + rewrite IH, (generated_cons prefix entry ps).
      destruct (has_null_operation ps); [reflexivity | now rewrite <- app_assoc].
Qed.

Lemma generateTools_loaded (this : SwaggerMCPServer) (ps : object (object PathItemEntry)) :
  loaded_paths this = Some ps ->
  has_null_operation ps = false ->
  generateTools this = Normal (tools this ++ generated (tool_prefix this) ps)%list.
Proof.
  intros L N. rewrite generateTools_fold, L, push_path_items, N. reflexivity.
Qed.

Lemma generateTools_null (this : SwaggerMCPServer) (ps : object (object PathItemEntry)) :
  loaded_paths this = Some ps ->
  has_null_operation ps = true ->
  generateTools this = Throw null_operation_error.
Proof.
  intros L N. rewrite generateTools_fold, L, push_path_items, N. reflexivity.
Qed.

Lemma generateTools_unloaded (this : SwaggerMCPServer) :
  loaded_paths this = None ->
  generateTools this = Throw (Error "No valid swagger document loaded").
Proof. intros L. now rewrite generateTools_fold, L. Qed.

Lemma generateTools_normal (this : SwaggerMCPServer) (ts : list SwaggerTool) :
  generateTools this = Normal ts ->
  exists ps,
    loaded_paths this = Some ps /\ has_null_operation ps = false
    /\ ts = (tools this ++ generated (tool_prefix this) ps)%list.
Proof.
  intros G. destruct (loaded_paths this) as [ps|] eqn:L.
  - destruct (has_null_operation ps) eqn:N.
    + rewrite (generateTools_null _ _ L N) in G. discriminate.
    + rewrite (generateTools_loaded _ _ L N) in G. injection G as <-.
      now exists ps.
  - rewrite (generateTools_unloaded _ L) in G. discriminate.
Qed.

Lemma generateTools_throws_cases (this : SwaggerMCPServer) (e : Thrown) :
  generateTools this = Throw e ->
  e = Error "No valid swagger document loaded" \/ e = null_operation_error.
Proof.
  intros G. destruct (loaded_paths this) as [ps|] eqn:L.
  - destruct (has_null_operation ps) eqn:N.
    + rewrite (generateTools_null _ _ L N) in G. injection G as <-. now right.
    + rewrite (generateTools_loaded _ _ L N) in G. discriminate.
  - rewrite (generateTools_unloaded _ L) in G. injection G as <-. now left.
Qed.

(** X1.  [generateTools] throws in two cases only: when no document
    is loaded or the loaded document has no [paths], with the error
    ["No valid swagger document loaded"]; and when a path item
    holds [null] under a method name, with the [TypeError] of
    reading [operationId] off [null].  With paths of any other
    shape, also empty or without a single operation, it
    completes. *)
Theorem generateTools_throws_iff (this : SwaggerMCPServer) (e : Thrown) :
  generateTools this = Throw e
  <-> (loaded_paths this = None /\ e = Error "No valid swagger document loaded")
      \/ (exists ps, loaded_paths this = Some ps /\ has_null_operation ps = true
                     /\ e = null_operation_error).
Proof.
  destruct (loaded_paths this) as [ps|] eqn:L.
  - destruct (has_null_operation ps) eqn:N.
    + rewrite (generateTools_null _ _ L N). split.
      * intros E. injection E as <-. right. now exists ps.
      * intros [[? _] | [ps' [_ [_ ->]]]]; [discriminate | reflexivity].
    + rewrite (generateTools_loaded _ _ L N). split; [discriminate|].
      intros [[? _] | [ps' [E [N' _]]]]; [discriminate|].
      injection E as <-. congruence.
  - rewrite (generateTools_unloaded _ L). split.
    + intros E. injection E as <-. now left.
    + intros [[_ ->] | [ps [? _]]]; [reflexivity | discriminate].
Qed.

(** A document with [null] under [get]. *)
Example null_operation_throws :
  generateTools
    (mkServer (mkConfig None None None None false None)
       (Some (mkDoc None None None
                (Some [("/pets", [("get", OperationEntry (mkOperation None None None None));
                                  ("post", NullEntry)])])))
       [])
  = Throw null_operation_error.
Proof. reflexivity. Qed.

Lemma upper_method (method : string) :
  In method http_methods ->
  In (toUpperCase method) ["GET"; "POST"; "PUT"; "DELETE"; "PATCH"].
Proof.
  intros I. repeat (destruct I as [<- | I]; [vm_compute; tauto|]). destruct I.
Qed.

Lemma existsb_eqb_In (x : string) (l : list string) :
  existsb (String.eqb x) l = true <-> In x l.
Proof.
  rewrite existsb_exists. split.
  - intros [y [I E]]. apply String.eqb_eq in E. now subst.
  - intros I. exists x. split; [assumption | apply String.eqb_refl].
Qed.

Lemma generateToolName_prefix (prefix method path : string) (operation : Operation) :
  startsWith (generateToolName prefix method path operation) prefix = true.
Proof.
  unfold startsWith, generateToolName.
  destruct (truthy (operationId operation)); apply prefix_append.
Qed.

(** X2.  Every tool [generateTools] makes comes from an entry of a
    path item under one of the five lower-case method names: its
    path is that path key, its method the upper-cased key, so one of
    GET, POST, PUT, DELETE and PATCH; its name starts with the
    configured prefix; its parameters are the operation's own
    [parameters] (none when the operation has none), so parameters
    declared on the path item are not among them. *)
Theorem generated_tool_origin (prefix : string) (ps : object (object PathItemEntry))
    (t : SwaggerTool) :
  In t (generated prefix ps) ->
  exists path items method entry,
    In (path, items) ps /\ In (method, entry) items
    /\ In method http_methods
    /\ tool_path t = path
    /\ tool_method t = toUpperCase method
    /\ In (tool_method t) ["GET"; "POST"; "PUT"; "DELETE"; "PATCH"]
    /\ startsWith (tool_name t) prefix = true
    /\ tool_parameters t
       = match op_parameters (as_operation entry) with Some l => l | None => [] end.
Proof.
  unfold generated. intros I.
  apply in_flat_map in I. destruct I as [[path items] [Ip I]].
  apply in_flat_map in I. destruct I as [[method entry] [Ii I]].
  cbn [fst snd] in I.
  destruct (existsb (String.eqb method) http_methods) eqn:M; [|destruct I].
  assert (In t [createToolFromOperation
                  (generateToolName prefix method path (as_operation entry))
                  method path (as_operation entry)]) as I'
    by (destruct entry; [exact I | exact I | destruct I | exact I]).
  clear I. destruct I' as [<- | []].
  apply existsb_eqb_In in M.
  exists path, items, method, entry.
  repeat split; try assumption.
  - unfold createToolFromOperation.
    destruct (fold_left _ _ _). reflexivity.
  - unfold createToolFromOperation.
    destruct (fold_left _ _ _). reflexivity.
  - replace (tool_method _) with (toUpperCase method).
    + now apply upper_method.
    + unfold createToolFromOperation. destruct (fold_left _ _ _). reflexivity.
  - replace (tool_name _) with (generateToolName prefix method path (as_operation entry)).
    + apply generateToolName_prefix.
    + unfold createToolFromOperation. destruct (fold_left _ _ _). reflexivity.
  - unfold createToolFromOperation. destruct (fold_left _ _ _). reflexivity.
Qed.

Lemma generated_tool_origin_witness :
  let operation := mkOperation (Some "listPets") None None None in
  let shared := [mkParameter "id" "path" (Some "integer") None None true] in
  let ps := [("/pets/{id}", [("parameters", ParametersEntry shared);
                             ("get", OperationEntry operation)])] in
  let t := createToolFromOperation "api_listPets" "get" "/pets/{id}" operation in
  In t (generated "api_" ps)
  /\ exists path items method entry,
       In (path, items) ps /\ In (method, entry) items
       /\ In method http_methods
       /\ tool_path t = path
       /\ tool_method t = toUpperCase method
       /\ In (tool_method t) ["GET"; "POST"; "PUT"; "DELETE"; "PATCH"]
       /\ startsWith (tool_name t) "api_" = true
       /\ tool_parameters t
          = match op_parameters (as_operation entry) with Some l => l | None => [] end.
Proof.
  cbv zeta. split.
  - vm_compute. left. reflexivity.
  - apply (generated_tool_origin "api_"). vm_compute. left. reflexivity.
Defined.

Lemma generated_item_length (prefix path : string) (items : object PathItemEntry) :
  existsb null_operation items = false ->
  List.length (generated prefix [(path, items)])
  = List.length (filter (fun item => existsb (String.eqb (fst item)) http_methods) items).
Proof.
  unfold generated. cbn [flat_map fst snd]. rewrite app_nil_r.
  induction items as [|[method entry] items IH]; intros N; [reflexivity|].
  cbn [existsb] in N. apply orb_false_iff in N. destruct N as [Nh N].
  unfold null_operation in Nh. cbn [fst snd] in Nh.
  cbn [flat_map filter fst snd].
  destruct (existsb (String.eqb method) http_methods); cbn [andb] in Nh.
  - destruct entry; try discriminate; cbn [app List.length]; now rewrite (IH N).
  - exact (IH N).
Qed.

Lemma generated_length (prefix : string) (ps : object (object PathItemEntry)) :
  has_null_operation ps = false ->
  List.length (generated prefix ps) = method_entries ps.
Proof.
  induction ps as [|entry ps IH]; intros N; [reflexivity|].
  rewrite has_null_operation_cons in N. apply orb_false_iff in N. destruct N as [Ni N].
  rewrite generated_cons, length_app, (IH N), (generated_item_length _ _ _ Ni).
  reflexivity.
Qed.

(** X3.  [generateTools] only appends: when it completes, the tools
    the server had are still there, in front and in order, and one
    tool has been added for each entry of a path item under a method
    name: keys such as [parameters], [head] or [options] add none. *)
Theorem generateTools_appends (this : SwaggerMCPServer) (ts : list SwaggerTool) :
  generateTools this = Normal ts ->
  exists ps,
    loaded_paths this = Some ps
    /\ firstn (List.length (tools this)) ts = tools this
    /\ List.length ts = (List.length (tools this) + method_entries ps)%nat.
Proof.
  intros G. apply generateTools_normal in G. destruct G as [ps [L [N ->]]].
  exists ps. split; [exact L|]. split.
  - rewrite firstn_app, Nat.sub_diag, firstn_all. cbn [firstn]. apply app_nil_r.
  - rewrite length_app, (generated_length _ _ N). reflexivity.
Qed.

Lemma generateTools_appends_witness :
  let ps := [("/pets", [("parameters", ParametersEntry []);
                        ("get", OperationEntry (mkOperation None None None None));
                        ("head", OperationEntry (mkOperation None None None None))])] in
  let this := mkServer (mkConfig None None None None false None)
                (Some (mkDoc None None None (Some ps))) [] in
  exists ts,
    generateTools this = Normal ts
    /\ exists ps',
         loaded_paths this = Some ps'
         /\ firstn (List.length (tools this)) ts = tools this
         /\ List.length ts = (List.length (tools this) + method_entries ps')%nat.
Proof.
  cbv zeta. eexists. split.
  - vm_compute. reflexivity.
  - apply generateTools_appends. vm_compute. reflexivity.
Defined.

(** X4.  [generateTools] is not idempotent: run again on its own
    result (as a second [initialize] does), it appends the same
    tools once more. *)
Theorem generateTools_twice (this : SwaggerMCPServer) (ts : list SwaggerTool) :
  generateTools this = Normal ts ->
  generateTools (mkServer (config this) (swaggerDoc this) ts)
  = Normal (ts ++ skipn (List.length (tools this)) ts)%list.
Proof.
  intros G. apply generateTools_normal in G. destruct G as [ps [L [N ->]]].
  rewrite (generateTools_loaded _ ps) by assumption.
  cbn [tools]. unfold tool_prefix. cbn [config].
  rewrite skipn_app, Nat.sub_diag, skipn_all. reflexivity.
Qed.

Lemma generateTools_twice_witness :
  let ps := [("/pets", [("get", OperationEntry (mkOperation None None None None))])] in
  let this := mkServer (mkConfig None None None None false None)
                (Some (mkDoc None None None (Some ps))) [] in
  let t := createToolFromOperation "get_pets" "get" "/pets" (mkOperation None None None None) in
  generateTools this = Normal [t]
  /\ generateTools (mkServer (config this) (swaggerDoc this) [t])
     = Normal ([t] ++ skipn (List.length (tools this)) [t])%list.
Proof.
  cbv zeta. split.
  - vm_compute. reflexivity.
  - apply generateTools_twice. vm_compute. reflexivity.
Defined.

End GenerateFacts.

(** ** The request handlers *)

Module HandlerFacts.
Import JsString JsValue Whatwg Server Notions Handlers Pieces.

Section Environment.
Context `{Platform} `{AxiosInstance}.

(** [callApiTool] written by cases. *)
Lemma callApiTool_cases (this : SwaggerMCPServer) (tool : SwaggerTool)
    (args : object value) :
  callApiTool this tool args
  = Normal
      match buildUrl this (tool_path tool) args with
      | Throw error => error_result tool error
      | Normal url =>
          match request (requestConfig tool url args) with
          | Throw error => error_result tool error
          | Normal resp => success_result (data resp)
          end
      end.
Proof.
  unfold callApiTool, try_catch, bind.
  destruct (buildUrl this (tool_path tool) args) as [url|error]; [|reflexivity].
  destruct (request (requestConfig tool url args)); reflexivity.
Qed.

Lemma find_name_none (ts : list SwaggerTool) (name : string) :
  find (fun t => tool_name t =? name) ts = None
  <-> forall t, In t ts -> tool_name t <> name.
Proof.
  split.
  - intros F t I E. apply (find_none _ _ F) in I. cbv beta in I.
    apply String.eqb_neq in I. contradiction.
  - intros N. destruct (find _ ts) as [t|] eqn:F; [|reflexivity].
    apply find_some in F. destruct F as [I E]. apply String.eqb_eq in E.
    now apply N in I.
Qed.

Lemma find_name_first (before after : list SwaggerTool) (tool : SwaggerTool) :
  (forall t, In t before -> tool_name t <> tool_name tool) ->
  find (fun t => tool_name t =? tool_name tool) (before ++ tool :: after)%list = Some tool.
Proof.
  induction before as [|b before IH]; intros N; cbn [app find].
  - now rewrite String.eqb_refl.
  - destruct (tool_name b =? tool_name tool) eqn:E.
    + apply String.eqb_eq in E. exfalso. apply (N b); [now left | assumption].
    + apply IH. intros t I. apply N. now right.
Qed.

End Environment.

(** X5.  The call handler throws exactly when no tool has the
    requested name, and then the error ["Tool <name> not found"];
    for a name some tool has it completes, whatever the arguments,
    the state of the server and the answer of the HTTP client. *)
Theorem handleCallTool_throws_iff `{Platform} `{AxiosInstance}
    (this : SwaggerMCPServer) (name : string) (args : option (object value)) :
  ((forall t, In t (tools this) -> tool_name t <> name)
   <-> handleCallTool this name args = Throw (Error ("Tool " ++ name ++ " not found")))
  /\ ((exists t, In t (tools this) /\ tool_name t = name)
      <-> exists result, handleCallTool this name args = Normal result).
Proof.
  unfold handleCallTool.
  destruct (find (fun t => tool_name t =? name) (tools this)) as [tool|] eqn:F.
  - pose proof (find_some _ _ F) as [I E]. apply String.eqb_eq in E.
    rewrite callApiTool_cases. split; split.
    + intros N. now apply N in I.
    + discriminate.
    + intros _. eexists. reflexivity.
    + intros _. now exists tool.
  - pose proof (proj1 (find_name_none _ _) F) as N. split; split.
    + reflexivity.
    + intros _. exact N.
    + intros [t [I E]]. now apply N in I.
    + intros [result E]. discriminate.
Qed.

(** X6.  Tools are looked up by name, first match: of two tools with
    one name (two operations with the same [operationId], say) a
    call always reaches the earlier one; and a request without
    [arguments] is a call with the empty object. *)
Theorem handleCallTool_first_match `{Platform} `{AxiosInstance}
    (this : SwaggerMCPServer) (before after : list SwaggerTool) (tool : SwaggerTool)
    (args : option (object value)) :
  tools this = (before ++ tool :: after)%list ->
  (forall t, In t before -> tool_name t <> tool_name tool) ->
  handleCallTool this (tool_name tool) args
  = callApiTool this tool (match args with Some a => a | None => [] end)
  /\ handleCallTool this (tool_name tool) None
     = handleCallTool this (tool_name tool) (Some []).
Proof.
  intros T N. unfold handleCallTool. rewrite T, (find_name_first _ _ _ N).
  split; reflexivity.
Qed.

Lemma handleCallTool_first_match_witness :
  let get_pet := createToolFromOperation "pet" "get" "/pet" (mkOperation None None None None) in
  let delete_pet :=
    createToolFromOperation "pet" "delete" "/pet" (mkOperation None None None None) in
  let this :=
    mkServer (mkConfig None None None (Some "https://api.example.com") false None)
      None [get_pet; delete_pet] in
  let client := constant_client (Normal (mkResponse 200 VNull)) in
  tools this = ([] ++ get_pet :: [delete_pet])%list
  /\ (forall t, In t [] -> tool_name t <> tool_name get_pet)
  /\ tool_name delete_pet = tool_name get_pet
  /\ @handleCallTool basic_platform client this (tool_name get_pet) None
     = @callApiTool basic_platform client this get_pet []
  /\ @handleCallTool basic_platform client this (tool_name get_pet) None
     = @handleCallTool basic_platform client this (tool_name get_pet) (Some []).
Proof.
  cbv zeta. split; [reflexivity|]. split; [intros t []|]. split; [reflexivity|].
  apply (@handleCallTool_first_match basic_platform
           (constant_client (Normal (mkResponse 200 VNull))) _ []
           [createToolFromOperation "pet" "delete" "/pet" (mkOperation None None None None)]
           _ None).
  - reflexivity.
  - intros t [].
Defined.

(** X7.  The list handler answers with one entry per tool, in order,
    carrying the tool's name, description and input schema; and
    every name it lists can be called: the call handler completes
    for it. *)
Theorem listTools_callable `{Platform} `{AxiosInstance} (this : SwaggerMCPServer) :
  map listed_name (listTools this) = map tool_name (tools this)
  /\ map listed_description (listTools this) = map tool_description (tools this)
  /\ map listed_inputSchema (listTools this) = map inputSchema (tools this)
  /\ forall entry args,
       In entry (listTools this) ->
       exists result, handleCallTool this (listed_name entry) args = Normal result.
Proof.
  unfold listTools. rewrite !map_map. cbn [listed_name listed_description listed_inputSchema].
  repeat split.
  intros entry args I. apply in_map_iff in I. destruct I as [tool [<- I]].
  cbn [listed_name]. unfold handleCallTool.
  destruct (find (fun t => tool_name t =? tool_name tool) (tools this)) as [found|] eqn:F.
  - rewrite callApiTool_cases. eexists. reflexivity.
  - apply (find_none _ _ F) in I. cbv beta in I. now rewrite String.eqb_refl in I.
Qed.

Lemma listTools_callable_witness :
  let get_pet := createToolFromOperation "pet" "get" "/pet" (mkOperation None None None None) in
  let this := mkServer (mkConfig None None None None false None) None [get_pet] in
  let client := constant_client (Normal (mkResponse 200 VNull)) in
  let entry := mkListed "pet" "GET /pet" (mkSchema "object" [] []) in
  In entry (listTools this)
  /\ exists result,
       @handleCallTool basic_platform client this (listed_name entry) None = Normal result.
Proof.
  cbv zeta. split.
  - vm_compute. left. reflexivity.
  - apply (@listTools_callable basic_platform
             (constant_client (Normal (mkResponse 200 VNull)))).
    vm_compute. left. reflexivity.
Defined.

(** The one error of [buildUrl] that is about the document. *)
Lemma buildUrl_no_document `{Platform} (this : SwaggerMCPServer) (path : string)
    (args : object value) :
  buildUrl this path args = Throw (Error "No swagger document loaded") ->
  truthy (baseUrl (config this)) = None /\ swaggerDoc this = None.
Proof.
  unfold buildUrl, configuredBaseUrl, getBaseUrlFromSwagger, bind.
  destruct (truthy (baseUrl (config this))) as [b|];
    [|destruct (swaggerDoc this) as [doc|]].
  - destruct (startsWith _ "/"); destruct (URL_new _ _); discriminate.
  - destruct (startsWith _ "/"); destruct (URL_new _ _); discriminate.
  - auto.
Qed.

(** X8.  When [buildUrl] throws ["No swagger document loaded"], the
    configuration has no base URL and no document is loaded; in
    that situation [buildUrl] never returns a URL.  With a base URL
    in the configuration the swagger document is never looked
    at. *)
Theorem buildUrl_throws `{Platform} (this : SwaggerMCPServer) (path : string)
    (args : object value) :
  (buildUrl this path args = Throw (Error "No swagger document loaded") ->
   truthy (baseUrl (config this)) = None /\ swaggerDoc this = None)
  /\ (truthy (baseUrl (config this)) = None -> swaggerDoc this = None ->
      forall url, buildUrl this path args <> Normal url)
  /\ (forall b document ts,
        truthy (baseUrl (config this)) = Some b ->
        buildUrl (mkServer (config this) document ts) path args
        = buildUrl this path args).
Proof.
  split; [apply buildUrl_no_document|]. split.
  - intros B D url. unfold buildUrl, configuredBaseUrl, getBaseUrlFromSwagger, bind.
    rewrite B, D. discriminate.
  - intros b document ts B.
    unfold buildUrl, configuredBaseUrl, getBaseUrlFromSwagger, bind. cbn [config].
    rewrite B. reflexivity.
Qed.

Lemma buildUrl_throws_witness :
  let this := mkServer (mkConfig None None None None false None) None [] in
  @buildUrl basic_platform this "/pets" [] = Throw (Error "No swagger document loaded")
  /\ truthy (baseUrl (config this)) = None
  /\ swaggerDoc this = None
  /\ (forall url, @buildUrl basic_platform this "/pets" [] <> Normal url).
Proof.
  cbv zeta. split; [reflexivity|].
  destruct (@buildUrl_throws basic_platform
              (mkServer (mkConfig None None None None false None) None []) "/pets" [])
    as [T1 [T2 _]].
  destruct (T1 eq_refl) as [B D].
  split; [exact B|]. split; [exact D|]. exact (T2 B D).
Defined.

End HandlerFacts.

(** ** Query, body and schema *)

Module CollectFacts.
Import JsString JsValue Server Notions Pieces ObjectFacts RequestClaims.

Lemma query_entries_filter (ps : list SwaggerParameter) (args : object value) :
  query_entries (filter sent_location ps) args = query_entries ps args.
Proof.
  unfold query_entries, sent_location.
  induction ps as [|p ps IH]; [reflexivity|].
  cbn [filter flat_map].
  destruct (param_in p =? "query") eqn:Q; cbn [orb].
  - cbn [flat_map]. rewrite Q, IH. reflexivity.
  - destruct (param_in p =? "body") eqn:B.
    + cbn [flat_map]. rewrite Q, IH. reflexivity.
    + rewrite IH. now destruct (fetch _ _).
Qed.

Lemma body_values_filter (ps : list SwaggerParameter) (args : object value) :
  body_values (filter sent_location ps) args = body_values ps args.
Proof.
  unfold body_values, sent_location.
  induction ps as [|p ps IH]; [reflexivity|].
  cbn [filter flat_map].
  destruct (param_in p =? "query") eqn:Q; cbn [orb].
  - cbn [flat_map]. rewrite Q, IH. reflexivity.
  - destruct (param_in p =? "body") eqn:B.
    + cbn [flat_map]. rewrite Q, B, IH. reflexivity.
    + rewrite IH. now destruct (fetch _ _) as [[v|inherited]|].
Qed.

(** X9.  Only the parameters located in the query or in the body
    count: the request built for a call is the same when all other
    parameters of the tool (in the path, a header, form data) are
    taken away.  In particular a header parameter is never sent. *)
Theorem requestConfig_sent_locations (tool : SwaggerTool) (url : string)
    (args : object value) :
  collectParams (tool_parameters tool) args
  = collectParams (filter sent_location (tool_parameters tool)) args
  /\ requestConfig tool url args
     = requestConfig
         (with_parameters tool (filter sent_location (tool_parameters tool))) url args.
Proof.
  assert (collectParams (tool_parameters tool) args
          = collectParams (filter sent_location (tool_parameters tool)) args) as C.
  { rewrite !collectParams_eq, query_entries_filter, body_values_filter. reflexivity. }
  split; [exact C|].
  unfold requestConfig, with_parameters. cbn [tool_parameters tool_method].
  rewrite <- C. reflexivity.
Qed.

Lemma get_query_entries (ps : list SwaggerParameter) (args : object value)
    (q : object fetched) (k : string) :
  get (define_all q (query_entries ps args)) k
  = match (if existsb (fun p => (param_in p =? "query") && (param_name p =? k)) ps
           then fetch args k else None) with
    | Some v => Some v
    | None => get q k
    end.
Proof.
  revert q. induction ps as [|p ps IH]; intros q; [reflexivity|].
  change (query_entries (p :: ps) args)
    with ((match fetch args (param_name p) with
           | Some v => if param_in p =? "query" then [(param_name p, v)] else []
           | None => []
           end) ++ query_entries ps args)%list.
  rewrite define_all_app, IH. cbn [existsb].
  destruct (param_in p =? "query") eqn:Q; cbn [andb orb].
  - destruct (param_name p =? k) eqn:E; cbn [orb].
    + apply String.eqb_eq in E. subst k.
      destruct (fetch args (param_name p)) as [v|] eqn:D.
      * destruct (existsb _ ps); [reflexivity|].
        cbn [define_all fold_left fst snd]. apply get_define_same.
      * destruct (existsb _ ps); reflexivity.
    + apply String.eqb_neq in E.
      destruct (fetch args (param_name p)) as [v|] eqn:D; [|reflexivity].
      cbn [define_all fold_left fst snd]. rewrite get_define_other by congruence. reflexivity.
  - now destruct (fetch args (param_name p)).
Qed.

(** X10.  The query mapping of a request, key by key, for every key
    but [__proto__]: it has the key [k] exactly when the tool
    declares a query parameter named [k] and [args[k]] is not
    [undefined], and the value sent is what [args[k]] evaluates to,
    however often the name is declared: the supplied argument
    ([null], objects and arrays included) or, when none is
    supplied under a name every object inherits, such as
    [constructor], the built-in of that name.  Arguments that are
    not declared query parameters are dropped. *)
Theorem requestConfig_query_lookup (tool : SwaggerTool) (url : string)
    (args : object value) (k : string) :
  k <> "__proto__" ->
  get (rc_params (requestConfig tool url args)) k
  = if existsb (fun p => (param_in p =? "query") && (param_name p =? k))
         (tool_parameters tool)
    then fetch args k else None.
Proof.
  intros N. destruct (requestConfig_fields tool url args) as [_ [_ [-> _]]].
  rewrite get_write_all by assumption. cbn [own empty_plain].
  rewrite get_query_entries. cbn [get].
  now destruct (if existsb _ _ then _ else _).
Qed.

Lemma requestConfig_query_lookup_witness :
  let tool :=
    createToolFromOperation "find" "get" "/pets"
      (mkOperation None None None
         (Some [mkParameter "constructor" "query" None None None false;
                mkParameter "limit" "query" None None None false;
                mkParameter "id" "path" None None None true])) in
  let args := [("limit", VNum 3); ("id", VNum 7); ("page", VNum 2)] in
  "limit" <> "__proto__"
  /\ get (rc_params (requestConfig tool "u" args)) "limit" = Some (Own (VNum 3))
  /\ get (rc_params (requestConfig tool "u" args)) "constructor"
     = Some (Inherited "constructor")
  /\ get (rc_params (requestConfig tool "u" args)) "id" = None
  /\ get (rc_params (requestConfig tool "u" args)) "page" = None
  /\ get (rc_params (requestConfig tool "u" args)) "limit"
     = if existsb (fun p => (param_in p =? "query") && (param_name p =? "limit"))
            (tool_parameters tool)
       then fetch args "limit" else None.
Proof.
  cbv zeta. split; [discriminate|]. split; [reflexivity|]. split; [reflexivity|].
  split; [reflexivity|]. split; [reflexivity|].
  apply requestConfig_query_lookup. discriminate.
Defined.

Lemma get_merged (vs : list value) (b : plain value) (k : string) :
  k <> "__proto__" ->
  Forall (fun v => NoDup (Object_keys (own_enumerable v))) vs ->
  get (own (fold_left Object_assign vs b)) k = last_field_from (get (own b) k) vs k.
Proof.
  unfold last_field_from. intros N F. revert b.
  induction F as [|v vs D F IH]; intros b; [reflexivity|].
  cbn [fold_left]. rewrite IH. f_equal.
  rewrite Object_assign_write_all, get_write_all by assumption.
  rewrite get_define_all_last, (get_rev _ _ D). reflexivity.
Qed.

(** A source with distinct keys, written to an object on which the
    setter is reached, leaves no own property [__proto__]. *)
Lemma write_all_no_proto {A} (unhooks : A -> bool) (l : list (string * A)) (o : plain A) :
  NoDup (map fst l) ->
  get (own o) "__proto__" = None ->
  setter o = true \/ ~ In "__proto__" (map fst l) ->
  get (own (write_all unhooks o l)) "__proto__" = None.
Proof.
  revert o. induction l as [|[a v] l IH]; intros o D G S; [exact G|].
  inversion D as [|? ? Na D']; subst.
  change (write_all unhooks o ((a, v) :: l))
    with (write_all unhooks (write unhooks o a v) l).
  destruct (String.eqb_spec a "__proto__") as [->|Ne].
  - destruct S as [S|S]; [|exfalso; apply S; now left].
    apply IH; [assumption | | now right].
    unfold write. rewrite S. cbn [String.eqb Ascii.eqb Bool.eqb andb own]. exact G.
  - rewrite write_plain by assumption. apply IH; [assumption | |].
    + cbn [own]. rewrite get_define_other by congruence. exact G.
    + cbn [setter]. destruct S as [S|S]; [now left | right].
      intros I. apply S. now right.
Qed.

(** X11.  [Object.assign] merges field by field: under every key
    but [__proto__], a field of the source replaces the target's
    field of that name, and every other field of the target stays.
    So in the body of a request each such field has the value of
    the last supplied body parameter that has the field.  A field
    [__proto__] of the source is not copied to a fresh object: it
    sets the prototype. *)
Theorem body_merge_last_wins :
  (forall (target : plain value) (source : value) (k : string),
     k <> "__proto__" ->
     NoDup (Object_keys (own_enumerable source)) ->
     get (own (Object_assign target source)) k
     = match get (own_enumerable source) k with
       | Some x => Some x
       | None => get (own target) k
       end)
  /\ (forall (parameters : list SwaggerParameter) (args : object value) (k : string),
        k <> "__proto__" ->
        Forall (fun v => NoDup (Object_keys (own_enumerable v)))
          (body_values parameters args) ->
        get (own (snd (collectParams parameters args))) k
        = last_field (body_values parameters args) k)
  /\ (forall (source : value),
        NoDup (Object_keys (own_enumerable source)) ->
        get (own (Object_assign empty_plain source)) "__proto__" = None).
Proof.
  split; [|split].
  - intros target source k N D.
    rewrite Object_assign_write_all, get_write_all by assumption.
    rewrite get_define_all_last, (get_rev _ _ D). reflexivity.
  - intros parameters args k N F. rewrite collectParams_eq. cbn [snd].
    now rewrite get_merged.
  - intros source D. rewrite Object_assign_write_all.
    apply write_all_no_proto; [exact D | reflexivity | now left].
Qed.

Lemma body_merge_last_wins_witness :
  let parameters := [mkParameter "a" "body" None None None false;
                     mkParameter "b" "body" None None None false] in
  let args := [("a", VObj [("name", VStr "x"); ("age", VNum 1)]);
               ("b", VObj [("name", VStr "y")])] in
  "name" <> "__proto__"
  /\ Forall (fun v => NoDup (Object_keys (own_enumerable v))) (body_values parameters args)
  /\ last_field (body_values parameters args) "name" = Some (VStr "y")
  /\ get (own (snd (collectParams parameters args))) "name"
     = last_field (body_values parameters args) "name".
Proof.
  cbv zeta.
  assert (Forall (fun v => NoDup (Object_keys (own_enumerable v)))
            (body_values [mkParameter "a" "body" None None None false;
                          mkParameter "b" "body" None None None false]
               [("a", VObj [("name", VStr "x"); ("age", VNum 1)]);
                ("b", VObj [("name", VStr "y")])])) as F.
  { vm_compute. repeat constructor; cbn; intuition discriminate. }
  split; [discriminate|]. split; [exact F|]. split; [reflexivity|].
  apply (proj1 (proj2 body_merge_last_wins)); [discriminate | exact F].
Defined.

End CollectFacts.

Module SchemaFacts.
Import JsString JsValue Server Notions Pieces ObjectFacts SchemaClaims.

Lemma get_map_entries {A} (g : SwaggerParameter -> A) (l : list SwaggerParameter)
    (k : string) :
  get (map (fun p => (param_name p, g p)) l) k
  = option_map g (find (fun p => param_name p =? k) l).
Proof.
  induction l as [|p l IH]; [reflexivity|].
  cbn [map get find]. destruct (param_name p =? k); [reflexivity | exact IH].
Qed.

Lemma get_filter_other {A} (l : list (string * A)) (k k' : string) :
  k' <> k ->
  get (filter (fun p => negb (fst p =? k)) l) k' = get l k'.
Proof.
  intros N. induction l as [|[a v] l IH]; [reflexivity|].
  cbn [filter fst]. destruct (a =? k) eqn:E; cbn [negb get].
  - apply String.eqb_eq in E. subst a.
    destruct (k =? k') eqn:E'; [|exact IH].
    apply String.eqb_eq in E'. congruence.
  - now rewrite IH.
Qed.

Lemma filter_rev' {A} (f : A -> bool) (l : list A) :
  filter f (rev l) = rev (filter f l).
Proof.
  induction l as [|x l IH]; [reflexivity|].
  cbn [rev filter]. rewrite filter_app, IH. cbn [filter].
  destruct (f x); [reflexivity | apply app_nil_r].
Qed.

(** X12.  The input schema of every tool is consistent, whatever the
    operation declares: its properties are exactly the names of the
    operation's parameters other than [__proto__], each once; every
    name listed as required, [__proto__] apart, has a property; and
    the property under a name is the one of the last parameter
    declared with that name. *)
Theorem inputSchema_consistent (name method path : string) (operation : Operation) :
  let params := match op_parameters operation with Some ps => ps | None => [] end in
  let schema := inputSchema (createToolFromOperation name method path operation) in
  NoDup (Object_keys (properties schema))
  /\ (forall k, In k (Object_keys (properties schema))
                <-> In k (map param_name params) /\ k <> "__proto__")
  /\ (forall k, In k (required schema) -> k <> "__proto__" ->
                In k (Object_keys (properties schema)))
  /\ (forall k, k <> "__proto__" ->
                get (properties schema) k
                = option_map property_of
                    (find (fun p => param_name p =? k) (rev params))).
Proof.
  cbv zeta. rewrite createTool_inputSchema. cbv zeta. cbn [properties required].
  set (params := match op_parameters operation with Some ps => ps | None => [] end).
  set (entries := map (fun p => (param_name p, property_of p)) params).
  assert (forall k,
            In k (Object_keys
                    (define_all [] (filter (fun p => negb (fst p =? "__proto__")) entries)))
            <-> In k (map param_name params) /\ k <> "__proto__") as Keys.
  { intros k. unfold Object_keys. rewrite keys_define_all. cbn [map In].
    rewrite in_map_iff. unfold entries. split.
    - intros [[[a v] [E I]] | []]. cbn [fst] in E. subst a.
      apply filter_In in I. destruct I as [I F]. cbn [fst] in F.
      apply negb_true_iff, String.eqb_neq in F. split; [|assumption].
      apply in_map_iff in I. destruct I as [p [E I]]. injection E as <- _.
      now apply in_map.
    - intros [I N]. left. apply in_map_iff in I. destruct I as [p [<- I]].
      exists (param_name p, property_of p). split; [reflexivity|].
      apply filter_In. split.
      + apply in_map_iff. now exists p.
      + cbn [fst]. now apply negb_true_iff, String.eqb_neq. }
  split; [|split; [|split]].
  - apply NoDup_define_all. constructor.
  - exact Keys.
  - intros k I N. apply Keys. split; [|assumption].
    apply in_map_iff in I. destruct I as [p [<- I]].
    apply filter_In in I. apply in_map. tauto.
  - intros k N. rewrite get_define_all_last, <- filter_rev', get_filter_other by assumption.
    unfold entries. rewrite <- map_rev, get_map_entries. cbn [get].
    now destruct (option_map _ _).
Qed.

Lemma inputSchema_consistent_witness :
  let operation :=
    mkOperation None None None
      (Some [mkParameter "id" "path" (Some "integer") None None true;
             mkParameter "id" "query" (Some "string") None None false]) in
  let schema := inputSchema (createToolFromOperation "t" "get" "/pets/{id}" operation) in
  In "id" (required schema)
  /\ "id" <> "__proto__"
  /\ In "id" (Object_keys (properties schema))
  /\ get (properties schema) "id" = Some (mkProperty "string" "id parameter").
Proof.
  cbv zeta.
  destruct (inputSchema_consistent "t" "get" "/pets/{id}"
              (mkOperation None None None
                 (Some [mkParameter "id" "path" (Some "integer") None None true;
                        mkParameter "id" "query" (Some "string") None None false])))
    as (_ & _ & R & G).
  assert ("id" <> "__proto__") as N by discriminate.
  split; [now left|]. split; [exact N|]. split.
  - apply R; [now left | exact N].
  - rewrite (G "id" N). reflexivity.
Defined.

End SchemaFacts.

(** ** Tool names *)

Module NameShapeFacts.
Import JsString JsValue Server Notions Template Pieces StringFacts TemplateFacts.

Lemma split_nonempty (sep : ascii) (s : string) : split sep s <> [].
Proof.
  destruct s as [|c r]; cbn [split]; [discriminate|].
  destruct (Ascii.eqb c sep); [discriminate|]. destruct (split sep r); discriminate.
Qed.

Lemma split_append (sep : ascii) (a b : string) :
  split sep (a ++ String sep b) = (split sep a ++ split sep b)%list.
Proof.
  induction a as [|c a IH]; cbn [append split].
  - now rewrite Ascii.eqb_refl.
  - destruct (Ascii.eqb c sep); rewrite IH; [reflexivity|].
    pose proof (split_nonempty sep a) as N.
    destruct (split sep a); [contradiction | reflexivity].
Qed.

(** The segments of a path the name is made of. *)
Lemma segments_append (a b : string) :
  filter (fun part => negb (part =? EmptyString)) (split "/" (a ++ String "/" b))
  = (filter (fun part => negb (part =? EmptyString)) (split "/" a)
     ++ filter (fun part => negb (part =? EmptyString)) (split "/" b))%list.
Proof. now rewrite split_append, filter_app. Qed.

Lemma generateToolName_segments (prefix method p q : string) (operation : Operation) :
  filter (fun part => negb (part =? EmptyString)) (split "/" p)
  = filter (fun part => negb (part =? EmptyString)) (split "/" q) ->
  generateToolName prefix method p operation = generateToolName prefix method q operation.
Proof.
  intros E. unfold generateToolName. now rewrite E.
Qed.

(** X13.  Empty path segments do not show in a tool name: a doubled
    slash counts as one, and a slash in front or at the end of the
    path changes nothing.  So two paths that differ only in such
    slashes get one name. *)
Theorem generateToolName_ignores_empty_segments (prefix method a b : string)
    (operation : Operation) :
  generateToolName prefix method (a ++ "//" ++ b) operation
  = generateToolName prefix method (a ++ "/" ++ b) operation
  /\ generateToolName prefix method (a ++ "/") operation
     = generateToolName prefix method a operation
  /\ generateToolName prefix method ("/" ++ a) operation
     = generateToolName prefix method a operation.
Proof.
  split; [|split]; apply generateToolName_segments.
  - change (a ++ "//" ++ b) with (a ++ String "/" (EmptyString ++ String "/" b)).
    change (a ++ "/" ++ b) with (a ++ String "/" b).
    rewrite !segments_append. reflexivity.
  - change (a ++ "/") with (a ++ String "/" EmptyString).
    rewrite segments_append. cbn. apply app_nil_r.
  - change ("/" ++ a) with (EmptyString ++ String "/" a).
    rewrite segments_append. reflexivity.
Qed.

Lemma split_brace_free (s : string) :
  brace_free s = true -> Forall (fun part => brace_free part = true) (split "/" s).
Proof.
  induction s as [|c r IH]; intros B.
  - repeat constructor.
  - apply brace_free_cons in B. destruct B as [B1 [B2 B]]. specialize (IH B).
    cbn [split]. destruct (Ascii.eqb c "/").
    + constructor; [reflexivity | assumption].
    + pose proof (split_nonempty "/" r) as N.
      destruct (split "/" r) as [|p ps]; [contradiction|].
      inversion IH; subst. constructor; [|assumption].
      unfold brace_free, is_brace in *. cbn [forallb_chars]. rewrite B1, B2. assumption.
Qed.

Lemma replace_non_alnum_name_chars (s : string) :
  forallb_chars name_char (replace_non_alnum s) = true.
Proof.
  unfold replace_non_alnum, name_char.
  induction s as [|c r IH]; [reflexivity|].
  cbn [map_chars forallb_chars]. rewrite IH, andb_true_r.
  destruct (is_alnum c) eqn:A; [now rewrite A | reflexivity].
Qed.

Lemma join_name_chars (parts : list string) :
  Forall (fun part => forallb_chars name_char part = true) parts ->
  forallb_chars name_char (join "_" parts) = true.
Proof.
  unfold join. induction 1 as [|p ps P F IH]; [reflexivity|].
  cbn [String.concat]. destruct ps as [|q qs]; [assumption|].
  rewrite !forallb_chars_append, P, IH. reflexivity.
Qed.

Lemma not_placeholder (part : string) :
  brace_free part = true -> startsWith part "{" && endsWith part "}" = false.
Proof.
  intros B. destruct part as [|c r]; [reflexivity|].
  apply brace_free_cons in B. destruct B as [B1 _].
  unfold startsWith. cbn [prefix]. destruct (ascii_dec "{" c) as [<-|N]; [discriminate|].
  reflexivity.
Qed.

(** X14.  For an operation without an operationId and a path
    without braces, what follows [prefix + method + "_"] in the tool
    name is made of letters, digits and underscores only, whatever
    characters the path has. *)
Theorem generateToolName_alphabet (prefix method path : string) (operation : Operation) :
  truthy (operationId operation) = None ->
  brace_free path = true ->
  exists rest,
    generateToolName prefix method path operation
    = prefix ++ toLowerCase method ++ "_" ++ rest
    /\ forallb_chars name_char rest = true.
Proof.
  intros T B. unfold generateToolName. rewrite T.
  eexists. split; [reflexivity|].
  apply join_name_chars.
  apply split_brace_free in B.
  induction B as [|part parts P F IH]; [constructor|].
  cbn [filter]. destruct (negb (part =? EmptyString)); [|exact IH].
  cbn [map]. constructor; [|exact IH].
  rewrite (not_placeholder _ P). apply replace_non_alnum_name_chars.
Qed.

Lemma generateToolName_alphabet_witness :
  truthy (operationId (mkOperation None None None None)) = None
  /\ brace_free "/v1.0/pet-store/find by tag" = true
  /\ exists rest,
       generateToolName "api_" "GET" "/v1.0/pet-store/find by tag"
         (mkOperation None None None None)
       = "api_" ++ toLowerCase "GET" ++ "_" ++ rest
       /\ forallb_chars name_char rest = true.
Proof.
  split; [reflexivity|]. split; [reflexivity|].
  apply generateToolName_alphabet; reflexivity.
Defined.

End NameShapeFacts.

(** ** Substitution as instantiation *)

Module InstantiateFacts.
Import JsString JsValue Server Notions Template Pieces.
Import StringFacts TemplateFacts SubstituteFacts.

Lemma prefix_cons (a c : ascii) (p s : string) :
  prefix (String a p) (String c s) = Ascii.eqb a c && prefix p s.
Proof.
  cbn [prefix]. destruct (ascii_dec a c) as [->|N].
  - now rewrite Ascii.eqb_refl.
  - apply Ascii.eqb_neq in N. now rewrite N.
Qed.

(** An occurrence of a pattern that starts with an opening brace
    cannot start in text without one. *)
Lemma split_first_skip (p w R : string) :
  no_opening w = true ->
  split_first (String "{" p) (w ++ R) = prepend w (split_first (String "{" p) R).
Proof.
  induction w as [|c w IH]; intros N.
  - cbn [append prepend]. now destruct (split_first _ R) as [[? ?]|].
  - cbn [no_opening forallb_chars] in N. apply andb_true_iff in N. destruct N as [Nc N].
    apply negb_true_iff in Nc.
    cbn [append]. rewrite split_first_eq, prefix_cons.
    rewrite Ascii.eqb_sym, Nc. cbn [andb]. fold (no_opening w) in N.
    rewrite (IH N). now destruct (split_first _ R) as [[? ?]|].
Qed.

Lemma brace_free_no_opening (s : string) : brace_free s = true -> no_opening s = true.
Proof.
  unfold brace_free, no_opening. apply forallb_chars_impl.
  intros c. unfold is_brace. now destruct (Ascii.eqb c "{").
Qed.

(** Two brace-free names followed by a closing brace: one is a
    prefix of the other only when they are the same. *)
Lemma closing_prefix (key name R : string) :
  brace_free key = true -> brace_free name = true ->
  prefix (key ++ "}") (name ++ String "}" R) = true -> key = name.
Proof.
  revert name. induction key as [|c key IH]; intros name Bk Bn P.
  - destruct name as [|d name]; [reflexivity|].
    apply brace_free_cons in Bn. destruct Bn as [_ [Bd _]].
    cbn [append] in P. rewrite prefix_cons in P.
    rewrite Ascii.eqb_sym, Bd in P. discriminate.
  - apply brace_free_cons in Bk. destruct Bk as [_ [Bc Bk]].
    destruct name as [|d name].
    + cbn [append] in P. rewrite prefix_cons, Bc in P. discriminate.
    + apply brace_free_cons in Bn. destruct Bn as [_ [_ Bn]].
      cbn [append] in P. rewrite prefix_cons in P. apply andb_true_iff in P.
      destruct P as [E P]. apply Ascii.eqb_eq in E. subst d.
      f_equal. now apply (IH name).
Qed.

Lemma render_app (a b : list piece) : render (a ++ b)%list = render a ++ render b.
Proof.
  induction a as [|p a IH]; [reflexivity|].
  cbn [app render]. now rewrite IH, append_assoc.
Qed.

Lemma render_text_pieces (s : string) : render (text_pieces s) = s.
Proof.
  induction s as [|c s IH]; [reflexivity|].
  cbn [text_pieces render render_piece append]. now rewrite IH.
Qed.

Lemma wf_cons (p : piece) (ps : list piece) :
  forallb wf_piece (p :: ps) = true -> wf_piece p = true /\ forallb wf_piece ps = true.
Proof. cbn [forallb]. apply andb_true_iff. Qed.

(** In a well-formed template the leftmost token [{key}] is the
    first placeholder named [key]. *)
Lemma split_first_hole (key : string) (ps : list piece) :
  brace_free key = true ->
  forallb wf_piece ps = true ->
  split_first ("{" ++ key ++ "}") (render ps)
  = match split_at_hole key ps with
    | Some (before, after) => Some (render before, render after)
    | None => None
    end.
Proof.
  intros Bk. induction ps as [|p ps IH]; intros W.
  - cbn [render split_at_hole]. rewrite split_first_eq. reflexivity.
  - apply wf_cons in W. destruct W as [Wp W]. specialize (IH W).
    destruct p as [c|name]; cbn [render render_piece split_at_hole].
    + cbn [wf_piece] in Wp. apply negb_true_iff in Wp.
      change ("{" ++ key ++ "}") with (String "{" (key ++ "}")) in *.
      rewrite split_first_skip.
      * rewrite IH. destruct (split_at_hole key ps) as [[before after]|]; reflexivity.
      * cbn [no_opening forallb_chars]. unfold is_brace in Wp.
        apply orb_false_iff in Wp. destruct Wp as [-> _]. reflexivity.
    + cbn [wf_piece] in Wp.
      destruct (name =? key) eqn:E.
      * apply String.eqb_eq in E. subst name.
        rewrite split_first_eq, prefix_append, drop_append. reflexivity.
      * apply String.eqb_neq in E.
        change ("{" ++ key ++ "}") with (String "{" (key ++ "}")) in *.
        change (("{" ++ name ++ "}") ++ render ps)
          with (String "{" ((name ++ "}") ++ render ps)).
        rewrite split_first_eq, prefix_cons, Ascii.eqb_refl. cbn [andb].
        destruct (prefix (key ++ "}") ((name ++ "}") ++ render ps)) eqn:P.
        { rewrite append_assoc in P. cbn [append] in P.
          apply closing_prefix in P; [congruence | assumption | assumption]. }
        rewrite split_first_skip.
        -- rewrite IH. destruct (split_at_hole key ps) as [[before after]|];
             cbn [prepend render render_piece]; reflexivity.
        -- unfold no_opening. rewrite forallb_chars_append.
           fold (no_opening name). now rewrite (brace_free_no_opening _ Wp).
Qed.

Lemma split_at_hole_none (key text : string) (ps : list piece) :
  split_at_hole key ps = None -> fill_key key text ps = ps.
Proof.
  unfold fill_key. induction ps as [|p ps IH]; [reflexivity|].
  cbn [split_at_hole flat_map]. destruct p as [c|name].
  - destruct (split_at_hole key ps) as [[? ?]|]; [discriminate|].
    intros _. now rewrite IH.
  - destruct (name =? key); [discriminate|].
    destruct (split_at_hole key ps) as [[? ?]|]; [discriminate|].
    intros _. now rewrite IH.
Qed.

Lemma fill_key_absent (key text : string) (ps : list piece) :
  ~ In key (holes ps) -> fill_key key text ps = ps.
Proof.
  unfold fill_key, holes. induction ps as [|p ps IH]; intros N; [reflexivity|].
  cbn [flat_map] in *. destruct p as [c|name].
  - cbn [app] in *. now rewrite IH.
  - destruct (name =? key) eqn:E.
    + apply String.eqb_eq in E. subst. exfalso. apply N. now left.
    + cbn [app] in *. rewrite IH; [reflexivity|]. intros I. apply N. now right.
Qed.

Lemma split_at_hole_some (key text : string) (ps before after : list piece) :
  split_at_hole key ps = Some (before, after) ->
  NoDup (holes ps) ->
  fill_key key text ps = (before ++ text_pieces text ++ after)%list.
Proof.
  revert before. induction ps as [|p ps IH]; intros before S D; [discriminate|].
  cbn [split_at_hole] in S. destruct p as [c|name].
  - destruct (split_at_hole key ps) as [[b a]|] eqn:S'; [|discriminate].
    injection S as <- <-. unfold fill_key in *. cbn [flat_map app].
    f_equal. now apply IH.
  - cbn [holes flat_map app] in D. inversion D as [|? ? N D']; subst.
    unfold fill_key at 1. cbn [flat_map]. destruct (name =? key) eqn:E.
    + injection S as <- <-. apply String.eqb_eq in E. subst name.
      cbn [app]. f_equal. apply (fill_key_absent key text ps N).
    + destruct (split_at_hole key ps) as [[b a]|] eqn:S'; [|discriminate].
      injection S as <- <-. cbn [app]. f_equal. now apply IH.
Qed.

(** One turn of the loop fills the placeholder named by the key. *)
Lemma replace_fills (key text : string) (ps : list piece) :
  brace_free key = true ->
  no_dollar text = true ->
  forallb wf_piece ps = true ->
  NoDup (holes ps) ->
  replace (render ps) ("{" ++ key ++ "}") text = render (fill_key key text ps).
Proof.
  intros Bk Dt W D.
  pose proof (split_first_hole key ps Bk W) as S.
  destruct (split_at_hole key ps) as [[before after]|] eqn:H.
  - rewrite (replace_plain _ _ _ _ _ Dt S), (split_at_hole_some _ text _ _ _ H D).
    now rewrite !render_app, render_text_pieces.
  - rewrite (replace_absent _ _ _ S), (split_at_hole_none _ text _ H). reflexivity.
Qed.

Lemma wf_text_pieces (s : string) :
  brace_free s = true -> forallb wf_piece (text_pieces s) = true.
Proof.
  induction s as [|c s IH]; intros B; [reflexivity|].
  unfold brace_free in B. cbn [forallb_chars] in B. apply andb_true_iff in B.
  destruct B as [Bc B]. cbn [text_pieces forallb wf_piece]. rewrite Bc. now apply IH.
Qed.

Lemma holes_text_pieces (s : string) : holes (text_pieces s) = [].
Proof. unfold holes. induction s as [|c s IH]; [reflexivity | exact IH]. Qed.

Lemma fill_key_wf (key text : string) (ps : list piece) :
  brace_free text = true ->
  forallb wf_piece ps = true -> forallb wf_piece (fill_key key text ps) = true.
Proof.
  intros Bt. unfold fill_key. induction ps as [|p ps IH]; intros W; [reflexivity|].
  apply wf_cons in W. destruct W as [Wp W]. cbn [flat_map].
  rewrite forallb_app, (IH W), andb_true_r.
  destruct p as [c|name]; [cbn [forallb]; now rewrite Wp|].
  destruct (name =? key); [now apply wf_text_pieces | cbn [forallb]; now rewrite Wp].
Qed.

Lemma holes_fill_key (key text : string) (ps : list piece) :
  holes (fill_key key text ps) = filter (fun name => negb (name =? key)) (holes ps).
Proof.
  unfold fill_key, holes. induction ps as [|p ps IH]; [reflexivity|].
  cbn [flat_map]. rewrite flat_map_app, IH. destruct p as [c|name].
  - reflexivity.
  - cbn [app filter]. destruct (name =? key); cbn [negb].
    + fold (holes (text_pieces text)). now rewrite holes_text_pieces.
    + reflexivity.
Qed.

Lemma fill_key_NoDup (key text : string) (ps : list piece) :
  NoDup (holes ps) -> NoDup (holes (fill_key key text ps)).
Proof. intros D. rewrite holes_fill_key. now apply NoDup_filter. Qed.

(** The loop of [buildUrl] on a well-formed template, turn by turn. *)
Lemma substitute_fills (args : object value) (keys : list string) (ps : list piece) :
  forallb brace_free keys = true ->
  forallb wf_piece ps = true ->
  NoDup (holes ps) ->
  fold_left (substitute_key args) keys (render ps)
  = render
      (fold_left
         (fun ps key => fill_key key (encodeURIComponent (ToString (read args key))) ps)
         keys ps).
Proof.
  revert ps. induction keys as [|key keys IH]; intros ps Bk W D; [reflexivity|].
  cbn [forallb] in Bk. apply andb_true_iff in Bk. destruct Bk as [Bkey Bk].
  cbn [fold_left]. unfold substitute_key at 2.
  rewrite replace_fills by (assumption || apply encodeURIComponent_no_dollar).
  apply IH.
  - assumption.
  - apply fill_key_wf; [apply encodeURIComponent_brace_free | assumption].
  - now apply fill_key_NoDup.
Qed.

Lemma instantiate_with_app (keys : list string) (args : object value) (a b : list piece) :
  instantiate_with keys args (a ++ b)%list
  = instantiate_with keys args a ++ instantiate_with keys args b.
Proof.
  induction a as [|p a IH]; [reflexivity|].
  cbn [app instantiate_with]. now rewrite IH, append_assoc.
Qed.

Lemma instantiate_with_text (keys : list string) (args : object value) (s : string) :
  instantiate_with keys args (text_pieces s) = s.
Proof.
  induction s as [|c s IH]; [reflexivity|].
  cbn [text_pieces instantiate_with instantiate_piece append]. now rewrite IH.
Qed.

Lemma instantiate_with_nil (args : object value) (ps : list piece) :
  instantiate_with [] args ps = render ps.
Proof.
  induction ps as [|p ps IH]; [reflexivity|].
  cbn [instantiate_with render]. rewrite IH. now destruct p.
Qed.

Lemma instantiate_with_fill (key : string) (keys : list string) (args : object value)
    (ps : list piece) :
  instantiate_with keys args
    (fill_key key (encodeURIComponent (ToString (read args key))) ps)
  = instantiate_with (key :: keys) args ps.
Proof.
  unfold fill_key. induction ps as [|p ps IH]; [reflexivity|].
  cbn [flat_map]. rewrite instantiate_with_app, IH. cbn [instantiate_with]. f_equal.
  destruct p as [c|name].
  - cbn [instantiate_with instantiate_piece]. apply append_nil_r.
  - cbn [instantiate_piece existsb]. destruct (name =? key) eqn:E; cbn [orb].
    + apply String.eqb_eq in E. subst. apply instantiate_with_text.
    + cbn [instantiate_with instantiate_piece]. rewrite append_nil_r. reflexivity.
Qed.

Lemma render_fills (args : object value) (keys : list string) (ps : list piece) :
  render
    (fold_left
       (fun ps key => fill_key key (encodeURIComponent (ToString (read args key))) ps)
       keys ps)
  = instantiate_with keys args ps.
Proof.
  revert ps. induction keys as [|key keys IH]; intros ps.
  - cbn [fold_left]. now rewrite instantiate_with_nil.
  - cbn [fold_left]. rewrite IH. apply instantiate_with_fill.
Qed.

(** Every well-formed template is the rendering of its pieces. *)
Lemma scan_pieces (s : string) :
  forall (st : scan_state) (names : list string),
  scan st s = Some (Outside, names) ->
  match st with
  | Outside =>
      exists ps, s = render ps /\ forallb wf_piece ps = true /\ holes ps = names
  | Inside n =>
      brace_free n = true ->
      exists m ps,
        s = m ++ "}" ++ render ps /\ brace_free (n ++ m) = true
        /\ forallb wf_piece ps = true /\ names = (n ++ m) :: holes ps
  end.
Proof.
  induction s as [|c s IH]; intros st names S.
  - cbn [scan] in S. injection S as -> <-. exists []. auto.
  - cbn [scan] in S. destruct st as [|n].
    + destruct (Ascii.eqb c "{") eqn:O.
      * apply Ascii.eqb_eq in O. subst c.
        apply IH in S. destruct (S eq_refl) as [m [ps [-> [B [W ->]]]]].
        exists (Hole m :: ps). cbn [render render_piece forallb wf_piece holes flat_map app].
        cbn [append] in B. rewrite B, W.
        repeat split. now rewrite !append_assoc.
      * destruct (Ascii.eqb c "}") eqn:C; [discriminate|].
        apply IH in S. destruct S as [ps [-> [W <-]]].
        exists (Text c :: ps). cbn [render render_piece forallb wf_piece holes flat_map app].
        unfold is_brace. rewrite O, C, W. auto.
    + intros Bn. destruct (Ascii.eqb c "}") eqn:C.
      * apply Ascii.eqb_eq in C. subst c.
        destruct (scan Outside s) as [[st' names']|] eqn:S'; [|discriminate].
        injection S as -> <-. apply IH in S'. destruct S' as [ps [-> [W <-]]].
        exists EmptyString, ps. rewrite append_nil_r. auto.
      * destruct (Ascii.eqb c "{") eqn:O; [discriminate|].
        apply IH in S.
        assert (brace_free (n ++ String c EmptyString) = true) as B.
        { rewrite brace_free_append, Bn. unfold brace_free, is_brace.
          cbn [forallb_chars]. now rewrite O, C. }
        destruct (S B) as [m [ps [-> [Bm [W ->]]]]].
        exists (String c m), ps. rewrite append_assoc in Bm. cbn [append] in Bm.
        rewrite append_assoc. cbn [append]. auto.
Qed.



Lemma instantiate_with_ext (keys keys' : list string) (args args' : object value)
    (ps : list piece) :
  (forall k, In k keys <-> In k keys') ->
  (forall k, In k keys -> read args k = read args' k) ->
  instantiate_with keys args ps = instantiate_with keys' args' ps.
Proof.
  intros K R. induction ps as [|p ps IH]; [reflexivity|].
  cbn [instantiate_with]. rewrite IH. f_equal.
  destruct p as [c|name]; [reflexivity|]. cbn [instantiate_piece].
  destruct (existsb (String.eqb name) keys) eqn:E.
  - apply GenerateFacts.existsb_eqb_In in E. rewrite (R _ E).
    apply K in E. apply GenerateFacts.existsb_eqb_In in E. now rewrite E.
  - destruct (existsb (String.eqb name) keys') eqn:E'; [|reflexivity].
    apply GenerateFacts.existsb_eqb_In in E'. apply K in E'.
    apply GenerateFacts.existsb_eqb_In in E'. congruence.
Qed.

(** X16.  On such a template the result of the substitution does
    not depend on the order of the argument keys: two argument bags
    with the same keys and the same values give the same path. *)
Theorem substitute_key_order (path : string) (names : list string)
    (args args' : object value) :
  placeholders path = Some names ->
  NoDup names ->
  forallb brace_free (Object_keys args) = true ->
  (forall k, In k (Object_keys args) <-> In k (Object_keys args')) ->
  (forall k, read args k = read args' k) ->
  substitute path args = substitute path args'.
Proof.
  intros P D Bk K R.
  assert (forallb brace_free (Object_keys args') = true) as Bk'.
  { apply forallb_forall. intros k I. apply K in I.
    revert k I. now apply forallb_forall. }
  apply placeholders_scan in P. apply scan_pieces in P.
  destruct P as [ps [-> [W <-]]].
  rewrite !substitute_fold, !substitute_fills, !render_fills by assumption.
  apply instantiate_with_ext; [assumption | auto].
Qed.

Lemma substitute_key_order_witness :
  let args := [("a", VNum 1); ("b", VStr "x y")] in
  let args' := [("b", VStr "x y"); ("a", VNum 1)] in
  placeholders "/{a}/{b}" = Some ["a"; "b"]
  /\ NoDup ["a"; "b"]
  /\ forallb brace_free (Object_keys args) = true
  /\ substitute "/{a}/{b}" args = "/1/x%20y"
  /\ substitute "/{a}/{b}" args = substitute "/{a}/{b}" args'.
Proof.
  cbv zeta.
  assert (NoDup ["a"; "b"]) as D.
  { constructor; [cbn; intuition discriminate|]. constructor; [intros []|constructor]. }
  split; [reflexivity|]. split; [exact D|]. split; [reflexivity|]. split; [reflexivity|].
  apply (substitute_key_order "/{a}/{b}" ["a"; "b"]).
  - reflexivity.
  - exact D.
  - reflexivity.
  - intros k. cbn. tauto.
  - intros k. unfold read. cbn [get].
    destruct ("a" =? k) eqn:A; destruct ("b" =? k) eqn:B; try reflexivity.
    apply String.eqb_eq in A, B. congruence.
Defined.

End InstantiateFacts.

(** ** Repeated placeholders *)

Module OccurrenceClaims.
Import JsString JsValue Whatwg Server Notions Template Pieces.
Import StringFacts TemplateFacts UrlFacts SubstituteFacts ComposeFacts.
Import RepeatClaims InstantiateFacts.






















(** Two keys, one placeholder twice: the second occurrence stays,
    whatever the other key does. *)
Example repeated_placeholder_two_keys :
  substitute "/a/{id}/b/{id}/{kind}" [("kind", VStr "cat"); ("id", VNum 7)]
  = "/a/7/b/{id}/cat".
Proof. reflexivity. Qed.

(** Why the keys must not hold a brace: the token of such a key can
    span two placeholders. *)
Example brace_in_key_spans_placeholders :
  substitute "/{id}/{id}" [("id}/{id", VStr "x"); ("id", VNum 7)] = "/x".
Proof. reflexivity. Qed.

End OccurrenceClaims.

(** ** Start-up *)

Module LoaderFacts.
Import JsString JsValue Whatwg Server Notions Handlers Pieces StringFacts GenerateFacts.

Section Source.
Context `{DocumentSource}.

(** What the [try] block of [loadSwaggerDoc] fetches. *)
Lemma loadSwaggerDoc_cases (this : SwaggerMCPServer) :
  loadSwaggerDoc this
  = match
      (swaggerDoc <-
         match truthy (swaggerUrl (config this)) with
         | Some url => http_get url
         | None =>
             match truthy (swaggerFile (config this)) with
             | Some file => parser_parse file
             | None => Throw (Error "Either swaggerUrl or swaggerFile must be provided")
             end
         end ;;
       parser_dereference swaggerDoc)
    with
    | Normal doc => Normal (mkServer (config this) (Some doc) (tools this))
    | Throw error =>
        Throw (Error ("Failed to load swagger document: " ++ message error))
    end.
Proof.
  unfold loadSwaggerDoc, try_catch, bind.
  destruct (match truthy (swaggerUrl (config this)) with
            | Some url => http_get url
            | None => _
            end) as [raw|error]; [|reflexivity].
  destruct (parser_dereference raw); reflexivity.
Qed.

Lemma loadSwaggerDoc_throw (this : SwaggerMCPServer) (e : Thrown) :
  loadSwaggerDoc this = Throw e ->
  exists cause, e = Error ("Failed to load swagger document: " ++ message cause).
Proof.
  rewrite loadSwaggerDoc_cases.
  destruct (bind _ _) as [doc|cause]; [discriminate|].
  intros E. injection E as <-. now exists cause.
Qed.

Lemma loadSwaggerDoc_normal (this loaded : SwaggerMCPServer) :
  loadSwaggerDoc this = Normal loaded ->
  exists doc, loaded = mkServer (config this) (Some doc) (tools this).
Proof.
  rewrite loadSwaggerDoc_cases.
  destruct (bind _ _) as [doc|cause]; [|discriminate].
  intros E. injection E as <-. now exists doc.
Qed.

End Source.

(** X17.  [loadSwaggerDoc] either stores a dereferenced document,
    leaving configuration and tools as they were, or throws a plain
    error whose message starts with ["Failed to load swagger
    document: "]: the response of a failed download is not passed
    on.  Without a document URL and a document file the message
    names the missing option.  A download that fails is final: the
    configured file is not tried instead. *)
Theorem loadSwaggerDoc_outcome `{DocumentSource} (this : SwaggerMCPServer) :
  (forall e, loadSwaggerDoc this = Throw e ->
     response e = None
     /\ startsWith (message e) "Failed to load swagger document: " = true)
  /\ (forall loaded, loadSwaggerDoc this = Normal loaded ->
        config loaded = config this /\ tools loaded = tools this
        /\ exists doc, swaggerDoc loaded = Some doc)
  /\ (truthy (swaggerUrl (config this)) = None ->
      truthy (swaggerFile (config this)) = None ->
      loadSwaggerDoc this
      = Throw (Error ("Failed to load swagger document: "
                      ++ "Either swaggerUrl or swaggerFile must be provided")))
  /\ (forall url e,
        truthy (swaggerUrl (config this)) = Some url ->
        http_get url = Throw e ->
        loadSwaggerDoc this
        = Throw (Error ("Failed to load swagger document: " ++ message e))).
Proof.
  split; [|split; [|split]].
  - intros e E. apply loadSwaggerDoc_throw in E. destruct E as [cause ->].
    split; [reflexivity|]. apply prefix_append.
  - intros loaded E. apply loadSwaggerDoc_normal in E. destruct E as [doc ->].
    repeat split. now exists doc.
  - intros U F. rewrite loadSwaggerDoc_cases, U, F. reflexivity.
  - intros url e U G. rewrite loadSwaggerDoc_cases, U, G. reflexivity.
Qed.

Lemma loadSwaggerDoc_outcome_witness :
  let source :=
    {| RawDocument := SwaggerDoc;
       http_get := fun _ => Throw (mkThrown (Some (mkResponse 404 VNull)) "Not Found");
       parser_parse := fun _ => Normal (mkDoc None None None None);
       parser_dereference := fun doc => Normal doc |} in
  let this :=
    mkServer (mkConfig (Some "https://example.com/api.json") (Some "api.json")
                None None false None) None [] in
  @loadSwaggerDoc source this
  = Throw (Error "Failed to load swagger document: Not Found")
  /\ response (Error "Failed to load swagger document: Not Found") = None
  /\ startsWith (message (Error "Failed to load swagger document: Not Found"))
       "Failed to load swagger document: " = true.
Proof.
  cbv zeta. split; [reflexivity|].
  apply (proj1 (@loadSwaggerDoc_outcome
                  {| RawDocument := SwaggerDoc;
                     http_get := fun _ =>
                       Throw (mkThrown (Some (mkResponse 404 VNull)) "Not Found");
                     parser_parse := fun _ => Normal (mkDoc None None None None);
                     parser_dereference := fun doc => Normal doc |}
                  (mkServer (mkConfig (Some "https://example.com/api.json") (Some "api.json")
                               None None false None) None []))).
  reflexivity.
Defined.

(** X18.  [initialize] fails only with the error of
    [loadSwaggerDoc], or with what [generateTools] throws: ["No
    valid swagger document loaded"] when the dereferenced document
    has no [paths], the [TypeError] of a [null] operation.  When it
    completes, the server holds the document, its tools are the
    former tools followed by the tools generated from the
    document's paths, the configuration is unchanged, and from then
    on [buildUrl] does not fail for want of a document. *)
Theorem initialize_outcome `{DocumentSource} (this : SwaggerMCPServer) :
  (forall e, initialize this = Throw e ->
     startsWith (message e) "Failed to load swagger document: " = true
     \/ e = Error "No valid swagger document loaded"
     \/ e = null_operation_error)
  /\ (forall ready, initialize this = Normal ready ->
        config ready = config this
        /\ (exists doc ps,
              swaggerDoc ready = Some doc /\ paths doc = Some ps
              /\ tools ready = (tools this ++ generated (tool_prefix this) ps)%list)
        /\ (forall (platform : Platform) path args,
              @buildUrl platform ready path args
              <> Throw (Error "No swagger document loaded"))).
Proof.
  unfold initialize, bind.
  destruct (loadSwaggerDoc this) as [loaded|cause] eqn:L.
  - apply loadSwaggerDoc_normal in L. destruct L as [doc ->]. cbn [config swaggerDoc].
    destruct (generateTools (mkServer (config this) (Some doc) (tools this)))
      as [ts|e'] eqn:G.
    + split; [discriminate|].
      intros ready E. injection E as <-. cbn [config swaggerDoc tools].
      apply generateTools_normal in G. destruct G as [ps [P [_ ->]]].
      unfold loaded_paths in P. cbn [swaggerDoc] in P.
      split; [reflexivity|]. split; [now exists doc, ps|].
      intros platform path args B.
      apply HandlerFacts.buildUrl_no_document in B. destruct B as [_ D]. discriminate.
    + split; [|discriminate].
      intros e E. injection E as <-. right.
      apply generateTools_throws_cases in G. exact G.
  - split; [|discriminate].
    intros e E. injection E as <-. left.
    apply loadSwaggerDoc_throw in L. destruct L as [c ->]. apply prefix_append.
Qed.

Lemma initialize_outcome_witness :
  let operation := mkOperation (Some "listPets") None None None in
  let ps := [("/pets", [("get", OperationEntry operation)])] in
  let document := mkDoc None (Some "example.com") None (Some ps) in
  let source :=
    {| RawDocument := SwaggerDoc;
       http_get := fun _ => Normal document;
       parser_parse := fun _ => Normal document;
       parser_dereference := fun doc => Normal doc |} in
  let this :=
    mkServer (mkConfig (Some "https://example.com/api.json") None None None false None)
      None [] in
  let ready :=
    mkServer (config this) (Some document)
      [createToolFromOperation "listPets" "get" "/pets" operation] in
  @initialize source this = Normal ready
  /\ config ready = config this
  /\ (exists doc ps',
        swaggerDoc ready = Some doc /\ paths doc = Some ps'
        /\ tools ready = (tools this ++ generated (tool_prefix this) ps')%list)
  /\ (forall (platform : Platform) path args,
        @buildUrl platform ready path args
        <> Throw (Error "No swagger document loaded")).
Proof.
  cbv zeta. split; [reflexivity|].
  apply (proj2 (@initialize_outcome
                  {| RawDocument := SwaggerDoc;
                     http_get := fun _ =>
                       Normal (mkDoc None (Some "example.com") None
                                 (Some [("/pets",
                                         [("get", OperationEntry
                                                    (mkOperation (Some "listPets")
                                                       None None None))])]));
                     parser_parse := fun _ =>
                       Normal (mkDoc None (Some "example.com") None
                                 (Some [("/pets",
                                         [("get", OperationEntry
                                                    (mkOperation (Some "listPets")
                                                       None None None))])]));
                     parser_dereference := fun doc => Normal doc |}
                  (mkServer (mkConfig (Some "https://example.com/api.json") None None None
                               false None) None []))).
  reflexivity.
Defined.

End LoaderFacts.

(** ** The interactive client *)

Module InteractiveFacts.
Import JsString JsValue Interactive Pieces Words StringFacts.

Lemma trimEnd_idempotent (s : string) : trimEnd (trimEnd s) = trimEnd s.
Proof.
  induction s as [|c s IH]; [reflexivity|].
  cbn [trimEnd]. destruct (trimEnd s) as [|d kept] eqn:E.
  - destruct (is_whitespace c) eqn:W; [reflexivity|].
    cbn [trimEnd]. now rewrite W.
  - cbn [trimEnd] in *. rewrite IH. reflexivity.
Qed.

Lemma trimStart_starts_black (s : string) : starts_black (trimStart s) = true.
Proof.
  induction s as [|c s IH]; [reflexivity|].
  cbn [trimStart]. destruct (is_whitespace c) eqn:W; [exact IH|].
  cbn [starts_black]. now rewrite W.
Qed.

Lemma trimStart_black (s : string) : starts_black s = true -> trimStart s = s.
Proof.
  destruct s as [|c s]; [reflexivity|]. cbn [starts_black trimStart].
  intros W. apply negb_true_iff in W. now rewrite W.
Qed.

Lemma trimEnd_starts_black (s : string) :
  starts_black s = true -> starts_black (trimEnd s) = true.
Proof.
  destruct s as [|c s]; [reflexivity|]. cbn [starts_black trimEnd]. intros W.
  destruct (trimEnd s); [|exact W].
  apply negb_true_iff in W. rewrite W. cbn [starts_black]. now rewrite W.
Qed.

Lemma trim_idempotent (s : string) : trim (trim s) = trim s.
Proof.
  unfold trim.
  rewrite (trimStart_black (trimEnd (trimStart s))).
  - apply trimEnd_idempotent.
  - apply trimEnd_starts_black, trimStart_starts_black.
Qed.

Lemma trimStart_forall (p : ascii -> bool) (s : string) :
  forallb_chars p s = true -> forallb_chars p (trimStart s) = true.
Proof.
  induction s as [|c s IH]; [reflexivity|].
  cbn [trimStart]. destruct (is_whitespace c); [|trivial].
  cbn [forallb_chars]. intros F. apply andb_true_iff in F. now apply IH.
Qed.

Lemma trimEnd_forall (p : ascii -> bool) (s : string) :
  forallb_chars p s = true -> forallb_chars p (trimEnd s) = true.
Proof.
  induction s as [|c s IH]; [reflexivity|].
  cbn [forallb_chars trimEnd]. intros F. apply andb_true_iff in F. destruct F as [Pc F].
  specialize (IH F). destruct (trimEnd s) as [|d kept].
  - destruct (is_whitespace c); [reflexivity|]. cbn [forallb_chars]. now rewrite Pc.
  - cbn [forallb_chars] in *. now rewrite Pc.
Qed.

Lemma trim_forall (p : ascii -> bool) (s : string) :
  forallb_chars p s = true -> forallb_chars p (trim s) = true.
Proof. intros F. now apply trimEnd_forall, trimStart_forall. Qed.

(** The fields of the state after one character, by cases on the
    character. *)
Lemma step_parts (st : ParseState) (char : ascii) :
  parts (step st char) = parts st
  \/ (parts (step st char) = (parts st ++ [trim (current st)])%list
      /\ trim (current st) <> EmptyString).
Proof.
  unfold step.
  destruct (Ascii.eqb char "034" && negb (inJson st)); [now left|].
  destruct (Ascii.eqb char "{" && negb (inQuotes st)); [now left|].
  destruct (Ascii.eqb char "}" && inJson st && negb (inQuotes st)); [now left|].
  destruct (Ascii.eqb char "{" && inJson st && negb (inQuotes st)); [now left|].
  destruct (Ascii.eqb char " " && negb (inQuotes st) && negb (inJson st)); [|now left].
  destruct (trim (current st) =? EmptyString) eqn:E; cbn [negb]; [now left|].
  right. split; [reflexivity|]. now apply String.eqb_neq.
Qed.

Lemma trim_trimmed (s : string) : trim s <> EmptyString -> trimmed (trim s).
Proof. intros N. split; [assumption | apply trim_idempotent]. Qed.

Lemma run_trimmed (input : string) (st : ParseState) :
  Forall trimmed (parts st) -> Forall trimmed (parts (run st input)).
Proof.
  revert st. induction input as [|char input IH]; intros st F; [assumption|].
  cbn [run]. apply IH.
  destruct (step_parts st char) as [-> | [-> N]]; [assumption|].
  apply Forall_app. split; [assumption|]. constructor; [|constructor].
  now apply trim_trimmed.
Qed.

Lemma finish_trimmed (st : ParseState) :
  Forall trimmed (parts st) -> Forall trimmed (finish st).
Proof.
  intros F. unfold finish.
  destruct (trim (current st) =? EmptyString) eqn:E; cbn [negb]; [assumption|].
  apply String.eqb_neq in E.
  apply Forall_app. split; [assumption|]. constructor; [|constructor].
  now apply trim_trimmed.
Qed.

(** X19.  Every word [parseCallCommand] returns is non-empty and has
    no white space at either end; so the tool name is empty exactly
    when there is no word at all, and then there are no arguments
    either. *)
Theorem parseCallCommand_words (input : string) :
  Forall (fun part => part <> EmptyString /\ trim part = part)
    (args (parseCallCommand input))
  /\ (toolName (parseCallCommand input) = EmptyString
      <-> finish (run initial input) = [])
  /\ (toolName (parseCallCommand input) = EmptyString ->
      args (parseCallCommand input) = [])
  /\ (toolName (parseCallCommand input) <> EmptyString ->
      finish (run initial input)
      = toolName (parseCallCommand input) :: args (parseCallCommand input)
      /\ trim (toolName (parseCallCommand input)) = toolName (parseCallCommand input)).
Proof.
  unfold parseCallCommand. cbn [toolName args].
  pose proof (finish_trimmed (run initial input)
                (run_trimmed input initial (Forall_nil _))) as F.
  destruct (finish (run initial input)) as [|name rest].
  - cbn [nth_error truthy tl]. repeat split; auto. congruence.
  - inversion F as [|? ? [N T] F']; subst. cbn [nth_error tl].
    destruct name as [|c name]; [congruence|]. cbn [truthy].
    repeat split; try discriminate; try assumption.
Qed.

Lemma parseCallCommand_words_witness :
  toolName (parseCallCommand " getPet  7 ") <> EmptyString
  /\ finish (run initial " getPet  7 ")
     = toolName (parseCallCommand " getPet  7 ") :: args (parseCallCommand " getPet  7 ")
  /\ parseCallCommand " getPet  7 " = mkCall "getPet" ["7"].
Proof.
  split; [discriminate|]. split; [|reflexivity].
  apply (proj2 (proj2 (proj2 (parseCallCommand_words " getPet  7 ")))). discriminate.
Defined.

Lemma step_counted (st : ParseState) (char : ascii) : counted st -> counted (step st char).
Proof.
  unfold counted, step. intros C.
  destruct (Ascii.eqb char "034" && negb (inJson st)); [exact C|].
  destruct (Ascii.eqb char "{" && negb (inQuotes st)) eqn:B2; [reflexivity|].
  destruct (Ascii.eqb char "}" && inJson st && negb (inQuotes st)) eqn:B3.
  - apply andb_true_iff in B3. destruct B3 as [B3 _].
    apply andb_true_iff in B3. destruct B3 as [_ J].
    rewrite J in C. cbn [inJson braceCount]. rewrite C. reflexivity.
  - destruct (Ascii.eqb char "{" && inJson st && negb (inQuotes st)) eqn:B4.
    + exfalso. destruct (Ascii.eqb char "{"), (inJson st), (inQuotes st); discriminate.
    + destruct (Ascii.eqb char " " && negb (inQuotes st) && negb (inJson st)); [|exact C].
      destruct (negb (trim (current st) =? EmptyString)); exact C.
Qed.

Lemma run_counted (input : string) (st : ParseState) : counted st -> counted (run st input).
Proof.
  revert st. induction input as [|char input IH]; intros st C; [assumption|].
  cbn [run]. now apply IH, step_counted.
Qed.

(** X20.  [parseCallCommand] does not count nested braces: whatever
    the input, the counter is 1 inside a JSON argument and 0
    outside, because an opening brace outside of quotes always sets
    it to 1.  So the first closing brace outside of quotes ends the
    JSON argument, also when it closes a nested object, and a space
    after it splits the argument. *)
Theorem parseCallCommand_brace_count (input : string) :
  let st := run initial input in
  braceCount st = (if inJson st then 1 else 0)%Z
  /\ (inQuotes st = false ->
      inJson (step (step st "{") "}") = false
      /\ inJson (step (step (step st "{") "{") "}") = false).
Proof.
  cbv zeta.
  pose proof (run_counted input initial eq_refl) as C.
  split; [exact C|].
  intros Q. unfold step. cbn [inJson inQuotes braceCount].
  change (Ascii.eqb "{" "034") with false. change (Ascii.eqb "}" "034") with false.
  change (Ascii.eqb "{" "{") with true. change (Ascii.eqb "}" "{") with false.
  change (Ascii.eqb "}" "}") with true.
  rewrite Q. cbn [andb negb inJson inQuotes braceCount]. split; reflexivity.
Qed.

Lemma parseCallCommand_brace_count_witness :
  let input := "addPet {" ++ String dquote ("a" ++ String dquote ": 1, ") in
  inQuotes (run initial input) = false
  /\ inJson (run initial input) = true
  /\ inJson (step (step (run initial input) "{") "}") = false
  /\ inJson (step (step (step (run initial input) "{") "{") "}") = false.
Proof.
  cbv zeta. split; [reflexivity|]. split; [reflexivity|].
  apply (proj2 (parseCallCommand_brace_count
                  ("addPet {" ++ String dquote ("a" ++ String dquote ": 1, ")))).
  reflexivity.
Defined.

Lemma trimStart_blank_prefix (w s : string) :
  trimStart w = EmptyString -> trimStart (w ++ s) = trimStart s.
Proof.
  induction w as [|c w IH]; [reflexivity|].
  cbn [trimStart append]. destruct (is_whitespace c); [exact IH | discriminate].
Qed.

Lemma trimEnd_black (s : string) :
  s <> EmptyString -> starts_black s = true -> trimEnd s <> EmptyString.
Proof.
  destruct s as [|c s]; [congruence|]. intros _. cbn [starts_black trimEnd].
  intros W. apply negb_true_iff in W. rewrite W.
  destruct (trimEnd s); discriminate.
Qed.

(** Text that trims to nothing is white space only: in front of
    other text it is trimmed away. *)
Lemma trim_blank_prefix (w s : string) :
  trim w = EmptyString -> trim (w ++ s) = trim s.
Proof.
  unfold trim. intros E.
  assert (trimStart w = EmptyString) as B.
  { destruct (trimStart w) as [|c r] eqn:T; [reflexivity|]. exfalso.
    apply (trimEnd_black (String c r)); [discriminate | | exact E].
    rewrite <- T. apply trimStart_starts_black. }
  now rewrite (trimStart_blank_prefix _ _ B).
Qed.

Lemma split_cons (sep : ascii) (s : string) :
  exists first others, split sep s = first :: others.
Proof.
  destruct s as [|c r]; cbn [split]; [now eexists _, _|].
  destruct (Ascii.eqb c sep); [now eexists _, _|].
  destruct (split sep r); now eexists _, _.
Qed.

Lemma run_plain (input : string) (st : ParseState) :
  plain_input input = true ->
  inQuotes st = false -> inJson st = false ->
  finish (run st input)
  = (parts st ++ words_after (current st) (split " " input))%list.
Proof.
  revert st. induction input as [|char input IH]; intros st P Q J.
  - cbn [run split]. unfold finish, words_after. cbn [map filter].
    rewrite append_nil_r.
    destruct (negb (trim (current st) =? EmptyString)); [reflexivity|].
    now rewrite app_nil_r.
  - unfold plain_input in P. cbn [forallb_chars] in P.
    apply andb_true_iff in P. destruct P as [Pc P]. fold (plain_input input) in P.
    apply andb_true_iff in Pc. destruct Pc as [Nq No].
    apply negb_true_iff in Nq, No. unfold is_quote in Nq.
    cbn [run split]. unfold step. rewrite Nq, No, Q, J. cbn [andb negb].
    rewrite !andb_false_r, !andb_true_r. cbn [andb].
    destruct (split_cons " " input) as [first [others S]].
    destruct (Ascii.eqb char " ") eqn:Sp.
    + destruct (trim (current st) =? EmptyString) eqn:E; cbn [negb].
      * apply String.eqb_eq in E. rewrite (IH st P Q J), S. f_equal.
        unfold words_after. cbn [map filter]. rewrite append_nil_r, E.
        cbn [String.eqb negb]. now rewrite (trim_blank_prefix _ _ E).
      * rewrite IH by (assumption || reflexivity). cbn [parts current].
        rewrite S, <- app_assoc. f_equal.
        unfold words_after. cbn [map filter app append]. rewrite append_nil_r, E.
        reflexivity.
    + rewrite IH by (assumption || reflexivity). cbn [parts current].
      rewrite S. f_equal. unfold words_after. rewrite append_assoc. reflexivity.
Qed.

(** X21.  On input without double quotes and opening braces
    [parseCallCommand] splits at single spaces: its words are the
    pieces between spaces, trimmed, with the empty ones left out
    (other white space, such as a tab, separates nothing). *)
Theorem parseCallCommand_plain (input : string) :
  plain_input input = true ->
  finish (run initial input) = words input
  /\ args (parseCallCommand input) = tl (words input).
Proof.
  intros P.
  assert (finish (run initial input) = words input) as F.
  { rewrite (run_plain input initial P eq_refl eq_refl). reflexivity. }
  split; [exact F|]. unfold parseCallCommand. cbn [args]. now rewrite F.
Qed.

Lemma parseCallCommand_plain_witness :
  let tab := String (ascii_of_N 9) EmptyString in
  let input := "find  by" ++ tab ++ "tag " ++ tab ++ " x" in
  plain_input input = true
  /\ words input = ["find"; "by" ++ tab ++ "tag"; "x"]
  /\ finish (run initial input) = words input
  /\ args (parseCallCommand input) = tl (words input).
Proof.
  cbv zeta. split; [reflexivity|]. split; [reflexivity|].
  apply parseCallCommand_plain. reflexivity.
Defined.

Lemma step_quote_free (st : ParseState) (char : ascii) :
  Ascii.eqb char "{" = false ->
  inJson st = false ->
  quote_free (current st) = true ->
  Forall (fun part => quote_free part = true) (parts st) ->
  inJson (step st char) = false
  /\ quote_free (current (step st char)) = true
  /\ Forall (fun part => quote_free part = true) (parts (step st char)).
Proof.
  intros No J C F. unfold step. rewrite No, J. cbn [andb negb].
  rewrite !andb_false_r, !andb_true_r. cbn [andb].
  destruct (Ascii.eqb char "034") eqn:Q; [auto|].
  assert (quote_free (current st ++ String char EmptyString) = true) as C'.
  { unfold quote_free. rewrite forallb_chars_append. fold (quote_free (current st)).
    rewrite C. cbn [forallb_chars]. unfold is_quote. now rewrite Q. }
  destruct (Ascii.eqb char " " && negb (inQuotes st)); [|auto].
  destruct (negb (trim (current st) =? EmptyString)); [|auto].
  cbn [inJson current parts]. split; [reflexivity|]. split; [reflexivity|].
  apply Forall_app. split; [assumption|]. constructor; [|constructor].
  now apply trim_forall.
Qed.

Lemma run_quote_free (input : string) (st : ParseState) :
  no_opening input = true ->
  inJson st = false ->
  quote_free (current st) = true ->
  Forall (fun part => quote_free part = true) (parts st) ->
  Forall (fun part => quote_free part = true) (finish (run st input)).
Proof.
  revert st. induction input as [|char input IH]; intros st N J C F.
  - cbn [run]. unfold finish.
    destruct (negb (trim (current st) =? EmptyString)); [|assumption].
    apply Forall_app. split; [assumption|]. constructor; [|constructor].
    now apply trim_forall.
  - unfold no_opening in N. cbn [forallb_chars] in N. apply andb_true_iff in N.
    destruct N as [No N]. apply negb_true_iff in No.
    destruct (step_quote_free st char No J C F) as [J' [C' F']].
    cbn [run]. now apply IH.
Qed.

(** X22.  Without an opening brace in the input no word
    [parseCallCommand] returns has a double quote in it: quotes
    group words and are dropped, so an argument never starts and
    ends with a quote. *)
Theorem parseCallCommand_drops_quotes (input : string) :
  no_opening input = true ->
  quote_free (toolName (parseCallCommand input)) = true
  /\ Forall (fun part => quote_free part = true) (args (parseCallCommand input)).
Proof.
  intros N.
  pose proof (run_quote_free input initial N eq_refl eq_refl (Forall_nil _)) as F.
  unfold parseCallCommand. cbn [toolName args].
  destruct (finish (run initial input)) as [|name rest]; [split; [reflexivity|constructor]|].
  inversion F; subst. cbn [nth_error tl]. split; [|assumption].
  destruct name; [reflexivity | assumption].
Qed.

Lemma parseCallCommand_drops_quotes_witness :
  let input := "getUser " ++ String dquote ("john doe" ++ String dquote " x") in
  no_opening input = true
  /\ parseCallCommand input = mkCall "getUser" ["john doe"; "x"]
  /\ quote_free (toolName (parseCallCommand input)) = true
  /\ Forall (fun part => quote_free part = true) (args (parseCallCommand input)).
Proof.
  cbv zeta. split; [reflexivity|]. split; [reflexivity|].
  apply parseCallCommand_drops_quotes. reflexivity.
Defined.

End InteractiveFacts.
